(** * Nutrition API: meal aggregation and its HTTP handlers

    A shallow embedding of [main.py] (the FastAPI handlers and the
    [calc_totals] helper) together with the payload models it validates
    against.  Python's [float] is IEEE 754 binary64; it is modelled with
    the specification of binary floating point of the standard library
    ([SpecFloat], the same definitions the kernel's primitive floats are
    specified against), instantiated at precision 53 and maximal
    exponent 1024.  Documents (Python dicts keyed by strings) are finite
    maps from strings to values. *)

From Stdlib Require Import ZArith Bool List Lia Permutation.
From Stdlib Require Import Floats.SpecFloat.
From stdpp Require Import base gmap strings list fin_maps pretty.
Import ListNotations.

Local Open Scope Z_scope.

Set Warnings "-register-all".

(** ** Binary64 arithmetic *)

Module Float64.

Definition prec : Z := 53.
Definition emax : Z := 1024.

(** A Python [float].  Values that Python can hold are the
    [is_float64] ones: finite values carry a canonical mantissa and
    exponent. *)
Definition float : Type := spec_float.

Definition is_float64 (x : float) : Prop := valid_binary prec emax x = true.

Definition is_finite (x : float) : bool :=
  match x with
  | S754_zero _ | S754_finite _ _ _ => true
  | _ => false
  end.

Definition fadd : float -> float -> float := SFadd prec emax.
Definition fmul : float -> float -> float := SFmul prec emax.
Definition fdiv : float -> float -> float := SFdiv prec emax.

(** Python's [==], [<] and [<=] on floats (all false on NaN). *)
Definition feqb : float -> float -> bool := SFeqb.
Definition fltb : float -> float -> bool := SFltb.
Definition fleb : float -> float -> bool := SFleb.

Definition zero : float := S754_zero false.
Definition one : float := S754_finite false 4503599627370496 (-52).
Definition two : float := S754_finite false 4503599627370496 (-51).
(** The literal [100.0]: 7036874417766400 = 100 * 2^46. *)
Definition hundred : float := S754_finite false 7036874417766400 (-46).

(** The float written as the decimal integer literal [n]. *)
Definition of_pos (n : positive) : float :=
  binary_normalize prec emax (Zpos n) 0 false.

(** The binary64 value nearest to the rational [n / d] (ties to
    even): the float a decimal literal denotes, [2.7] being
    [ratio 27 10]. *)
Definition ratio (n d : positive) : float :=
  fdiv (S754_finite false n 0) (S754_finite false d 0).

(** *** [round(v, 2)]

    CPython rounds a finite float to [ndigits] decimals by converting
    its exact binary value to the correctly rounded decimal string
    with [ndigits] digits after the point (ties to even) and parsing
    that string back to the nearest float; infinities and NaN round to
    themselves and the sign of the argument is kept. *)

(** [a / d] rounded to the nearest integer, ties to even ([0 < d]). *)
Definition rne_div (a d : Z) : Z :=
  let q := a / d in
  match 2 * (a mod d) ?= d with
  | Lt => q
  | Gt => q + 1
  | Eq => if Z.even q then q else q + 1
  end.

(** The number of hundredths nearest to [m * 2^e]. *)
Definition cents (m : positive) (e : Z) : Z :=
  match e with
  | Zneg k => rne_div (Zpos m * 100) (2 ^ Zpos k)
  | _ => Zpos m * 100 * 2 ^ e
  end.

(** The float nearest to [n / 100], carrying sign [s]. *)
Definition of_cents (s : bool) (n : Z) : float :=
  match n with
  | Zpos p => fdiv (S754_finite s p 0) (S754_finite false 100 0)
  | _ => S754_zero s
  end.

Definition round2 (x : float) : float :=
  match x with
  | S754_finite s m e => of_cents s (cents m e)
  | _ => x
  end.

End Float64.

Import Float64.

(** ** Payload models ([main.py], lines 60-77)

    The records hold validated payloads.  The fields of the three
    models share names in the source ([name] occurs in every one), so
    the fields of the food payload and of the meal payload carry a
    prefix here. *)

Record CalculateMealItem := {
  name : string;
  grams : float;
  calories_per_100g : float;
  protein_per_100g : float;
  carbs_per_100g : float;
  fat_per_100g : float
}.

Record CalculateMealPayload := {
  items : list CalculateMealItem;
  payload_name : option string
}.

Record CreateFoodPayload := {
  food_name : string;
  food_calories_per_100g : float;
  food_protein_per_100g : float;
  food_carbs_per_100g : float;
  food_fat_per_100g : float
}.

(** *** Request validation

    A request body as it arrives: every field may be absent.  The
    declarative constraints of the models are [Field(ge=0)] on the
    nutrient fields, [Field(gt=0)] on [grams], and no default for any
    field but the payload's [name]. *)

Definition ge0 (x : float) : bool := fleb zero x.
Definition gt0 (x : float) : bool := fltb zero x.

Record RawItem := {
  raw_name : option string;
  raw_grams : option float;
  raw_calories_per_100g : option float;
  raw_protein_per_100g : option float;
  raw_carbs_per_100g : option float;
  raw_fat_per_100g : option float
}.

Record RawMealPayload := {
  raw_items : option (list RawItem);
  raw_payload_name : option string
}.

Record RawFood := {
  raw_food_name : option string;
  raw_food_calories_per_100g : option float;
  raw_food_protein_per_100g : option float;
  raw_food_carbs_per_100g : option float;
  raw_food_fat_per_100g : option float
}.

(** A required float field under a constraint. *)
Definition field (ok : float -> bool) (v : option float) : option float :=
  match v with
  | Some x => if ok x then Some x else None
  | None => None
  end.

Definition validate_item (r : RawItem) : option CalculateMealItem :=
  n ← raw_name r;
  g ← field gt0 (raw_grams r);
  c ← field ge0 (raw_calories_per_100g r);
  p ← field ge0 (raw_protein_per_100g r);
  b ← field ge0 (raw_carbs_per_100g r);
  f ← field ge0 (raw_fat_per_100g r);
  Some {| name := n; grams := g; calories_per_100g := c;
          protein_per_100g := p; carbs_per_100g := b; fat_per_100g := f |}.

Definition validate_payload (r : RawMealPayload) : option CalculateMealPayload :=
  l ← raw_items r;
  its ← mapM validate_item l;
  Some {| items := its; payload_name := raw_payload_name r |}.

Definition validate_food (r : RawFood) : option CreateFoodPayload :=
  n ← raw_food_name r;
  c ← field ge0 (raw_food_calories_per_100g r);
  p ← field ge0 (raw_food_protein_per_100g r);
  b ← field ge0 (raw_food_carbs_per_100g r);
  f ← field ge0 (raw_food_fat_per_100g r);
  Some {| food_name := n; food_calories_per_100g := c;
          food_protein_per_100g := p; food_carbs_per_100g := b;
          food_fat_per_100g := f |}.

(** ** The aggregator ([calc_totals], lines 81-94) *)

Record Totals := {
  calories : float;
  protein : float;
  carbs : float;
  fat : float
}.

Definition zero_totals : Totals :=
  {| calories := zero; protein := zero; carbs := zero; fat := zero |}.

(** One turn of the loop body. *)
Definition accumulate (totals : Totals) (it : CalculateMealItem) : Totals :=
  let factor := fdiv (grams it) hundred in
  {| calories := fadd (calories totals) (fmul (calories_per_100g it) factor);
     protein := fadd (protein totals) (fmul (protein_per_100g it) factor);
     carbs := fadd (carbs totals) (fmul (carbs_per_100g it) factor);
     fat := fadd (fat totals) (fmul (fat_per_100g it) factor) |}.

(** The dictionary [totals] when the loop is over. *)
Definition calc_sums (its : list CalculateMealItem) : Totals :=
  fold_left accumulate its zero_totals.

Definition round_totals (t : Totals) : Totals :=
  {| calories := round2 (calories t); protein := round2 (protein t);
     carbs := round2 (carbs t); fat := round2 (fat t) |}.

Definition calc_totals (its : list CalculateMealItem) : Totals :=
  round_totals (calc_sums its).

Definition rice : CalculateMealItem :=
  {| name := "Rice"; grams := of_pos 200;
     calories_per_100g := of_pos 130; protein_per_100g := ratio 27 10;
     carbs_per_100g := of_pos 28; fat_per_100g := ratio 3 10 |}.


(** ** Documents and the document store gateway *)

(** What a document field may hold.  [VObjectId] is the store's native
    identifier type. *)
Inductive value :=
| VNone
| VStr (s : string)
| VFloat (x : float)
| VObjectId (oid : string)
| VList (l : list value)
| VDict (kv : list (string * value)).

Abbreviation document := (gmap string value).

Inductive http_error :=
| HTTPException (status_code : Z) (detail : string)
| RequestValidationError.

(** A handler is a program over the two operations the handlers import
    from [database]: it returns, raises, or calls the gateway and goes
    on with the answer. *)
Inductive prog (A : Type) :=
| Ret (a : A)
| Raise (e : http_error)
| CreateDocument (collection : string) (doc : document) (k : string -> prog A)
| GetDocuments (collection : string) (filter_dict : document) (limit : Z)
    (k : list document -> prog A).

Arguments Ret {A} a.
Arguments Raise {A} e.
Arguments CreateDocument {A} collection doc k.
Arguments GetDocuments {A} collection filter_dict limit k.

(** *** Responses *)

Record CalculateResponse := {
  calc_name : option string;
  calc_totals_of : Totals
}.

Record SaveResponse := {
  save_id : string;
  save_totals : Totals
}.

(** [it.model_dump()] *)
Definition model_dump (it : CalculateMealItem) : value :=
  VDict [("name", VStr (name it)); ("grams", VFloat (grams it));
         ("calories_per_100g", VFloat (calories_per_100g it));
         ("protein_per_100g", VFloat (protein_per_100g it));
         ("carbs_per_100g", VFloat (carbs_per_100g it));
         ("fat_per_100g", VFloat (fat_per_100g it))]%string.

(** The [Food] built from the dumped payload, as the document handed to
    the store. *)
Definition food_doc (p : CreateFoodPayload) : document :=
  {[ "name" := VStr (food_name p);
     "calories_per_100g" := VFloat (food_calories_per_100g p);
     "protein_per_100g" := VFloat (food_protein_per_100g p);
     "carbs_per_100g" := VFloat (food_carbs_per_100g p);
     "fat_per_100g" := VFloat (food_fat_per_100g p) ]}%string.

(** [payload.name or "Meal"]: the left operand unless it is falsy, and
    both [None] and the empty string are. *)
Definition name_or_default (n : option string) (d : string) : string :=
  match n with
  | Some s => if decide (s = ""%string) then d else s
  | None => d
  end.

Definition meal_doc (payload : CalculateMealPayload) (totals : Totals) : document :=
  {[ "name" := VStr (name_or_default (payload_name payload) "Meal");
     "items" := VList (map model_dump (items payload));
     "total_calories" := VFloat (calories totals);
     "total_protein" := VFloat (protein totals);
     "total_carbs" := VFloat (carbs totals);
     "total_fat" := VFloat (fat totals) ]}%string.

(** *** Handlers ([main.py], lines 98-147) *)

Section Handlers.

(** Python's builtin [str], applied by the list handlers to whatever
    the store keeps under ["_id"]. *)
Variable py_str : value -> string.

Definition create_food (payload : CreateFoodPayload) : prog string :=
  CreateDocument "food" (food_doc payload) (fun food_id => Ret food_id).

(** The loop [for d in docs: d["_id"] = str(d["_id"]) if "_id" in d else None] *)
Definition stringify_id (d : document) : document :=
  <[ "_id"%string := match d !! "_id"%string with
                     | Some v => VStr (py_str v)
                     | None => VNone
                     end ]> d.

Definition list_foods (query : option string) (limit : Z) : prog (list document) :=
  let filter_dict : document :=
    match query with
    | Some q =>
        if decide (q = ""%string) then ∅
        else {[ "name"%string :=
                  VDict [("$regex", VStr q); ("$options", VStr "i")]%string ]}
    | None => ∅
    end in
  GetDocuments "food" filter_dict limit (fun docs => Ret (map stringify_id docs)).

Definition calculate_meal (payload : CalculateMealPayload) : prog CalculateResponse :=
  match items payload with
  | [] => Raise (HTTPException 400 "No items provided")
  | _ :: _ =>
      let totals := calc_totals (items payload) in
      Ret {| calc_name := payload_name payload; calc_totals_of := totals |}
  end.

Definition save_meal (payload : CalculateMealPayload) : prog SaveResponse :=
  match items payload with
  | [] => Raise (HTTPException 400 "No items provided")
  | _ :: _ =>
      let totals := calc_totals (items payload) in
      CreateDocument "meal" (meal_doc payload totals)
        (fun meal_id => Ret {| save_id := meal_id; save_totals := totals |})
  end.

Definition list_meals (limit : Z) : prog (list document) :=
  GetDocuments "meal" ∅ limit (fun docs => Ret (map stringify_id docs)).

(** *** The endpoints: validation of the body, then the handler *)

Definition post_foods (body : RawFood) : prog string :=
  match validate_food body with
  | Some payload => create_food payload
  | None => Raise RequestValidationError
  end.

Definition post_meals_calculate (body : RawMealPayload) : prog CalculateResponse :=
  match validate_payload body with
  | Some payload => calculate_meal payload
  | None => Raise RequestValidationError
  end.

Definition post_meals_save (body : RawMealPayload) : prog SaveResponse :=
  match validate_payload body with
  | Some payload => save_meal payload
  | None => Raise RequestValidationError
  end.

End Handlers.

(** *** A store to run the handlers on *)

Record Store := {
  counter : N;
  collections : gmap string (list document)
}.

Definition collection_of (st : Store) (c : string) : list document :=
  default [] (collections st !! c).

(** Modelled from the spec: [create_document] of the absent [database]
    module.  "create(collection_name, document) returns a newly assigned
    identifier.  Side effect: one document inserted into the named
    collection." *)
Definition create_document (c : string) (doc : document) (st : Store) : string * Store :=
  let oid := pretty (counter st) in
  (oid,
   {| counter := N.succ (counter st);
      collections :=
        <[ c := collection_of st c ++ [<[ "_id"%string := VObjectId oid ]> doc] ]>
          (collections st) |}).

Fixpoint lower (s : string) : string :=
  match s with
  | EmptyString => EmptyString
  | String a s' =>
      let n := Ascii.N_of_ascii a in
      String (if (65 <=? n)%N && (n <=? 90)%N then Ascii.ascii_of_N (n + 32) else a)
        (lower s')
  end.

Fixpoint contains (s q : string) : bool :=
  String.prefix q s ||
  match s with
  | EmptyString => false
  | String _ s' => contains s' q
  end.

Definition name_matches (filter_dict : document) (d : document) : bool :=
  match filter_dict !! "name"%string with
  | Some (VDict (("$regex"%string, VStr q) :: _)) =>
      match d !! "name"%string with
      | Some (VStr n) => contains (lower n) (lower q)
      | _ => false
      end
  | _ => true
  end.

(** Modelled from the spec: [get_documents] of the absent [database]
    module.  "list(collection_name, name_filter?, limit) returns up to
    limit documents from the named collection, optionally restricted to
    documents whose name field contains name_filter as a
    case-insensitive substring." *)
Definition get_documents (c : string) (filter_dict : document) (limit : Z)
    (st : Store) : list document :=
  take (Z.to_nat limit) (List.filter (name_matches filter_dict) (collection_of st c)).

(** Running a handler: the response or the error, and the store it
    leaves. *)
Fixpoint run {A : Type} (p : prog A) (st : Store) : (http_error + A) * Store :=
  match p with
  | Ret a => (inr a, st)
  | Raise e => (inl e, st)
  | CreateDocument c doc k =>
      let '(oid, st') := create_document c doc st in run (k oid) st'
  | GetDocuments c f l k => run (k (get_documents c f l st)) st
  end.

(** The documents a handler hands to [create_document], with their
    collections, in order of issue. *)
Fixpoint writes {A : Type} (p : prog A) (st : Store) : list (string * document) :=
  match p with
  | CreateDocument c doc k =>
      let '(oid, st') := create_document c doc st in (c, doc) :: writes (k oid) st'
  | GetDocuments c f l k => writes (k (get_documents c f l st)) st
  | _ => []
  end.

(** [model_dump] read back. *)
Definition load_item (v : value) : option CalculateMealItem :=
  match v with
  | VDict [(_, VStr n); (_, VFloat g); (_, VFloat c); (_, VFloat p);
           (_, VFloat b); (_, VFloat f)] =>
      Some {| name := n; grams := g; calories_per_100g := c;
              protein_per_100g := p; carbs_per_100g := b; fat_per_100g := f |}
  | _ => None
  end.

(** The name of a stored Meal in the words of the data model: "name
    (text, defaults to "Meal" if absent)". *)
Definition spec_meal_name (n : option string) : string :=
  match n with
  | Some s => s
  | None => "Meal"
  end.

(** What the list handlers answer for one stored document [d]: the
    answered document [d'] holds a string under ["_id"] when [d] has an
    identifier, [None] otherwise, and the other fields of [d]. *)
Definition id_as_string (py_str : value -> string) (d d' : document) : Prop :=
  (forall v, d !! "_id"%string = Some v -> d' !! "_id"%string = Some (VStr (py_str v)))
  /\ (d !! "_id"%string = None -> d' !! "_id"%string = Some VNone)
  /\ (forall oid, d' !! "_id"%string <> Some (VObjectId oid))
  /\ (forall key : string, key <> "_id"%string -> d' !! key = d !! key).

Definition has_string_id (d : document) : Prop :=
  exists s : string, d !! "_id"%string = Some (VStr s).

(** The causes of a validation error in the words of the error-handling
    section: "negative nutrient value, non-positive grams, empty item
    list". *)
Definition negative (v : option float) : Prop :=
  exists x, v = Some x /\ fltb x zero = true.

Definition non_positive (v : option float) : Prop :=
  exists x, v = Some x /\ fleb x zero = true.

Definition spec_item_fault (r : RawItem) : Prop :=
  non_positive (raw_grams r)
  \/ negative (raw_calories_per_100g r) \/ negative (raw_protein_per_100g r)
  \/ negative (raw_carbs_per_100g r) \/ negative (raw_fat_per_100g r).

Definition spec_validation_fault (body : RawMealPayload) : Prop :=
  raw_items body = Some [] \/
  exists l r, raw_items body = Some l /\ In r l /\ spec_item_fault r.

(** What the models ask of a field. *)
Definition lacks (ok : float -> bool) (v : option float) : Prop :=
  v = None \/ exists x, v = Some x /\ ok x = false.

Definition item_fault (r : RawItem) : Prop :=
  raw_name r = None
  \/ lacks gt0 (raw_grams r)
  \/ lacks ge0 (raw_calories_per_100g r) \/ lacks ge0 (raw_protein_per_100g r)
  \/ lacks ge0 (raw_carbs_per_100g r) \/ lacks ge0 (raw_fat_per_100g r).

Definition food_fault (r : RawFood) : Prop :=
  raw_food_name r = None
  \/ lacks ge0 (raw_food_calories_per_100g r)
  \/ lacks ge0 (raw_food_protein_per_100g r)
  \/ lacks ge0 (raw_food_carbs_per_100g r)
  \/ lacks ge0 (raw_food_fat_per_100g r).

Definition payload_fault (body : RawMealPayload) : Prop :=
  raw_items body = None \/ raw_items body = Some [] \/
  exists l r, raw_items body = Some l /\ In r l /\ item_fault r.

Definition rejected {A : Type} (p : prog A) : Prop := exists e, p = Raise e.

(** A line item that is sound but for its absent name. *)
Definition nameless_rice : RawItem :=
  {| raw_name := None; raw_grams := Some (of_pos 200);
     raw_calories_per_100g := Some (of_pos 130);
     raw_protein_per_100g := Some (ratio 27 10);
     raw_carbs_per_100g := Some (of_pos 28);
     raw_fat_per_100g := Some (ratio 3 10) |}.

Definition no_items : http_error := HTTPException 400 "No items provided".

(** What rounding to a binary format yields under the sign [s]: a zero,
    an infinity or a finite value in range, of that sign. *)
Inductive rounded (prec emax : Z) (s : bool) : spec_float -> Prop :=
| rounded_zero : rounded prec emax s (S754_zero s)
| rounded_infinity : rounded prec emax s (S754_infinity s)
| rounded_finite m e : e <= emax - prec -> rounded prec emax s (S754_finite s m e).

(** *** Line items as the aggregator receives them *)

(** What validation establishes of a line item. *)
Definition valid_item (it : CalculateMealItem) : Prop :=
  gt0 (grams it) = true
  /\ ge0 (calories_per_100g it) = true /\ ge0 (protein_per_100g it) = true
  /\ ge0 (carbs_per_100g it) = true /\ ge0 (fat_per_100g it) = true.

(** Every number of the item is a binary64 value. *)
Definition float64_item (it : CalculateMealItem) : Prop :=
  is_float64 (grams it)
  /\ is_float64 (calories_per_100g it) /\ is_float64 (protein_per_100g it)
  /\ is_float64 (carbs_per_100g it) /\ is_float64 (fat_per_100g it).

(** No number of the item is an infinity or NaN. *)
Definition finite_item (it : CalculateMealItem) : Prop :=
  is_finite (grams it) = true
  /\ is_finite (calories_per_100g it) = true /\ is_finite (protein_per_100g it) = true
  /\ is_finite (carbs_per_100g it) = true /\ is_finite (fat_per_100g it) = true.

(** The total of one nutrient in the words of the specification: "the
    sum of field_per_100g * grams/100 across items", accumulated from
    zero, "rounded to 2 decimals". *)
Definition spec_total (per_100g : CalculateMealItem -> float)
    (its : list CalculateMealItem) : float :=
  round2
    (fold_left fadd
       (map (fun it => fmul (per_100g it) (fdiv (grams it) hundred)) its) zero).

Definition spec_totals (its : list CalculateMealItem) : Totals :=
  {| calories := spec_total calories_per_100g its;
     protein := spec_total protein_per_100g its;
     carbs := spec_total carbs_per_100g its;
     fat := spec_total fat_per_100g its |}.

Definition nonneg_totals (t : Totals) : Prop :=
  ge0 (calories t) = true /\ ge0 (protein t) = true
  /\ ge0 (carbs t) = true /\ ge0 (fat t) = true.

(** A total that is the per-100g value [v] rounded to two decimals:
    equal to it as floats compare, and the same float unless [v] is the
    negative zero, whose sign the accumulation from [0.0] drops. *)
Definition same_rounded (total v : float) : Prop :=
  feqb total (round2 v) = true
  /\ (v <> S754_zero true -> total = round2 v).

(** An unbounded quantity of water. *)
Definition endless_water : CalculateMealItem :=
  {| name := "Water"; grams := S754_infinity false;
     calories_per_100g := zero; protein_per_100g := zero;
     carbs_per_100g := zero; fat_per_100g := zero |}.

Definition item (n : string) (g c : float) : CalculateMealItem :=
  {| name := n; grams := g; calories_per_100g := c;
     protein_per_100g := zero; carbs_per_100g := zero; fat_per_100g := zero |}.

(** Three line items whose calories sum to 11.17 in this order and to
    11.18 in the reverse order. *)
Definition oil : CalculateMealItem := item "Oil" (of_pos 125) (of_pos 5).
Definition jam : CalculateMealItem := item "Jam" (of_pos 30) (ratio 31 4).
Definition nut : CalculateMealItem := item "Nut" (of_pos 10) (of_pos 26).

(** *** Doubling the quantities *)

(** The item with [2.0 * grams] for its quantity. *)
Definition double_grams (it : CalculateMealItem) : CalculateMealItem :=
  {| name := name it; grams := fmul two (grams it);
     calories_per_100g := calories_per_100g it;
     protein_per_100g := protein_per_100g it;
     carbs_per_100g := carbs_per_100g it;
     fat_per_100g := fat_per_100g it |}.

(** [x] with its exponent raised by one: twice [x], and an infinity
    past the largest float. *)
Definition scale2 (x : float) : float :=
  match x with
  | S754_finite s m e =>
      if e + 1 <=? emax - prec then S754_finite s m (e + 1) else S754_infinity s
  | _ => x
  end.

(** A positive normal number whose exponent is at least [k], that is a
    finite float of at least [2 ^ (k + 52)]. *)
Definition normal_from (k : Z) (x : float) : Prop :=
  match x with
  | S754_finite false m e =>
      Zpos (digits2_pos m) = prec /\ k <= e /\ e <= emax - prec
  | _ => False
  end.

Definition zero_or_normal (k : Z) (x : float) : Prop :=
  (exists s, x = S754_zero s) \/ normal_from k x.

(** A line item whose quantity is at least [2 ^ -500] and whose
    nutrient values are zero or at least [2 ^ -500]: no step of the
    aggregation underflows. *)
Definition moderate_item (it : CalculateMealItem) : Prop :=
  normal_from (-552) (grams it)
  /\ zero_or_normal (-552) (calories_per_100g it)
  /\ zero_or_normal (-552) (protein_per_100g it)
  /\ zero_or_normal (-552) (carbs_per_100g it)
  /\ zero_or_normal (-552) (fat_per_100g it).

Definition finite_totals (t : Totals) : Prop :=
  is_finite (calories t) = true /\ is_finite (protein t) = true
  /\ is_finite (carbs t) = true /\ is_finite (fat t) = true.

(** [t'] is twice [t] to within the rounding to two decimals: [t] is
    the float nearest to [n] hundredths, [t'] the float nearest to [n']
    hundredths, and [n'] is [2 * n] give or take one. *)
Definition doubled_within_a_cent (t t' : float) : Prop :=
  exists n n' : Z,
    0 <= n /\ t = of_cents false n /\ t' = of_cents false n'
    /\ Z.abs (n' - 2 * n) <= 1.

Definition doubled_totals_within_a_cent (t t' : Totals) : Prop :=
  doubled_within_a_cent (calories t) (calories t')
  /\ doubled_within_a_cent (protein t) (protein t')
  /\ doubled_within_a_cent (carbs t) (carbs t')
  /\ doubled_within_a_cent (fat t) (fat t').

(** The largest float. *)
Definition max_float : float := S754_finite false 9007199254740991 971.

(** Water by the largest quantity a float holds. *)
Definition sea : CalculateMealItem :=
  {| name := "Sea"; grams := max_float;
     calories_per_100g := zero; protein_per_100g := zero;
     carbs_per_100g := zero; fat_per_100g := zero |}.

(** The float [-1.0]. *)
Definition minus_one : float := S754_finite true 4503599627370496 (-52).

(** A food whose calories are negative. *)
Definition bad_food : RawFood :=
  {| raw_food_name := Some "Bad"%string;
     raw_food_calories_per_100g := Some minus_one;
     raw_food_protein_per_100g := Some zero;
     raw_food_carbs_per_100g := Some zero;
     raw_food_fat_per_100g := Some zero |}.

Definition empty_store : Store := {| counter := 0; collections := ∅ |}.

(** The stores the handlers can leave behind them, starting from the
    empty one: every write goes through [create_document]. *)
Inductive reachable : Store -> Prop :=
| reachable_empty : reachable empty_store
| reachable_create c doc st :
    reachable st -> reachable (snd (create_document c doc st)).

(** Linear arithmetic over the exponent range of binary64. *)
Ltac range :=
  unfold SpecFloat.fexp, SpecFloat.emin, prec, emax in *; lia.

(** ** Requests and the stores they leave *)

(** The body a validated line item comes from. *)
Definition raw_of (it : CalculateMealItem) : RawItem :=
  {| raw_name := Some (name it); raw_grams := Some (grams it);
     raw_calories_per_100g := Some (calories_per_100g it);
     raw_protein_per_100g := Some (protein_per_100g it);
     raw_carbs_per_100g := Some (carbs_per_100g it);
     raw_fat_per_100g := Some (fat_per_100g it) |}.

(** A request to one of the five endpoints that reach the store. *)
Inductive request :=
| PostFoods (body : RawFood)
| GetFoods (query : option string) (limit : Z)
| PostMealsCalculate (body : RawMealPayload)
| PostMealsSave (body : RawMealPayload)
| GetMeals (limit : Z).

(** The store a request leaves. *)
Definition serve (py_str : value -> string) (r : request) (st : Store) : Store :=
  match r with
  | PostFoods body => snd (run (post_foods body) st)
  | GetFoods query limit => snd (run (list_foods py_str query limit) st)
  | PostMealsCalculate body => snd (run (post_meals_calculate body) st)
  | PostMealsSave body => snd (run (post_meals_save body) st)
  | GetMeals limit => snd (run (list_meals py_str limit) st)
  end.

Definition serve_all (py_str : value -> string) (rs : list request) (st : Store) : Store :=
  fold_left (fun st r => serve py_str r st) rs st.

(** A stored meal as [save_meal] writes it: a name that is not empty,
    at least one line item, every item valid, and the totals of those
    very items. *)
Definition stored_meal (d : document) : Prop :=
  exists (n : string) (its : list CalculateMealItem),
    d !! "name"%string = Some (VStr n) /\ n <> ""%string
    /\ d !! "items"%string = Some (VList (map model_dump its))
    /\ its <> [] /\ Forall valid_item its
    /\ d !! "total_calories"%string = Some (VFloat (calories (calc_totals its)))
    /\ d !! "total_protein"%string = Some (VFloat (protein (calc_totals its)))
    /\ d !! "total_carbs"%string = Some (VFloat (carbs (calc_totals its)))
    /\ d !! "total_fat"%string = Some (VFloat (fat (calc_totals its)))
    /\ is_Some (d !! "_id"%string).

(** A stored food as [create_food] writes it: a name and four nutrient
    values that are at least zero. *)
Definition stored_food (d : document) : Prop :=
  exists (n : string) (c p b f : float),
    d !! "name"%string = Some (VStr n)
    /\ d !! "calories_per_100g"%string = Some (VFloat c) /\ ge0 c = true
    /\ d !! "protein_per_100g"%string = Some (VFloat p) /\ ge0 p = true
    /\ d !! "carbs_per_100g"%string = Some (VFloat b) /\ ge0 b = true
    /\ d !! "fat_per_100g"%string = Some (VFloat f) /\ ge0 f = true
    /\ is_Some (d !! "_id"%string).


(** What every store served from the empty one holds. *)
Definition store_holds (st : Store) : Prop :=
  Forall stored_meal (collection_of st "meal")
  /\ Forall stored_food (collection_of st "food")
  /\ forall c : string, c <> "meal"%string -> c <> "food"%string ->
       collection_of st c = [].

(** ** The collection schemas ([schemas.py], lines 15-49)

    The three models of the nutrition collections.  [name] and the
    nutrient fields occur in more than one of them, so every field
    carries the name of its class here. *)

Record Food := {
  Food_name : string;
  Food_calories_per_100g : float;
  Food_protein_per_100g : float;
  Food_carbs_per_100g : float;
  Food_fat_per_100g : float
}.

Record MealItem := {
  MealItem_food_id : option string;
  MealItem_name : option string;
  MealItem_quantity_g : float;
  MealItem_calories_per_100g : option float;
  MealItem_protein_per_100g : option float;
  MealItem_carbs_per_100g : option float;
  MealItem_fat_per_100g : option float
}.

Record Meal := {
  Meal_name : string;
  Meal_items : list MealItem;
  Meal_total_calories : float;
  Meal_total_protein : float;
  Meal_total_carbs : float;
  Meal_total_fat : float
}.

(** [d.get(k)] on the key-value pairs of a dict, whose keys are
    distinct. *)
Fixpoint dict_get (k : string) (kv : list (string * value)) : option value :=
  match kv with
  | [] => None
  | (k', v) :: kv' => if decide (k = k') then Some v else dict_get k kv'
  end.

Section Schemas.

(** The float a string is read as, where the model reads one for a
    float field. *)
Variable float_of_str : string -> option float.

Definition as_str (v : value) : option string :=
  match v with
  | VStr s => Some s
  | _ => None
  end.

Definition as_float (v : value) : option float :=
  match v with
  | VFloat x => Some x
  | VStr s => float_of_str s
  | _ => None
  end.

Definition unconstrained {A : Type} (x : A) : bool := true.

(** A field declared with [Field(...)]: it has to be there, of the
    field's type and within the constraint. *)
Definition required {A : Type} (conv : value -> option A) (ok : A -> bool)
    (v : option value) : option A :=
  w ← v; x ← conv w; if ok x then Some x else None.

(** A field declared [Optional] with [Field(None)]: absent or [None] it
    is [None], and anything else is held to the type and the
    constraint. *)
Definition optional {A : Type} (conv : value -> option A) (ok : A -> bool)
    (v : option value) : option (option A) :=
  match v with
  | None | Some VNone => Some None
  | Some w => x ← conv w; if ok x then Some (Some x) else None
  end.

(** [Food] built from the keyword arguments [kw]: the model or a
    validation error.  Keys that name no field are ignored. *)
Definition Food_validate (kw : document) : option Food :=
  n ← required as_str unconstrained (kw !! "name"%string);
  c ← required as_float ge0 (kw !! "calories_per_100g"%string);
  p ← required as_float ge0 (kw !! "protein_per_100g"%string);
  b ← required as_float ge0 (kw !! "carbs_per_100g"%string);
  f ← required as_float ge0 (kw !! "fat_per_100g"%string);
  Some {| Food_name := n; Food_calories_per_100g := c;
          Food_protein_per_100g := p; Food_carbs_per_100g := b;
          Food_fat_per_100g := f |}.

(** A [MealItem] from a dict, as the elements of [Meal.items] are
    read. *)
Definition MealItem_validate (v : value) : option MealItem :=
  match v with
  | VDict kv =>
      i ← optional as_str unconstrained (dict_get "food_id" kv);
      n ← optional as_str unconstrained (dict_get "name" kv);
      q ← required as_float gt0 (dict_get "quantity_g" kv);
      c ← optional as_float ge0 (dict_get "calories_per_100g" kv);
      p ← optional as_float ge0 (dict_get "protein_per_100g" kv);
      b ← optional as_float ge0 (dict_get "carbs_per_100g" kv);
      f ← optional as_float ge0 (dict_get "fat_per_100g" kv);
      Some {| MealItem_food_id := i; MealItem_name := n;
              MealItem_quantity_g := q;
              MealItem_calories_per_100g := c;
              MealItem_protein_per_100g := p;
              MealItem_carbs_per_100g := b;
              MealItem_fat_per_100g := f |}
  | _ => None
  end.

(** [Meal] built from the keyword arguments [kw]. *)
Definition Meal_validate (kw : document) : option Meal :=
  n ← required as_str unconstrained (kw !! "name"%string);
  its ← match kw !! "items"%string with
        | Some (VList l) => mapM MealItem_validate l
        | _ => None
        end;
  c ← required as_float ge0 (kw !! "total_calories"%string);
  p ← required as_float ge0 (kw !! "total_protein"%string);
  b ← required as_float ge0 (kw !! "total_carbs"%string);
  f ← required as_float ge0 (kw !! "total_fat"%string);
  Some {| Meal_name := n; Meal_items := its;
          Meal_total_calories := c; Meal_total_protein := p;
          Meal_total_carbs := b; Meal_total_fat := f |}.

End Schemas.

(** The [Food] a validated payload is. *)
Definition Food_of (p : CreateFoodPayload) : Food :=
  {| Food_name := food_name p;
     Food_calories_per_100g := food_calories_per_100g p;
     Food_protein_per_100g := food_protein_per_100g p;
     Food_carbs_per_100g := food_carbs_per_100g p;
     Food_fat_per_100g := food_fat_per_100g p |}.

(** The document [d] holds the values of [food] under the fields'
    names. *)
Definition food_in (food : Food) (d : document) : Prop :=
  d !! "name"%string = Some (VStr (Food_name food))
  /\ d !! "calories_per_100g"%string = Some (VFloat (Food_calories_per_100g food))
  /\ d !! "protein_per_100g"%string = Some (VFloat (Food_protein_per_100g food))
  /\ d !! "carbs_per_100g"%string = Some (VFloat (Food_carbs_per_100g food))
  /\ d !! "fat_per_100g"%string = Some (VFloat (Food_fat_per_100g food)).

(** ** The connection report ([test_database], lines 24-57) *)

(** What reading an attribute of an object comes to. *)
Inductive attribute :=
| NoAttribute
| Attribute (v : value)
| AttributeRaises (e : string).

(** The database handle as far as [test_database] uses it: its [name]
    attribute, and [list_collection_names()], which raises or returns
    the names.  An exception is the text [str(e)] gives for it. *)
Record Database := {
  db_name : attribute;
  list_collection_names : string + list string
}.

Record TestResponse := {
  resp_backend : string;
  resp_database : string;
  resp_database_url : value;
  resp_database_name : value;
  resp_connection_status : string;
  resp_collections : list string
}.

Definition set_database (s : string) (r : TestResponse) : TestResponse :=
  {| resp_backend := resp_backend r; resp_database := s;
     resp_database_url := resp_database_url r;
     resp_database_name := resp_database_name r;
     resp_connection_status := resp_connection_status r;
     resp_collections := resp_collections r |}.

Definition set_database_url (v : value) (r : TestResponse) : TestResponse :=
  {| resp_backend := resp_backend r; resp_database := resp_database r;
     resp_database_url := v;
     resp_database_name := resp_database_name r;
     resp_connection_status := resp_connection_status r;
     resp_collections := resp_collections r |}.

Definition set_database_name (v : value) (r : TestResponse) : TestResponse :=
  {| resp_backend := resp_backend r; resp_database := resp_database r;
     resp_database_url := resp_database_url r;
     resp_database_name := v;
     resp_connection_status := resp_connection_status r;
     resp_collections := resp_collections r |}.

Definition set_connection_status (s : string) (r : TestResponse) : TestResponse :=
  {| resp_backend := resp_backend r; resp_database := resp_database r;
     resp_database_url := resp_database_url r;
     resp_database_name := resp_database_name r;
     resp_connection_status := s;
     resp_collections := resp_collections r |}.

Definition set_collections (l : list string) (r : TestResponse) : TestResponse :=
  {| resp_backend := resp_backend r; resp_database := resp_database r;
     resp_database_url := resp_database_url r;
     resp_database_name := resp_database_name r;
     resp_connection_status := resp_connection_status r;
     resp_collections := l |}.

(** The response as it is first built (lines 26-33). *)
Definition initial_response : TestResponse :=
  {| resp_backend := "✅ Running";
     resp_database := "❌ Not Available";
     resp_database_url := VNone;
     resp_database_name := VNone;
     resp_connection_status := "Not Connected";
     resp_collections := [] |}.

(** *** Slicing a text

    A [string] holds the UTF-8 encoding of a Python [str], whose
    elements are characters: a character is a byte that is not a
    continuation byte (a byte from 128 to 191), followed by the
    continuation bytes that belong to it. *)

Definition is_continuation (a : Ascii.ascii) : bool :=
  let n := Ascii.N_of_ascii a in (128 <=? n)%N && (n <? 192)%N.

(** [len(s)] *)
Fixpoint characters (s : string) : nat :=
  match s with
  | EmptyString => O
  | String a s' =>
      if is_continuation a then characters s' else S (characters s')
  end.

(** [s[:n]]: the first [n] characters of [s], all of [s] when it has
    no more. *)
Fixpoint take_chars (n : nat) (s : string) : string :=
  match s with
  | EmptyString => EmptyString
  | String a s' =>
      if is_continuation a then String a (take_chars n s')
      else match n with
           | O => EmptyString
           | S n' => String a (take_chars n' s')
           end
  end.

(** [str(e)[:50]]: the first fifty characters of the message. *)
Definition first_50 (e : string) : string := take_chars 50 e.

(** The inner [try] (lines 42-47). *)
Definition probe_collections (d : Database) (r : TestResponse) : TestResponse :=
  match list_collection_names d with
  | inr collections =>
      set_database "✅ Connected & Working" (set_collections (take 10 collections) r)
  | inl e =>
      set_database ("⚠️  Connected but Error: " +:+ first_50 e) r
  end.

(** The outer [try] (lines 35-51).  [hasattr] is false on an object
    without the attribute; where reading the attribute raises anything
    else, the exception leaves the block, after the two assignments
    before it. *)
Definition probe (db : option Database) (r : TestResponse) : TestResponse :=
  match db with
  | Some d =>
      let r := set_database "✅ Available" r in
      let r := set_database_url (VStr "✅ Configured") r in
      match db_name d with
      | AttributeRaises e => set_database ("❌ Error: " +:+ first_50 e) r
      | a =>
          let r := set_database_name
                     (match a with
                      | Attribute v => v
                      | _ => VStr "✅ Connected"
                      end) r in
          let r := set_connection_status "Connected" r in
          probe_collections d r
      end
  | None => set_database "⚠️  Available but not initialized" r
  end.

(** A value of [os.getenv] that is truthy: a string that is not
    empty. *)
Definition truthy (v : option string) : bool :=
  match v with
  | Some s => if decide (s = ""%string) then false else true
  | None => false
  end.

Definition set_or_not (v : option string) : value :=
  VStr (if truthy v then "✅ Set" else "❌ Not Set").

Definition test_database (db : option Database) (getenv : string -> option string)
    : TestResponse :=
  let r := probe db initial_response in
  let r := set_database_url (set_or_not (getenv "DATABASE_URL"%string)) r in
  let r := set_database_name (set_or_not (getenv "DATABASE_NAME"%string)) r in
  r.

(** The four texts the [database] field of a response can hold. *)
Inductive database_report : string -> Prop :=
| report_working : database_report "✅ Connected & Working"
| report_listing_failed e :
    database_report ("⚠️  Connected but Error: " +:+ first_50 e)
| report_failed e : database_report ("❌ Error: " +:+ first_50 e)
| report_no_handle : database_report "⚠️  Available but not initialized".

(** ** Items that add nothing, and totals that stay finite *)

(** What the aggregator's running sum of a nutrient can be while the
    items are valid: zero, a positive number, the positive infinity or
    NaN, and never the negative zero. *)
Definition running_sum (x : float) : Prop :=
  x = zero \/ (exists m e, x = S754_finite false m e)
  \/ x = S754_infinity false \/ x = S754_nan.

(** A quarter of a litre of water. *)
Definition water : CalculateMealItem :=
  {| name := "Water"; grams := of_pos 250;
     calories_per_100g := zero; protein_per_100g := zero;
     carbs_per_100g := zero; fat_per_100g := zero |}.

(** [x] is a finite number of magnitude below [2 ^ k]. *)
Definition below (k : Z) (x : float) : Prop :=
  match x with
  | S754_zero _ => True
  | S754_finite _ m e => Zpos (digits2_pos m) + e <= k
  | _ => False
  end.

(** Every number of the item is below [2 ^ k]. *)
Definition item_below (k : Z) (it : CalculateMealItem) : Prop :=
  below k (grams it)
  /\ below k (calories_per_100g it) /\ below k (protein_per_100g it)
  /\ below k (carbs_per_100g it) /\ below k (fat_per_100g it).

(** [x] is a whole number of hundredths, as the float nearest to it,
    and not negative. *)
Definition whole_cents (x : float) : Prop :=
  exists n : Z, 0 <= n /\ x = of_cents false n.

Definition whole_cents_totals (t : Totals) : Prop :=
  whole_cents (calories t) /\ whole_cents (protein t)
  /\ whole_cents (carbs t) /\ whole_cents (fat t).

(** ** What a listing makes of the documents of the store *)

(** The documents [res] that a list handler returns for the documents
    [docs] of the store, document by document: the identifier of a
    document that has one as a string, [None] for a document that has
    none, never the store's native identifier, and the other fields as
    they are. *)
Definition listed_as (py_str : value -> string) (docs res : list document) : Prop :=
  Forall2 (id_as_string py_str) docs res
  /\ Forall2 (fun d d' => is_Some (d !! "_id"%string) <-> has_string_id d') docs res
  /\ Forall (fun d' => has_string_id d' \/ d' !! "_id"%string = Some VNone) res
  /\ (Forall (fun d => is_Some (d !! "_id"%string)) docs -> Forall has_string_id res).

(** ** A gateway that may fail *)

(** How a request ends as far as the handler goes: it returns, it
    raises, or a call of the gateway fails and the failure leaves the
    handler as it came. *)
Inductive outcome (A : Type) :=
| Answered (a : A)
| Raised (e : http_error)
| StoreError (e : string).

Arguments Answered {A} a.
Arguments Raised {A} e.
Arguments StoreError {A} e.

(** Modelled from the spec: the two operations of the absent
    [database] module as calls that may fail.  "Fails (propagated, not
    recovered) if the underlying store is unreachable or rejects the
    write"; "a failed store call surfaces immediately as an error to
    the caller".  A failure is the text of its error. *)
Record Gateway := {
  gw_create : string -> document -> Store -> string + string * Store;
  gw_get : string -> document -> Z -> Store -> string + list document
}.

(** Running a handler on a gateway.  No handler catches anything, so
    the first failure of the gateway ends the request; the store is
    then as the calls before it left it. *)
Fixpoint run_on (gw : Gateway) {A : Type} (p : prog A) (st : Store)
    : outcome A * Store :=
  match p with
  | Ret a => (Answered a, st)
  | Raise e => (Raised e, st)
  | CreateDocument c doc k =>
      match gw_create gw c doc st with
      | inr (oid, st') => run_on gw (k oid) st'
      | inl e => (StoreError e, st)
      end
  | GetDocuments c f l k =>
      match gw_get gw c f l st with
      | inr docs => run_on gw (k docs) st
      | inl e => (StoreError e, st)
      end
  end.

(** The gateway that never fails. *)
Definition working_gateway : Gateway :=
  {| gw_create c doc st := inr (create_document c doc st);
     gw_get c f l st := inr (get_documents c f l st) |}.

Definition outcome_of {A : Type} (r : http_error + A) : outcome A :=
  match r with
  | inl e => Raised e
  | inr a => Answered a
  end.

(** * Properties *)

(** ** Rounding to a binary format *)

Section BinaryRound.

Variables prec emax : Z.

Lemma digits2_pos_log2 (p : positive) :
  Zpos (digits2_pos p) = Z.log2 (Zpos p) + 1.
Proof.
  induction p as [p IH|p IH|]; cbn [digits2_pos]; [| |reflexivity].
  - rewrite Pos2Z.inj_succ, IH, Pos2Z.inj_xI.
    rewrite Z.log2_succ_double by lia. lia.
  - rewrite Pos2Z.inj_succ, IH, Pos2Z.inj_xO.
    rewrite Z.log2_double by lia. lia.
Qed.

Lemma Zdigits2_log2 (m : Z) : 0 < m -> Zdigits2 m = Z.log2 m + 1.
Proof. destruct m; try lia. intros _. apply digits2_pos_log2. Qed.

Lemma Zdigits2_nonneg (m : Z) : 0 <= Zdigits2 m.
Proof. destruct m; cbn; lia. Qed.

Lemma Zdigits2_bounds (m : Z) :
  0 < m -> 2 ^ (Zdigits2 m - 1) <= m < 2 ^ Zdigits2 m.
Proof.
  intros Hm. rewrite Zdigits2_log2 by assumption.
  replace (Z.log2 m + 1 - 1) with (Z.log2 m) by lia.
  replace (Z.log2 m + 1) with (Z.succ (Z.log2 m)) by lia.
  apply Z.log2_spec, Hm.
Qed.

Lemma Zdigits2_le (m k : Z) : 0 <= m -> 0 <= k -> m < 2 ^ k -> Zdigits2 m <= k.
Proof.
  intros Hm Hk Hlt. destruct (Z.eq_dec m 0) as [->|Hne]; [cbn; lia|].
  pose proof (Zdigits2_bounds m ltac:(lia)) as [Hlo _].
  destruct (Z_lt_le_dec k (Zdigits2 m)) as [Hgt|]; [|lia].
  exfalso. assert (2 ^ k <= 2 ^ (Zdigits2 m - 1)) by (apply Z.pow_le_mono_r; lia).
  lia.
Qed.

Lemma Zdigits2_ge (m k : Z) : 0 < m -> 2 ^ (k - 1) <= m -> k <= Zdigits2 m.
Proof.
  intros Hm Hle. pose proof (Zdigits2_bounds m Hm) as [_ Hhi].
  destruct (Z_lt_le_dec (Zdigits2 m) k) as [Hlt|]; [|lia].
  exfalso. assert (2 ^ Zdigits2 m <= 2 ^ (k - 1)).
  { apply Z.pow_le_mono_r; lia. }
  lia.
Qed.

Lemma Zdigits2_mono (m m' : Z) : 0 <= m <= m' -> Zdigits2 m <= Zdigits2 m'.
Proof.
  intros [H0 Hle]. destruct (Z.eq_dec m 0) as [->|Hne].
  - apply Zdigits2_nonneg.
  - rewrite !Zdigits2_log2 by lia. pose proof (Z.log2_le_mono m m' Hle). lia.
Qed.

(** *** Shifting right *)

Lemma iter_pos_nat {A : Type} (f : A -> A) (p : positive) (x : A) :
  SpecFloat.iter_pos f p x = Nat.iter (Pos.to_nat p) f x.
Proof.
  revert x. induction p as [p IH|p IH|]; intros x; cbn [SpecFloat.iter_pos].
  - rewrite !IH, Pos2Nat.inj_xI.
    replace (S (2 * Pos.to_nat p))%nat with (Pos.to_nat p + (Pos.to_nat p + 1))%nat by lia.
    rewrite !Nat.iter_add. reflexivity.
  - rewrite !IH, Pos2Nat.inj_xO.
    replace (2 * Pos.to_nat p)%nat with (Pos.to_nat p + Pos.to_nat p)%nat by lia.
    rewrite Nat.iter_add. reflexivity.
  - reflexivity.
Qed.

Lemma shr_1_m (mrs : shr_record) :
  0 <= shr_m mrs -> shr_m (shr_1 mrs) = shr_m mrs / 2.
Proof.
  destruct mrs as [m r s]; cbn [shr_m]. intros Hm.
  destruct m as [|[p|p|]|]; try lia; cbn [shr_1 shr_m].
  - reflexivity.
  - apply Z.div_unique with 1; lia.
  - apply Z.div_unique with 0; lia.
  - reflexivity.
Qed.

Lemma shr_iter_m (n : nat) (mrs : shr_record) :
  0 <= shr_m mrs ->
  shr_m (Nat.iter n shr_1 mrs) = shr_m mrs / 2 ^ Z.of_nat n.
Proof.
  intros Hm. induction n as [|n IH].
  - cbn. rewrite Z.div_1_r. reflexivity.
  - rewrite Nat.iter_succ, shr_1_m.
    + rewrite IH, Z.div_div by lia.
      rewrite Nat2Z.inj_succ, Z.pow_succ_r by lia.
      f_equal. lia.
    + rewrite IH. apply Z.div_pos; lia.
Qed.

(** The mantissa [shr] leaves, and the exponent. *)
Lemma shr_m_e (mrs : shr_record) (e n : Z) :
  0 <= shr_m mrs ->
  shr_m (fst (shr mrs e n)) = shr_m mrs / 2 ^ Z.max n 0
  /\ snd (shr mrs e n) = e + Z.max n 0.
Proof.
  intros Hm. destruct n as [|p|p]; cbn [shr fst snd].
  - cbn. rewrite Z.div_1_r. lia.
  - rewrite iter_pos_nat, shr_iter_m, positive_nat_Z by assumption.
    rewrite Z.max_l by lia. split; reflexivity.
  - cbn. rewrite Z.div_1_r. lia.
Qed.

Lemma shr_record_of_loc_m (m : Z) (l : location) :
  shr_m (shr_record_of_loc m l) = m.
Proof. destruct l as [|[]]; reflexivity. Qed.

Lemma round_nearest_even_bounds (m : Z) (l : location) :
  m <= round_nearest_even m l <= m + 1.
Proof. destruct l as [|[]]; cbn; try lia. destruct (Z.even m); lia. Qed.

Lemma Zdigits2_div_pow2 (m n : Z) :
  0 < m -> 0 <= n -> n < Zdigits2 m -> Zdigits2 (m / 2 ^ n) = Zdigits2 m - n.
Proof.
  intros Hm Hn Hlt.
  pose proof (Zdigits2_bounds m Hm) as [Hlo Hhi].
  assert (Hpow : 0 < 2 ^ n) by (apply Z.pow_pos_nonneg; lia).
  assert (Hq : 2 ^ (Zdigits2 m - n - 1) <= m / 2 ^ n < 2 ^ (Zdigits2 m - n)).
  { split.
    - apply Z.div_le_lower_bound; [lia|].
      rewrite <- Z.pow_add_r by lia.
      replace (n + (Zdigits2 m - n - 1)) with (Zdigits2 m - 1) by lia. lia.
    - apply Z.div_lt_upper_bound; [lia|].
      rewrite <- Z.pow_add_r by lia.
      replace (n + (Zdigits2 m - n)) with (Zdigits2 m) by lia. lia. }
  assert (0 < m / 2 ^ n).
  { assert (0 < 2 ^ (Zdigits2 m - n - 1)) by (apply Z.pow_pos_nonneg; lia). lia. }
  apply Z.le_antisymm.
  - apply Zdigits2_le; lia.
  - apply Zdigits2_ge; [lia|]. lia.
Qed.


Lemma Zdigits2_succ (m : Z) : 0 <= m -> Zdigits2 (m + 1) <= Zdigits2 m + 1.
Proof.
  intros Hm. destruct (Z.eq_dec m 0) as [->|Hne]; [vm_compute; discriminate|].
  pose proof (Zdigits2_bounds m ltac:(lia)) as [_ Hhi].
  pose proof (Zdigits2_nonneg m).
  apply Zdigits2_le; [lia|lia|].
  rewrite Z.pow_add_r by lia. lia.
Qed.

Lemma Zdigits2_mul_pow2 (m j : Z) :
  0 < m -> 0 <= j -> Zdigits2 (m * 2 ^ j) = Zdigits2 m + j.
Proof.
  intros Hm Hj.
  assert (0 < 2 ^ j) by (apply Z.pow_pos_nonneg; lia).
  assert (0 < m * 2 ^ j) by (apply Z.mul_pos_pos; lia).
  rewrite !Zdigits2_log2 by lia.
  rewrite Z.log2_mul_pow2 by lia. lia.
Qed.

(** *** The two shifts of [binary_round_aux] *)

Abbreviation fexp := (SpecFloat.fexp prec emax).
Abbreviation emin := (SpecFloat.emin prec emax).

Lemma fexp_normal (k : Z) : emin <= k - prec -> fexp k = k - prec.
Proof. unfold SpecFloat.fexp. lia. Qed.

Lemma shr_fexp_m_e (m e : Z) (l : location) :
  0 <= m ->
  let n := Z.max (fexp (Zdigits2 m + e) - e) 0 in
  shr_m (fst (shr_fexp prec emax m e l)) = m / 2 ^ n
  /\ snd (shr_fexp prec emax m e l) = e + n.
Proof.
  intros Hm n. unfold shr_fexp.
  pose proof (shr_m_e (shr_record_of_loc m l) e (fexp (Zdigits2 m + e) - e)) as H.
  rewrite shr_record_of_loc_m in H. apply H, Hm.
Qed.

(** [binary_round_aux] with its two shifts named. *)
Lemma binary_round_aux_eq (s : bool) (m e : Z) (l : location) :
  let r1 := shr_fexp prec emax m e l in
  let m1 := round_nearest_even (shr_m (fst r1)) (loc_of_shr_record (fst r1)) in
  let r2 := shr_fexp prec emax m1 (snd r1) loc_Exact in
  binary_round_aux prec emax s m e l
  = match shr_m (fst r2) with
    | Z0 => S754_zero s
    | Zpos m' =>
        if snd r2 <=? emax - prec then S754_finite s m' (snd r2)
        else S754_infinity s
    | Zneg _ => S754_nan
    end.
Proof.
  cbv zeta. unfold binary_round_aux.
  destruct (shr_fexp prec emax m e l) as [mrs1 e1]. cbn [fst snd].
  destruct (shr_fexp prec emax _ e1 loc_Exact) as [mrs2 e2]. reflexivity.
Qed.

(** The sign is the one asked for, and no NaN comes out. *)

Lemma binary_round_aux_rounded (s : bool) (m e : Z) (l : location) :
  0 <= m -> rounded prec emax s (binary_round_aux prec emax s m e l).
Proof.
  intros Hm. rewrite binary_round_aux_eq. cbv zeta.
  set (r1 := shr_fexp prec emax m e l).
  set (m1 := round_nearest_even _ _).
  assert (H1 : 0 <= shr_m (fst r1)).
  { unfold r1. destruct (shr_fexp_m_e m e l Hm) as [-> _].
    apply Z.div_pos; [lia|]. apply Z.pow_pos_nonneg; lia. }
  assert (Hm1 : 0 <= m1).
  { pose proof (round_nearest_even_bounds (shr_m (fst r1)) (loc_of_shr_record (fst r1))).
    unfold m1. lia. }
  destruct (shr_fexp_m_e m1 (snd r1) loc_Exact Hm1) as [Hm2 _].
  assert (H2 : 0 <= shr_m (fst (shr_fexp prec emax m1 (snd r1) loc_Exact))).
  { rewrite Hm2. apply Z.div_pos; [lia|]. apply Z.pow_pos_nonneg; lia. }
  destruct (shr_m (fst (shr_fexp prec emax m1 (snd r1) loc_Exact))) as [|m'|m'].
  - constructor.
  - destruct (Z.leb_spec (snd (shr_fexp prec emax m1 (snd r1) loc_Exact)) (emax - prec)).
    + constructor. assumption.
    + constructor.
  - lia.
Qed.

(** No overflow below [2 ^ (emax - 1)]. *)
Lemma binary_round_aux_finite (s : bool) (m e : Z) (l : location) :
  0 < prec -> prec < emax ->
  0 <= m -> e <= emax - prec -> Zdigits2 m + e < emax ->
  binary_round_aux prec emax s m e l <> S754_infinity s.
Proof.
  intros prec_pos prec_lt_emax Hm He Hk. rewrite binary_round_aux_eq. cbv zeta.
  set (r1 := shr_fexp prec emax m e l).
  set (m1 := round_nearest_even _ _).
  destruct (shr_fexp_m_e m e l Hm) as [Hr1m Hr1e]. fold r1 in Hr1m, Hr1e.
  set (n := Z.max (fexp (Zdigits2 m + e) - e) 0) in *.
  assert (Hpow : 0 < 2 ^ n) by (apply Z.pow_pos_nonneg; lia).
  assert (H1 : 0 <= shr_m (fst r1)) by (rewrite Hr1m; apply Z.div_pos; lia).
  assert (He1 : snd r1 <= emax - prec).
  { rewrite Hr1e. unfold n, SpecFloat.fexp, SpecFloat.emin. lia. }
  assert (Hd1 : Zdigits2 (shr_m (fst r1)) + snd r1 <= Z.max (Zdigits2 m + e) (snd r1)).
  { rewrite Hr1m, Hr1e.
    destruct (Z.eq_dec m 0) as [->|Hm0].
    { rewrite Z.div_0_l by lia. cbn. lia. }
    destruct (Z_lt_le_dec n (Zdigits2 m)) as [Hlt|Hge].
    - rewrite Zdigits2_div_pow2 by lia. lia.
    - rewrite Z.div_small; [cbn; lia|].
      pose proof (Zdigits2_bounds m ltac:(lia)) as [_ Hhi].
      assert (2 ^ Zdigits2 m <= 2 ^ n).
      { apply Z.pow_le_mono_r; [lia|]. lia. }
      lia. }
  assert (Hm1 : 0 <= m1 /\ Zdigits2 m1 <= Zdigits2 (shr_m (fst r1)) + 1).
  { pose proof (round_nearest_even_bounds (shr_m (fst r1)) (loc_of_shr_record (fst r1))) as Hb.
    fold m1 in Hb. split; [lia|].
    etransitivity; [|apply Zdigits2_succ, H1].
    apply Zdigits2_mono. lia. }
  destruct Hm1 as [Hm1 Hdm1].
  destruct (shr_fexp_m_e m1 (snd r1) loc_Exact Hm1) as [_ Hr2e].
  destruct (shr_m (fst (shr_fexp prec emax m1 (snd r1) loc_Exact))); try discriminate.
  destruct (Z.leb_spec (snd (shr_fexp prec emax m1 (snd r1) loc_Exact)) (emax - prec)) as [|Hgt];
    [discriminate|].
  exfalso. rewrite Hr2e in Hgt.
  assert (fexp (Zdigits2 m1 + snd r1) <= emax - prec); [|lia].
  unfold SpecFloat.fexp, SpecFloat.emin. lia.
Qed.

(** *** Exact results *)

Lemma shr_1_exact (m : Z) :
  0 <= m ->
  shr_1 {| shr_m := 2 * m; shr_r := false; shr_s := false |}
  = {| shr_m := m; shr_r := false; shr_s := false |}.
Proof. destruct m; try lia; reflexivity. Qed.

Lemma shr_iter_exact (n : nat) (m : Z) :
  0 <= m ->
  Nat.iter n shr_1 {| shr_m := m * 2 ^ Z.of_nat n; shr_r := false; shr_s := false |}
  = {| shr_m := m; shr_r := false; shr_s := false |}.
Proof.
  revert m. induction n as [|n IH]; intros m Hm.
  - cbn. rewrite Z.mul_1_r. reflexivity.
  - rewrite Nat.iter_succ_r.
    rewrite Nat2Z.inj_succ, Z.pow_succ_r by lia.
    replace (m * (2 * 2 ^ Z.of_nat n)) with (2 * (m * 2 ^ Z.of_nat n)) by lia.
    rewrite shr_1_exact; [apply IH, Hm|].
    apply Z.mul_nonneg_nonneg; [lia|]. apply Z.pow_nonneg; lia.
Qed.

Lemma shr_exact (m e j : Z) :
  0 <= m -> 0 <= j ->
  shr {| shr_m := m * 2 ^ j; shr_r := false; shr_s := false |} e j
  = ({| shr_m := m; shr_r := false; shr_s := false |}, e + j).
Proof.
  intros Hm Hj. destruct j as [|p|p]; try lia; cbn [shr].
  - rewrite Z.mul_1_r, Z.add_0_r. reflexivity.
  - rewrite iter_pos_nat. rewrite <- (positive_nat_Z p) at 1.
    rewrite shr_iter_exact by assumption. reflexivity.
Qed.

(** A canonical mantissa and exponent scaled up by a power of two
    round to themselves. *)
Lemma binary_round_aux_pow2 (s : bool) (m : positive) (e j : Z) :
  0 <= j -> fexp (Zpos (digits2_pos m) + e) = e ->
  binary_round_aux prec emax s (Zpos m * 2 ^ j) (e - j) loc_Exact
  = if e <=? emax - prec then S754_finite s m e else S754_infinity s.
Proof.
  intros Hj Hcan. unfold binary_round_aux, shr_fexp.
  rewrite Zdigits2_mul_pow2 by lia. cbn [Zdigits2].
  replace (Zpos (digits2_pos m) + j + (e - j)) with (Zpos (digits2_pos m) + e) by lia.
  rewrite Hcan. replace (e - (e - j)) with j by lia.
  cbn [shr_record_of_loc]. rewrite shr_exact by lia.
  cbn [shr_m loc_of_shr_record round_nearest_even Zdigits2].
  replace (e - j + j) with e by lia.
  rewrite Hcan, Z.sub_diag. reflexivity.
Qed.


(** *** The normal range

    A mantissa of at least [prec] digits whose value lies in the
    normal range rounds to a mantissa of [prec] digits, the same at
    every exponent, and the exponent moves by the same amount. *)

Lemma shr_fexp_normal (m e : Z) (l : location) :
  0 < m -> prec <= Zdigits2 m -> emin <= Zdigits2 m + e - prec ->
  shr_fexp prec emax m e l
  = (fst (shr (shr_record_of_loc m l) 0 (Zdigits2 m - prec)),
     e + (Zdigits2 m - prec)).
Proof.
  intros Hm Hd He. unfold shr_fexp. rewrite fexp_normal by assumption.
  replace (Zdigits2 m + e - prec - e) with (Zdigits2 m - prec) by lia.
  destruct (Zdigits2 m - prec) as [|p|p] eqn:E; try lia; cbn [shr fst].
  - rewrite Z.add_0_r. reflexivity.
  - reflexivity.
Qed.

Lemma binary_round_aux_normal (s : bool) (m : Z) (l : location) :
  0 < prec ->
  0 < m -> prec <= Zdigits2 m ->
  exists (m' : positive) (d : Z),
    Zpos (digits2_pos m') = prec
    /\ Zdigits2 m - prec <= d <= Zdigits2 m - prec + 1
    /\ forall e, emin <= Zdigits2 m + e - prec ->
         binary_round_aux prec emax s m e l
         = if e + d <=? emax - prec then S754_finite s m' (e + d)
           else S754_infinity s.
Proof.
  intros prec_pos Hm Hd.
  set (n := Zdigits2 m - prec).
  set (X := fst (shr (shr_record_of_loc m l) 0 n)).
  set (m1 := round_nearest_even (shr_m X) (loc_of_shr_record X)).
  assert (HX : shr_m X = m / 2 ^ n).
  { unfold X. destruct (shr_m_e (shr_record_of_loc m l) 0 n) as [-> _].
    - rewrite shr_record_of_loc_m. lia.
    - rewrite shr_record_of_loc_m, Z.max_l by lia. reflexivity. }
  assert (HdX : Zdigits2 (shr_m X) = prec).
  { rewrite HX, Zdigits2_div_pow2 by lia. lia. }
  assert (HXpos : 0 < shr_m X).
  { assert (0 <= shr_m X).
    { rewrite HX. apply Z.div_pos; [lia|]. apply Z.pow_pos_nonneg; lia. }
    revert HdX. destruct (shr_m X); cbn; lia. }
  pose proof (round_nearest_even_bounds (shr_m X) (loc_of_shr_record X)) as Hb.
  fold m1 in Hb.
  assert (Hd1 : prec <= Zdigits2 m1 <= prec + 1).
  { split.
    - rewrite <- HdX. apply Zdigits2_mono. lia.
    - rewrite <- HdX. etransitivity; [|apply Zdigits2_succ; lia].
      apply Zdigits2_mono. lia. }
  set (n1 := Zdigits2 m1 - prec).
  set (m2 := m1 / 2 ^ n1).
  assert (Hd2 : Zdigits2 m2 = prec).
  { unfold m2. rewrite Zdigits2_div_pow2 by lia. lia. }
  assert (Hm2 : 0 < m2).
  { assert (0 <= m2).
    { unfold m2. apply Z.div_pos; [lia|]. apply Z.pow_pos_nonneg; lia. }
    revert Hd2. destruct m2; cbn; lia. }
  exists (Z.to_pos m2), (n + n1). split; [|split].
  - destruct m2; try lia. exact Hd2.
  - lia.
  - intros e He. rewrite binary_round_aux_eq. cbv zeta.
    rewrite (shr_fexp_normal m e l) by assumption.
    cbn [fst snd]. fold n X m1.
    rewrite (shr_fexp_normal m1 (e + n) loc_Exact) by lia.
    cbn [fst snd]. fold n1.
    destruct (shr_m_e (shr_record_of_loc m1 loc_Exact) 0 n1) as [-> _].
    { cbn. lia. }
    cbn [shr_record_of_loc shr_m]. rewrite Z.max_l by lia. fold m2.
    rewrite Z.add_assoc.
    destruct m2 as [|p|p]; try lia. reflexivity.
Qed.


(** *** Division *)

Lemma SFdiv_core_binary_eq (m1 m2 : positive) (e1 e2 : Z) :
  let e0 := Z.min (fexp (Zpos (digits2_pos m1) + e1 - (Zpos (digits2_pos m2) + e2)))
              (e1 - e2) in
  let M := Zpos m1 * 2 ^ (e1 - e2 - e0) in
  SFdiv_core_binary prec emax (Zpos m1) e1 (Zpos m2) e2
  = (M / Zpos m2, e0, new_location (Zpos m2) (M mod Zpos m2)).
Proof.
  intros e0 M. unfold SFdiv_core_binary. cbn [Zdigits2]. fold e0.
  assert (Hs : 0 <= e1 - e2 - e0) by (unfold e0; lia).
  assert (HM : match e1 - e2 - e0 with
               | Zpos _ => Z.shiftl (Zpos m1) (e1 - e2 - e0)
               | Z0 => Zpos m1
               | Zneg _ => 0
               end = M).
  { unfold M. destruct (e1 - e2 - e0) eqn:E; try lia.
    apply Z.shiftl_mul_pow2. lia. }
  rewrite HM. unfold Z.div, Z.modulo.
  destruct (Z.div_eucl M (Zpos m2)). reflexivity.
Qed.

Lemma div_digits_upper (M m2 s d1 d2 : Z) :
  0 < M -> 0 < m2 -> 0 <= d1 + s -> 0 < d2 ->
  M < 2 ^ (d1 + s) -> 2 ^ (d2 - 1) <= m2 ->
  Zdigits2 (M / m2) <= Z.max 0 (d1 + s - d2 + 1).
Proof.
  intros HM Hm2 Hds Hd2 HMhi Hm2lo.
  assert (Hq : 0 <= M / m2) by (apply Z.div_pos; lia).
  assert (Hp2 : 0 < 2 ^ (d2 - 1)) by (apply Z.pow_pos_nonneg; lia).
  assert (Hle : M / m2 <= M / 2 ^ (d2 - 1)).
  { apply Z.div_le_compat_l; lia. }
  apply Zdigits2_le; [lia|lia|].
  eapply Z.le_lt_trans; [exact Hle|].
  apply Z.div_lt_upper_bound; [lia|].
  rewrite <- Z.pow_add_r by lia.
  eapply Z.lt_le_trans; [exact HMhi|].
  apply Z.pow_le_mono_r; lia.
Qed.

Lemma div_digits_lower (M m2 s d1 d2 : Z) :
  0 < m2 -> 0 < d2 -> d2 <= d1 + s - 1 ->
  2 ^ (d1 + s - 1) <= M -> m2 < 2 ^ d2 ->
  d1 + s - d2 <= Zdigits2 (M / m2).
Proof.
  intros Hm2 Hd2 Hds HMlo Hm2hi.
  assert (Hp : 0 < 2 ^ (d1 + s - d2 - 1)) by (apply Z.pow_pos_nonneg; lia).
  assert (Hq : 2 ^ (d1 + s - d2 - 1) <= M / m2).
  { apply Z.div_le_lower_bound; [lia|].
    eapply Z.le_trans; [|exact HMlo].
    replace (d1 + s - 1) with (d2 + (d1 + s - d2 - 1)) by lia.
    rewrite Z.pow_add_r by lia.
    apply Z.mul_le_mono_nonneg_r; lia. }
  apply Zdigits2_ge; lia.
Qed.

Lemma SFdiv_finite_rounded (sx sy : bool) (mx my : positive) (ex ey : Z) :
  rounded prec emax (xorb sx sy)
    (SFdiv prec emax (S754_finite sx mx ex) (S754_finite sy my ey)).
Proof.
  unfold SFdiv.
  pose proof (SFdiv_core_binary_eq mx my ex ey) as E. cbv zeta in E. rewrite E.
  apply binary_round_aux_rounded.
  apply Z.div_pos; [|lia].
  apply Z.mul_nonneg_nonneg; [lia|]. apply Z.pow_nonneg; lia.
Qed.

Lemma SFmul_finite_rounded (sx sy : bool) (mx my : positive) (ex ey : Z) :
  rounded prec emax (xorb sx sy)
    (SFmul prec emax (S754_finite sx mx ex) (S754_finite sy my ey)).
Proof. unfold SFmul. apply binary_round_aux_rounded. lia. Qed.

Lemma binary_round_rounded (s : bool) (m : positive) (e : Z) :
  rounded prec emax s (binary_round prec emax s m e).
Proof.
  unfold binary_round. destruct (shl_align m e _) as [mz ez].
  apply binary_round_aux_rounded. lia.
Qed.

(** A quotient overflows only from [2 ^ (emax - 1)] on. *)
Lemma SFdiv_finite_bounded (sx sy : bool) (mx my : positive) (ex ey : Z) :
  0 < prec -> prec < emax ->
  Zpos (digits2_pos mx) + ex - (Zpos (digits2_pos my) + ey) + 1 < emax ->
  SFdiv prec emax (S754_finite sx mx ex) (S754_finite sy my ey)
  <> S754_infinity (xorb sx sy).
Proof.
  intros prec_pos prec_lt_emax Hk. unfold SFdiv.
  pose proof (SFdiv_core_binary_eq mx my ex ey) as E. cbv zeta in E. rewrite E.
  set (d1 := Zpos (digits2_pos mx)) in *. set (d2 := Zpos (digits2_pos my)) in *.
  set (e0 := Z.min (fexp (d1 + ex - (d2 + ey))) (ex - ey)).
  set (M := Zpos mx * 2 ^ (ex - ey - e0)).
  assert (Hs : 0 <= ex - ey - e0) by (unfold e0; lia).
  assert (Hpow : 0 < 2 ^ (ex - ey - e0)) by (apply Z.pow_pos_nonneg; lia).
  assert (HM : 0 < M) by (unfold M; apply Z.mul_pos_pos; lia).
  pose proof (Zdigits2_bounds (Zpos mx) ltac:(lia)) as [_ Hx].
  pose proof (Zdigits2_bounds (Zpos my) ltac:(lia)) as [Hy _].
  cbn [Zdigits2] in Hx, Hy. fold d1 in Hx. fold d2 in Hy.
  assert (Hd : Zdigits2 (M / Zpos my) <= Z.max 0 (d1 + (ex - ey - e0) - d2 + 1)).
  { apply div_digits_upper; try lia.
    unfold M. rewrite Z.pow_add_r by lia.
    apply Z.mul_lt_mono_pos_r; lia. }
  apply binary_round_aux_finite; [assumption|assumption| | |].
  - apply Z.div_pos; lia.
  - unfold e0, SpecFloat.fexp, SpecFloat.emin. lia.
  - assert (e0 <= fexp (d1 + ex - (d2 + ey))) by (unfold e0; lia).
    unfold SpecFloat.fexp, SpecFloat.emin in *. lia.
Qed.


(** *** Operations on normal numbers

    For mantissas of [prec] digits the rounded mantissa of a product,
    a quotient or a sum of two values of one sign does not depend on
    the exponents of the operands as long as the result stays in the
    normal range; the exponent of the result follows theirs. *)

Lemma mul_digits (mx my : positive) :
  0 < prec ->
  Zpos (digits2_pos mx) = prec -> Zpos (digits2_pos my) = prec ->
  2 * prec - 1 <= Zdigits2 (Zpos (mx * my)) <= 2 * prec.
Proof.
  intros prec_pos Hx Hy.
  pose proof (Zdigits2_bounds (Zpos mx) ltac:(lia)) as [Hxl Hxh].
  pose proof (Zdigits2_bounds (Zpos my) ltac:(lia)) as [Hyl Hyh].
  cbn [Zdigits2] in Hxl, Hxh, Hyl, Hyh.
  rewrite Hx in Hxl, Hxh. rewrite Hy in Hyl, Hyh.
  assert (Hp : 0 < 2 ^ (prec - 1)) by (apply Z.pow_pos_nonneg; lia).
  rewrite Pos2Z.inj_mul. split.
  - apply Zdigits2_ge; [nia|].
    replace (2 * prec - 1 - 1) with ((prec - 1) + (prec - 1)) by lia.
    rewrite Z.pow_add_r by lia. nia.
  - apply Zdigits2_le; [nia|lia|].
    replace (2 * prec) with (prec + prec) by lia.
    rewrite Z.pow_add_r by lia. nia.
Qed.

Lemma SFmul_normal (sx sy : bool) (mx my : positive) :
  0 < prec ->
  Zpos (digits2_pos mx) = prec -> Zpos (digits2_pos my) = prec ->
  exists (m' : positive) (d : Z),
    Zpos (digits2_pos m') = prec
    /\ prec - 1 <= d <= prec + 1
    /\ forall ex ey, emin <= ex + ey + prec - 1 ->
         SFmul prec emax (S754_finite sx mx ex) (S754_finite sy my ey)
         = if ex + ey + d <=? emax - prec
           then S754_finite (xorb sx sy) m' (ex + ey + d)
           else S754_infinity (xorb sx sy).
Proof.
  intros prec_pos Hx Hy.
  pose proof (mul_digits mx my prec_pos Hx Hy) as Hd.
  destruct (binary_round_aux_normal (xorb sx sy) (Zpos (mx * my)) loc_Exact)
    as (m' & d & Hm' & Hdd & Hall); [assumption|lia|lia|].
  exists m', d. split; [assumption|]. split; [lia|].
  intros ex ey He. unfold SFmul. apply Hall. lia.
Qed.

Lemma SFdiv_normal (sx sy : bool) (mx my : positive) :
  0 < prec ->
  Zpos (digits2_pos mx) = prec -> Zpos (digits2_pos my) = prec ->
  exists (m' : positive) (d : Z),
    Zpos (digits2_pos m') = prec
    /\ - prec <= d <= - prec + 2
    /\ forall ex ey, emin <= ex - ey - prec ->
         SFdiv prec emax (S754_finite sx mx ex) (S754_finite sy my ey)
         = if ex - ey + d <=? emax - prec
           then S754_finite (xorb sx sy) m' (ex - ey + d)
           else S754_infinity (xorb sx sy).
Proof.
  intros prec_pos Hx Hy.
  pose proof (Zdigits2_bounds (Zpos mx) ltac:(lia)) as [Hxl Hxh].
  pose proof (Zdigits2_bounds (Zpos my) ltac:(lia)) as [Hyl Hyh].
  cbn [Zdigits2] in *. rewrite Hx in Hxl, Hxh. rewrite Hy in Hyl, Hyh.
  set (M := Zpos mx * 2 ^ prec).
  set (q := M / Zpos my).
  assert (Hpow : 0 < 2 ^ prec) by (apply Z.pow_pos_nonneg; lia).
  assert (HM : 0 < M) by (unfold M; apply Z.mul_pos_pos; lia).
  assert (Hql : prec <= Zdigits2 q).
  { replace prec with (prec + prec - prec) at 1 by lia.
    apply div_digits_lower; try lia.
    unfold M. replace (prec + prec - 1) with ((prec - 1) + prec) by lia.
    rewrite Z.pow_add_r by lia. apply Z.mul_le_mono_nonneg_r; lia. }
  assert (Hqh : Zdigits2 q <= prec + 1).
  { pose proof (div_digits_upper M (Zpos my) prec prec prec) as H.
    rewrite Z.max_r in H by lia.
    replace (prec + prec - prec + 1) with (prec + 1) in H by lia.
    apply H; try lia.
    unfold M. rewrite Z.pow_add_r by lia. apply Z.mul_lt_mono_pos_r; lia. }
  assert (Hq : 0 < q).
  { destruct (Z.eq_dec q 0) as [E|]; [rewrite E in Hql; cbn in Hql; lia|].
    assert (0 <= q) by (apply Z.div_pos; lia). lia. }
  destruct (binary_round_aux_normal (xorb sx sy) q
              (new_location (Zpos my) (M mod Zpos my)))
    as (m' & d & Hm' & Hdd & Hall); [assumption|lia|lia|].
  exists m', (d - prec). split; [assumption|]. split; [lia|].
  intros ex ey He. unfold SFdiv.
  pose proof (SFdiv_core_binary_eq mx my ex ey) as E. cbv zeta in E.
  rewrite Hx, Hy in E.
  replace (prec + ex - (prec + ey)) with (ex - ey) in E by lia.
  rewrite fexp_normal in E by lia.
  rewrite Z.min_l in E by lia.
  replace (ex - ey - (ex - ey - prec)) with prec in E by lia.
  fold M q in E. rewrite E.
  rewrite Hall by lia.
  replace (ex - ey - prec + d) with (ex - ey + (d - prec)) by lia.
  reflexivity.
Qed.

Lemma shl_align_fst_ge (m : positive) (e e' : Z) :
  Zpos m <= Zpos (fst (shl_align m e e')).
Proof.
  unfold shl_align. destruct (e' - e) as [|p|p]; cbn [fst]; try lia.
  apply (Pos.iter_invariant p positive xO (fun y => Zpos m <= Zpos y)); lia.
Qed.

Lemma shl_align_fst_shift (m : positive) (e e' j : Z) :
  fst (shl_align m (e + j) (e' + j)) = fst (shl_align m e e').
Proof.
  unfold shl_align. replace (e' + j - (e + j)) with (e' - e) by lia.
  destruct (e' - e); reflexivity.
Qed.

Lemma SFadd_normal (mx my : positive) (ex ey : Z) :
  0 < prec ->
  Zpos (digits2_pos mx) = prec ->
  exists (m' : positive) (d : Z),
    Zpos (digits2_pos m') = prec
    /\ 0 <= d
    /\ forall j, emin <= Z.min ex ey + j ->
         SFadd prec emax (S754_finite false mx (ex + j)) (S754_finite false my (ey + j))
         = if Z.min ex ey + j + d <=? emax - prec
           then S754_finite false m' (Z.min ex ey + j + d)
           else S754_infinity false.
Proof.
  intros prec_pos Hx.
  set (ez := Z.min ex ey).
  set (M := (fst (shl_align mx ex ez) + fst (shl_align my ey ez))%positive).
  assert (HM : prec <= Zdigits2 (Zpos M)).
  { cbn [Zdigits2]. rewrite <- Hx.
    change (Zdigits2 (Zpos mx) <= Zdigits2 (Zpos M)). apply Zdigits2_mono.
    pose proof (shl_align_fst_ge mx ex ez). unfold M. lia. }
  destruct (binary_round_aux_normal false (Zpos M) loc_Exact)
    as (m' & d & Hm' & Hdd & Hall); [assumption|lia|assumption|].
  exists m', d. split; [assumption|]. split; [lia|].
  intros j Hj. unfold SFadd.
  rewrite Z.add_min_distr_r. fold ez.
  rewrite !shl_align_fst_shift. cbn [cond_Zopp].
  change (Zpos (fst (shl_align mx ex ez)) + Zpos (fst (shl_align my ey ez)))
    with (Zpos M).
  cbn [binary_normalize]. unfold binary_round.
  assert (Hal : shl_align M (ez + j) (fexp (Zpos (digits2_pos M) + (ez + j)))
                = (M, ez + j)).
  { unfold shl_align.
    pose proof (fexp_normal (Zpos (digits2_pos M) + (ez + j))) as Hf.
    cbn [Zdigits2] in HM.
    destruct (fexp (Zpos (digits2_pos M) + (ez + j)) - (ez + j)) eqn:E;
      try reflexivity.
    exfalso. unfold SpecFloat.fexp in E. lia. }
  rewrite Hal. apply Hall. cbn [Zdigits2] in *. lia.
Qed.

End BinaryRound.

(** ** Handlers *)

(** C2.  A payload without items is answered with status 400 by both
    meal handlers, as a raise that precedes the aggregation and the
    store: no totals are returned, [save_meal] hands nothing to
    [create_document] and the store is left as it was.  The same holds
    of the endpoints on a body whose item list is empty. *)
Theorem empty_items_rejected (n : option string) (st : Store) :
  let payload := {| items := []; payload_name := n |} in
  let body := {| raw_items := Some []; raw_payload_name := n |} in
  calculate_meal payload = Raise no_items
  /\ save_meal payload = Raise no_items
  /\ post_meals_calculate body = Raise no_items
  /\ post_meals_save body = Raise no_items
  /\ run (post_meals_calculate body) st = (inl no_items, st)
  /\ run (post_meals_save body) st = (inl no_items, st)
  /\ writes (post_meals_save body) st = [].
Proof. repeat split. Qed.

(** C10.  [calculate_meal] answers a payload that has items with the
    payload's name as it is, [None] when it is absent: no default is
    substituted on this path. *)
Theorem calculate_keeps_name (it : CalculateMealItem) (its : list CalculateMealItem)
    (n : option string) (st : Store) :
  calculate_meal {| items := it :: its; payload_name := n |}
  = Ret {| calc_name := n; calc_totals_of := calc_totals (it :: its) |}
  /\ run (calculate_meal {| items := it :: its; payload_name := n |}) st
     = (inr {| calc_name := n; calc_totals_of := calc_totals (it :: its) |}, st)
  /\ calculate_meal {| items := it :: its; payload_name := None |}
     = Ret {| calc_name := None; calc_totals_of := calc_totals (it :: its) |}.
Proof. repeat split. Qed.

Lemma collection_of_create_eq (c : string) (doc : document) (st : Store) :
  collection_of (snd (create_document c doc st)) c
  = collection_of st c ++ [<[ "_id"%string := VObjectId (pretty (counter st)) ]> doc].
Proof.
  unfold create_document, collection_of; simpl.
  rewrite lookup_insert_eq. reflexivity.
Qed.

Lemma collection_of_create_ne (c c' : string) (doc : document) (st : Store) :
  c <> c' ->
  collection_of (snd (create_document c doc st)) c' = collection_of st c'.
Proof.
  intros Hne. unfold create_document, collection_of; simpl.
  rewrite lookup_insert_ne by assumption. reflexivity.
Qed.

Lemma load_items_model_dump (its : list CalculateMealItem) :
  mapM load_item (map model_dump its) = Some its.
Proof.
  induction its as [|it its IH]; [reflexivity|].
  cbn. rewrite IH. destruct it; reflexivity.
Qed.

Lemma meal_doc_lookup (payload : CalculateMealPayload) (totals : Totals) :
  let doc := meal_doc payload totals in
  doc !! "name"%string = Some (VStr (name_or_default (payload_name payload) "Meal"))
  /\ doc !! "items"%string = Some (VList (map model_dump (items payload)))
  /\ doc !! "total_calories"%string = Some (VFloat (calories totals))
  /\ doc !! "total_protein"%string = Some (VFloat (protein totals))
  /\ doc !! "total_carbs"%string = Some (VFloat (carbs totals))
  /\ doc !! "total_fat"%string = Some (VFloat (fat totals)).
Proof. unfold meal_doc. repeat split; simplify_map_eq; reflexivity. Qed.

(** C9.  A payload with items whose name is the empty string is stored
    by [save_meal] under the name ["Meal"]: the one document handed to
    the store, and the one the collection [meal] gains, has that
    name. *)
Theorem save_empty_name_is_Meal (it : CalculateMealItem)
    (its : list CalculateMealItem) (st : Store) :
  let payload := {| items := it :: its; payload_name := Some ""%string |} in
  exists doc : document,
    writes (save_meal payload) st = [("meal"%string, doc)]
    /\ doc !! "name"%string = Some (VStr "Meal")
    /\ collection_of (snd (run (save_meal payload) st)) "meal"
       = collection_of st "meal"
           ++ [<[ "_id"%string := VObjectId (pretty (counter st)) ]> doc].
Proof.
  intros payload.
  exists (meal_doc payload (calc_totals (it :: its))).
  split; [reflexivity|]. split.
  - apply meal_doc_lookup.
  - apply (collection_of_create_eq "meal").
Qed.

(** C4 (as stated).  With the empty string for a name, the stored name
    is not the submitted one although the name is not absent. *)
Lemma save_name_not_as_submitted :
  let payload := {| items := [rice]; payload_name := Some ""%string |} in
  exists doc : document,
    writes (save_meal payload) empty_store
    = [("meal"%string, doc)]
    /\ doc !! "name"%string <> Some (VStr (spec_meal_name (payload_name payload))).
Proof.
  eexists. split; [reflexivity|].
  rewrite (proj1 (meal_doc_lookup _ _)). discriminate.
Qed.

(** C4 (amended).  On a payload that has items, [save_meal] hands the
    store exactly one document, on the collection [meal]; its name is
    the submitted name when that is present and not empty, and ["Meal"]
    otherwise; its items are the dumps of the submitted items in their
    order, from which the items read back; its four totals are the
    totals of the response.  The run adds that document, under the
    identifier the response carries, to the collection [meal] and
    touches no other collection. *)
Theorem save_meal_persists (it : CalculateMealItem) (its : list CalculateMealItem)
    (n : option string) (st : Store) :
  let payload := {| items := it :: its; payload_name := n |} in
  exists (doc : document) (resp : SaveResponse) (st' : Store),
    writes (save_meal payload) st = [("meal"%string, doc)]
    /\ run (save_meal payload) st = (inr resp, st')
    /\ doc !! "name"%string
       = Some (VStr match n with
                    | Some s => if decide (s = ""%string) then "Meal" else s
                    | None => "Meal"
                    end)
    /\ (exists vs, doc !! "items"%string = Some (VList vs)
                   /\ vs = map model_dump (it :: its)
                   /\ mapM load_item vs = Some (it :: its))
    /\ doc !! "total_calories"%string = Some (VFloat (calories (save_totals resp)))
    /\ doc !! "total_protein"%string = Some (VFloat (protein (save_totals resp)))
    /\ doc !! "total_carbs"%string = Some (VFloat (carbs (save_totals resp)))
    /\ doc !! "total_fat"%string = Some (VFloat (fat (save_totals resp)))
    /\ save_totals resp = calc_totals (it :: its)
    /\ collection_of st' "meal"
       = collection_of st "meal"
           ++ [<[ "_id"%string := VObjectId (save_id resp) ]> doc]
    /\ (forall c : string, c <> "meal"%string ->
          collection_of st' c = collection_of st c).
Proof.
  intros payload.
  pose proof (meal_doc_lookup payload (calc_totals (it :: its)))
    as (Hn & Hi & Hc & Hp & Hb & Hf).
  exists (meal_doc payload (calc_totals (it :: its))).
  exists {| save_id := pretty (counter st); save_totals := calc_totals (it :: its) |}.
  exists (snd (create_document "meal" (meal_doc payload (calc_totals (it :: its))) st)).
  repeat split; try assumption.
  - eexists. split; [exact Hi|]. split; [reflexivity|].
    apply load_items_model_dump.
  - apply (collection_of_create_eq "meal").
  - intros c Hc'. apply collection_of_create_ne. congruence.
Qed.

(** ** The list handlers *)

Lemma stringify_id_spec (py_str : value -> string) (d : document) :
  id_as_string py_str d (stringify_id py_str d).
Proof.
  unfold id_as_string, stringify_id. repeat split.
  - intros v ->. apply lookup_insert_eq.
  - intros ->. apply lookup_insert_eq.
  - intros oid. rewrite lookup_insert_eq. destruct (d !! "_id"%string); discriminate.
  - intros key Hkey. apply lookup_insert_ne. congruence.
Qed.

Lemma stringify_all (py_str : value -> string) (docs : list document) :
  Forall2 (id_as_string py_str) docs (map (stringify_id py_str) docs).
Proof.
  induction docs as [|d docs IH]; constructor; auto using stringify_id_spec.
Qed.

Lemma stringify_has_string_id (py_str : value -> string) (docs : list document) :
  Forall (fun d => is_Some (d !! "_id"%string)) docs ->
  Forall has_string_id (map (stringify_id py_str) docs).
Proof.
  induction 1 as [|d docs [v Hv] _ IH]; constructor; [|exact IH].
  exists (py_str v). apply stringify_id_spec, Hv.
Qed.

Lemma stringify_listed (py_str : value -> string) (docs : list document) :
  listed_as py_str docs (map (stringify_id py_str) docs).
Proof.
  split; [apply stringify_all|]. split; [|split].
  - induction docs as [|d docs IH]; constructor; [|exact IH].
    destruct (stringify_id_spec py_str d) as (Hsome & Hnone & _). split.
    + intros [v Hv]. exists (py_str v). apply Hsome, Hv.
    + intros [s Hs]. destruct (d !! "_id"%string) as [v|] eqn:E; [eauto|].
      rewrite (Hnone eq_refl) in Hs. discriminate.
  - induction docs as [|d docs IH]; constructor; [|exact IH].
    destruct (stringify_id_spec py_str d) as (Hsome & Hnone & _).
    destruct (d !! "_id"%string) as [v|] eqn:E.
    + left. exists (py_str v). apply Hsome. reflexivity.
    + right. apply Hnone. reflexivity.
  - apply stringify_has_string_id.
Qed.

(** C8 (as stated).  A document that has no identifier is returned with
    [None] under ["_id"], which is not a string: the handlers' own
    [else None]. *)
Lemma listed_without_id_is_None :
  let py_str := fun _ : value => "652f"%string in
  let d : document := {[ "name"%string := VStr "Rice" ]} in
  (exists filter_dict k d',
      list_foods py_str None 50 = GetDocuments "food" filter_dict 50 k
      /\ k [d] = Ret [d']
      /\ d' !! "_id"%string = Some VNone /\ ~ has_string_id d')
  /\ (exists k d',
      list_meals py_str 50 = GetDocuments "meal" ∅ 50 k
      /\ k [d] = Ret [d']
      /\ d' !! "_id"%string = Some VNone /\ ~ has_string_id d').
Proof.
  split.
  - eexists _, _, _. split; [reflexivity|]. split; [reflexivity|].
    split; [reflexivity|]. intros [s Hs]. discriminate.
  - eexists _, _. split; [reflexivity|]. split; [reflexivity|].
    split; [reflexivity|]. intros [s Hs]. discriminate.
Qed.

(** C8 (amended).  Whatever list of documents the store answers with,
    [list_foods] and [list_meals] return it document by document: a
    document that has an identifier holds the string of it under
    ["_id"], and so a string exactly when the stored document has an
    identifier; a document that has none holds [None] there; no
    returned document holds the store's native identifier; and the
    other fields are those of the stored document.  When every stored
    document has an identifier, every returned one holds a string. *)
Theorem listed_ids_are_strings (py_str : value -> string) (query : option string)
    (limit : Z) (docs : list document) :
  (exists filter_dict k res,
      list_foods py_str query limit = GetDocuments "food" filter_dict limit k
      /\ k docs = Ret res
      /\ listed_as py_str docs res)
  /\ (exists k res,
      list_meals py_str limit = GetDocuments "meal" ∅ limit k
      /\ k docs = Ret res
      /\ listed_as py_str docs res).
Proof.
  split.
  - eexists _, _, _. split; [reflexivity|]. split; [reflexivity|].
    apply stringify_listed.
  - eexists _, _. split; [reflexivity|]. split; [reflexivity|].
    apply stringify_listed.
Qed.

(** *** Identifiers in the store *)

Lemma run_reachable {A : Type} (p : prog A) (st : Store) :
  reachable st -> reachable (snd (run p st)).
Proof.
  revert st. induction p as [a|e|c doc k IH|c f l k IH]; intros st Hst; cbn [run].
  - exact Hst.
  - exact Hst.
  - apply (IH (pretty (counter st))). constructor. exact Hst.
  - apply IH, Hst.
Qed.

Lemma reachable_has_id (st : Store) :
  reachable st ->
  forall c, Forall (fun d => is_Some (d !! "_id"%string)) (collection_of st c).
Proof.
  induction 1 as [|c0 doc st Hst IH]; intros c.
  - unfold collection_of, empty_store; cbn. rewrite lookup_empty. constructor.
  - destruct (decide (c0 = c)) as [<-|Hne].
    + rewrite collection_of_create_eq. apply Forall_app. split; [apply IH|].
      repeat constructor. rewrite lookup_insert_eq. eauto.
    + rewrite collection_of_create_ne by assumption. apply IH.
Qed.

Lemma get_documents_has_id (st : Store) (c : string) (f : document) (limit : Z) :
  reachable st ->
  Forall (fun d => is_Some (d !! "_id"%string)) (get_documents c f limit st).
Proof.
  intros Hst. unfold get_documents. apply Forall_take.
  pose proof (reachable_has_id st Hst c) as H.
  rewrite Forall_forall in *. intros d Hd. apply H.
  apply list_elem_of_In. apply list_elem_of_In in Hd.
  apply filter_In in Hd. tauto.
Qed.

(** On every store the handlers can leave, both listings answer, leave
    the store as it is, and return only documents whose identifier is a
    string. *)
Lemma listings_on_reachable (py_str : value -> string) (st : Store)
    (query : option string) (limit : Z) :
  reachable st ->
  (exists res, run (list_foods py_str query limit) st = (inr res, st)
               /\ Forall has_string_id res)
  /\ (exists res, run (list_meals py_str limit) st = (inr res, st)
                  /\ Forall has_string_id res).
Proof.
  intros Hst. split; eexists; (split; [reflexivity|]);
    apply stringify_has_string_id, get_documents_has_id, Hst.
Qed.

Lemma listings_on_reachable_witness :
  let st := snd (run (save_meal {| items := [rice]; payload_name := None |}) empty_store) in
  (exists res, run (list_foods (fun _ => "0"%string) None 50) st = (inr res, st)
               /\ Forall has_string_id res)
  /\ (exists res, run (list_meals (fun _ => "0"%string) 50) st = (inr res, st)
                  /\ Forall has_string_id res).
Proof.
  apply listings_on_reachable. apply run_reachable. constructor.
Defined.

(** The third end-to-end scenario of the specification: a meal saved
    with one valid item is stored with the total the response carries,
    and a following listing of the meals returns it with a string for an
    identifier. *)
Example scenario_save_then_list (py_str : value -> string) :
  let payload := {| items := [rice]; payload_name := None |} in
  exists (resp : SaveResponse) (st : Store) (d : document),
    run (save_meal payload) empty_store = (inr resp, st)
    /\ run (list_meals py_str 50) st = (inr [d], st)
    /\ d !! "_id"%string = Some (VStr (py_str (VObjectId (save_id resp))))
    /\ d !! "name"%string = Some (VStr "Meal")
    /\ d !! "total_calories"%string = Some (VFloat (calories (save_totals resp)))
    /\ calories (save_totals resp) = of_pos 260.
Proof.
  set (payload := {| items := [rice]; payload_name := None |}).
  set (doc := meal_doc payload (calc_totals [rice])).
  set (stored := <[ "_id"%string := VObjectId (pretty 0%N) ]> doc).
  exists {| save_id := pretty 0%N; save_totals := calc_totals [rice] |}.
  exists (snd (create_document "meal" doc empty_store)).
  exists (stringify_id py_str stored).
  split; [reflexivity|]. split; [reflexivity|].
  destruct (stringify_id_spec py_str stored) as (Hid & _ & _ & Hkey).
  destruct (meal_doc_lookup payload (calc_totals [rice])) as (Hn & _ & Hc & _).
  cbn [save_id save_totals]. split; [|split; [|split]].
  - apply Hid. apply lookup_insert_eq.
  - rewrite Hkey by discriminate. unfold stored.
    rewrite lookup_insert_ne by discriminate. exact Hn.
  - rewrite Hkey by discriminate. unfold stored.
    rewrite lookup_insert_ne by discriminate. exact Hc.
  - reflexivity.
Qed.

(** ** Validation *)

Lemma field_None (ok : float -> bool) (v : option float) :
  field ok v = None <-> lacks ok v.
Proof.
  unfold field, lacks. destruct v as [x|].
  - destruct (ok x) eqn:E; split.
    + discriminate.
    + intros [H|(y & H & Hy)]; [discriminate|]. congruence.
    + intros _. right. eauto.
    + reflexivity.
  - split; auto.
Qed.

Lemma validate_item_None (r : RawItem) :
  validate_item r = None <-> item_fault r.
Proof.
  unfold validate_item, item_fault.
  rewrite <- !field_None.
  destruct (raw_name r); cbn; [|tauto].
  destruct (field gt0 (raw_grams r)); cbn; [|tauto].
  destruct (field ge0 (raw_calories_per_100g r)); cbn; [|tauto].
  destruct (field ge0 (raw_protein_per_100g r)); cbn; [|tauto].
  destruct (field ge0 (raw_carbs_per_100g r)); cbn; [|tauto].
  destruct (field ge0 (raw_fat_per_100g r)); cbn; [|tauto].
  split; [discriminate|]. intros [H|[H|[H|[H|[H|H]]]]]; discriminate.
Qed.

Lemma validate_food_None (r : RawFood) :
  validate_food r = None <-> food_fault r.
Proof.
  unfold validate_food, food_fault.
  rewrite <- !field_None.
  destruct (raw_food_name r); cbn; [|tauto].
  destruct (field ge0 (raw_food_calories_per_100g r)); cbn; [|tauto].
  destruct (field ge0 (raw_food_protein_per_100g r)); cbn; [|tauto].
  destruct (field ge0 (raw_food_carbs_per_100g r)); cbn; [|tauto].
  destruct (field ge0 (raw_food_fat_per_100g r)); cbn; [|tauto].
  split; [discriminate|]. intros [H|[H|[H|[H|H]]]]; discriminate.
Qed.

Lemma mapM_validate_None (l : list RawItem) :
  mapM validate_item l = None <-> exists r, In r l /\ item_fault r.
Proof.
  induction l as [|r l IH]; cbn.
  - split; [discriminate|]. intros (r & [] & _).
  - destruct (validate_item r) as [it|] eqn:Er; cbn.
    + destruct (mapM validate_item l) as [its|] eqn:El; cbn.
      * split; [discriminate|]. intros (r' & [<-|Hin] & Hf).
        -- apply validate_item_None in Hf. congruence.
        -- destruct IH as [_ IH]. discriminate IH. eauto.
      * split; [|reflexivity]. intros _.
        destruct IH as [IH _]. destruct (IH eq_refl) as (r' & Hin & Hf). eauto.
    + split; [|reflexivity]. intros _. exists r. split; [auto|].
      apply validate_item_None, Er.
Qed.

Lemma mapM_validate_nil (l : list RawItem) :
  mapM validate_item l = Some [] -> l = [].
Proof.
  destruct l as [|r l]; [reflexivity|]. cbn.
  destruct (validate_item r); cbn; [|discriminate].
  destruct (mapM validate_item l); cbn; discriminate.
Qed.

Lemma validate_payload_None (body : RawMealPayload) :
  validate_payload body = None
  <-> raw_items body = None
      \/ exists l r, raw_items body = Some l /\ In r l /\ item_fault r.
Proof.
  unfold validate_payload. destruct (raw_items body) as [l|]; cbn.
  - destruct (mapM validate_item l) as [its|] eqn:El; cbn.
    + split; [discriminate|]. intros [H|(l' & r & [= <-] & Hin & Hf)]; [discriminate|].
      assert (mapM validate_item l = None) by (apply mapM_validate_None; eauto).
      congruence.
    + split; [|reflexivity]. intros _. right.
      apply mapM_validate_None in El as (r & Hin & Hf). eauto.
  - split; auto.
Qed.

Lemma validate_payload_Some_nil (body : RawMealPayload) (payload : CalculateMealPayload) :
  validate_payload body = Some payload ->
  items payload = [] <-> raw_items body = Some [].
Proof.
  unfold validate_payload. destruct (raw_items body) as [l|]; cbn; [|discriminate].
  destruct (mapM validate_item l) as [its|] eqn:El; cbn; [|discriminate].
  intros [= <-]. cbn. split.
  - intros ->. apply mapM_validate_nil in El. congruence.
  - intros [= ->]. inversion El. reflexivity.
Qed.

Lemma meal_endpoint_rejects (A : Type) (handler : CalculateMealPayload -> prog A)
    (body : RawMealPayload) :
  (forall payload, rejected (handler payload) <-> items payload = []) ->
  rejected (match validate_payload body with
            | Some payload => handler payload
            | None => Raise RequestValidationError
            end)
  <-> payload_fault body.
Proof.
  intros Hh. unfold payload_fault.
  pose proof (validate_payload_None body) as HN.
  pose proof (validate_payload_Some_nil body) as HS.
  destruct (validate_payload body) as [payload|].
  - specialize (HS payload eq_refl). rewrite Hh, HS.
    split; [auto|]. intros [H|[H|H]]; [|assumption|].
    + destruct HN as [_ HN]. discriminate HN. auto.
    + destruct HN as [_ HN]. discriminate HN. auto.
  - split.
    + intros _. destruct HN as [HN _]. destruct (HN eq_refl); auto.
    + intros _. eexists. reflexivity.
Qed.

Lemma calculate_meal_rejects (payload : CalculateMealPayload) :
  rejected (calculate_meal payload) <-> items payload = [].
Proof.
  unfold calculate_meal, rejected. destruct (items payload).
  - split; eauto.
  - split; [intros (e & He)|]; discriminate.
Qed.

Lemma save_meal_rejects (payload : CalculateMealPayload) :
  rejected (save_meal payload) <-> items payload = [].
Proof.
  unfold save_meal, rejected. destruct (items payload).
  - split; eauto.
  - split; [intros (e & He)|]; discriminate.
Qed.

(** C3 (as stated).  A body whose single line item is sound but for its
    absent name shows none of the three causes, and both meal endpoints
    reject it. *)
Lemma nameless_item_rejected :
  let body := {| raw_items := Some [nameless_rice]; raw_payload_name := None |} in
  post_meals_calculate body = Raise RequestValidationError
  /\ post_meals_save body = Raise RequestValidationError
  /\ ~ spec_validation_fault body.
Proof.
  split; [reflexivity|]. split; [reflexivity|].
  intros [H|(l & r & [= <-] & [<-|[]] & Hf)]; [discriminate|].
  destruct Hf as [H|[H|[H|[H|H]]]];
    destruct H as (x & [= <-] & Hx); vm_compute in Hx; discriminate.
Qed.

(** C3 (amended).  A meal endpoint rejects a body exactly when its item
    list is missing or empty or one of its line items lacks a field the
    model requires, the name among them, or has grams that are not
    positive or a nutrient value that is not at least zero; the food
    endpoint rejects a body exactly when it lacks the name or a nutrient
    value that is at least zero.  In particular a line item without a
    name does not validate. *)
Theorem rejected_iff_fault :
  (forall body, rejected (post_meals_calculate body) <-> payload_fault body)
  /\ (forall body, rejected (post_meals_save body) <-> payload_fault body)
  /\ (forall body, rejected (post_foods body) <-> food_fault body)
  /\ (forall r, validate_item r = None <-> item_fault r)
  /\ (forall g c p b f,
        validate_item {| raw_name := None; raw_grams := g;
                         raw_calories_per_100g := c; raw_protein_per_100g := p;
                         raw_carbs_per_100g := b; raw_fat_per_100g := f |} = None).
Proof.
  split; [|split; [|split; [|split]]].
  - intros body. apply meal_endpoint_rejects, calculate_meal_rejects.
  - intros body. apply meal_endpoint_rejects, save_meal_rejects.
  - intros body. unfold post_foods, rejected.
    rewrite <- validate_food_None.
    destruct (validate_food body); split; try discriminate; eauto.
    intros (e & He). discriminate.
  - apply validate_item_None.
  - reflexivity.
Qed.

(** The fourth end-to-end scenario of the specification: a food with
    [calories_per_100g = -1] is rejected and nothing reaches the
    store. *)
Example scenario_negative_food (st : Store) :
  post_foods bad_food = Raise RequestValidationError
  /\ writes (post_foods bad_food) st = []
  /\ run (post_foods bad_food) st = (inl RequestValidationError, st).
Proof. repeat split. Qed.

(** ** Binary64 operations *)

Lemma prec_pos : 0 < prec.
Proof. reflexivity. Qed.

Lemma prec_lt_emax : prec < emax.
Proof. reflexivity. Qed.

Lemma ge0_cases (x : float) :
  ge0 x = true <->
  (exists s, x = S754_zero s) \/ (exists m e, x = S754_finite false m e)
  \/ x = S754_infinity false.
Proof.
  split.
  - destruct x as [s|[]| |[] m e]; try discriminate; eauto.
  - intros [(s & ->)|[(m & e & ->)| ->]]; reflexivity.
Qed.

Lemma gt0_cases (x : float) :
  gt0 x = true <->
  (exists m e, x = S754_finite false m e) \/ x = S754_infinity false.
Proof.
  split.
  - destruct x as [s|[]| |[] m e]; try discriminate; eauto.
  - intros [(m & e & ->)| ->]; reflexivity.
Qed.

Lemma rounded_ge0 (x : float) : rounded prec emax false x -> ge0 x = true.
Proof. intros []; reflexivity. Qed.

Lemma rounded_not_nan (s : bool) (x : float) : rounded prec emax s x -> x <> S754_nan.
Proof. intros []; discriminate. Qed.

Lemma float64_bounded (s : bool) (m : positive) (e : Z) :
  is_float64 (S754_finite s m e) ->
  SpecFloat.fexp prec emax (Zpos (digits2_pos m) + e) = e /\ e <= emax - prec.
Proof.
  unfold is_float64, valid_binary, bounded, canonical_mantissa.
  intros [H1 H2]%andb_prop. split; [apply Z.eqb_eq, H1 | apply Z.leb_le, H2].
Qed.

(** [grams / 100.0] of a finite positive quantity is finite and not
    negative: dividing by a hundred does not overflow. *)
Lemma factor_finite (g : float) :
  is_float64 g -> is_finite g = true -> gt0 g = true ->
  fdiv g hundred = S754_zero false
  \/ exists m e, fdiv g hundred = S754_finite false m e.
Proof.
  intros Hv Hf [(m & e & ->)| ->]%gt0_cases; [|discriminate].
  apply float64_bounded in Hv as [Hc He].
  pose proof (SFdiv_finite_rounded prec emax false false m 7036874417766400 e (-46)) as Hr.
  pose proof (SFdiv_finite_bounded prec emax false false m 7036874417766400 e (-46)
                prec_pos prec_lt_emax) as Hb.
  unfold fdiv, hundred. cbn [xorb] in Hr, Hb.
  inversion Hr as [E|E|m' e' He' E]; eauto.
  exfalso. apply Hb; [|symmetry; exact E].
  change (Zpos (digits2_pos 7036874417766400)) with 53.
  range.
Qed.

Lemma fmul_ge0 (c f : float) :
  ge0 c = true -> is_finite c = true ->
  (f = S754_zero false \/ exists m e, f = S754_finite false m e) ->
  ge0 (fmul c f) = true.
Proof.
  intros [(s & ->)|[(m & e & ->)| ->]]%ge0_cases Hfin Hf; [| |discriminate].
  - destruct Hf as [->|(m' & e' & ->)]; reflexivity.
  - destruct Hf as [->|(m' & e' & ->)]; [reflexivity|].
    apply rounded_ge0.
    apply (SFmul_finite_rounded prec emax false false).
Qed.

Lemma fadd_ge0 (a b : float) :
  ge0 a = true -> ge0 b = true -> ge0 (fadd a b) = true.
Proof.
  intros [(s & ->)|[(m & e & ->)| ->]]%ge0_cases
         [(s' & ->)|[(m' & e' & ->)| ->]]%ge0_cases; try reflexivity.
  - destruct s, s'; reflexivity.
  - apply rounded_ge0. unfold fadd, SFadd. cbn [cond_Zopp Z.add binary_normalize].
    apply binary_round_rounded.
Qed.

Lemma of_cents_rounded (s : bool) (n : Z) : rounded prec emax s (of_cents s n).
Proof.
  destruct n as [|p|p]; cbn [of_cents]; try constructor.
  pose proof (SFdiv_finite_rounded prec emax s false p 100 0 0) as H.
  rewrite xorb_false_r in H. exact H.
Qed.

Lemma round2_ge0 (x : float) : ge0 x = true -> ge0 (round2 x) = true.
Proof.
  intros [(s & ->)|[(m & e & ->)| ->]]%ge0_cases; try reflexivity.
  apply rounded_ge0, of_cents_rounded.
Qed.

(** How [round(v, 2)] breaks ties: 0.125 and 0.375 are floats and round
    to the even hundredth; 2.675 is a float below the decimal it is
    written as and rounds down. *)
Example round2_ties :
  round2 (ratio 1 8) = ratio 12 100 /\ round2 (ratio 3 8) = ratio 38 100
  /\ round2 (ratio 2675 1000) = ratio 267 100.
Proof. repeat split. Qed.

(** ** The aggregator *)

(** The first end-to-end scenario of the specification: 200 g of rice
    total 260.0, 5.4, 56.0 and 0.6. *)
Example scenario_rice :
  calc_totals [rice]
  = {| calories := of_pos 260; protein := ratio 54 10;
       carbs := of_pos 56; fat := ratio 6 10 |}.
Proof. reflexivity. Qed.

Lemma fold_accumulate (its : list CalculateMealItem) (t : Totals) :
  let sum per_100g acc :=
    fold_left fadd (map (fun it => fmul (per_100g it) (fdiv (grams it) hundred)) its) acc in
  fold_left accumulate its t
  = {| calories := sum calories_per_100g (calories t);
       protein := sum protein_per_100g (protein t);
       carbs := sum carbs_per_100g (carbs t);
       fat := sum fat_per_100g (fat t) |}.
Proof.
  cbv zeta. revert t. induction its as [|it its IH]; intros t.
  - destruct t; reflexivity.
  - cbn [fold_left map]. rewrite IH. reflexivity.
Qed.

Lemma calc_totals_spec (its : list CalculateMealItem) :
  calc_totals its = spec_totals its.
Proof.
  unfold calc_totals, calc_sums. rewrite fold_accumulate. reflexivity.
Qed.

Lemma sum_ge0 (per_100g : CalculateMealItem -> float) (its : list CalculateMealItem)
    (acc : float) :
  ge0 acc = true ->
  Forall (fun it => ge0 (per_100g it) = true /\ is_finite (per_100g it) = true
                    /\ is_float64 (grams it) /\ is_finite (grams it) = true
                    /\ gt0 (grams it) = true) its ->
  ge0 (fold_left fadd (map (fun it => fmul (per_100g it) (fdiv (grams it) hundred)) its) acc)
  = true.
Proof.
  intros Hacc Hits. revert acc Hacc.
  induction Hits as [|it its (Hc & Hcf & Hg & Hgf & Hgp) _ IH]; intros acc Hacc.
  - exact Hacc.
  - cbn [map fold_left]. apply IH, fadd_ge0; [exact Hacc|].
    apply fmul_ge0; auto using factor_finite.
Qed.

(** C1 (as stated).  An infinite quantity passes the validation of
    [grams], and the total of a nutrient that is zero is then NaN, which
    is not at least zero. *)
Lemma infinite_grams_total_nan :
  valid_item endless_water
  /\ calories (calc_totals [endless_water]) = S754_nan
  /\ ge0 (calories (calc_totals [endless_water])) = false.
Proof. repeat split. Qed.

(** C1 (amended).  On line items whose numbers are finite binary64
    values, with grams above zero and nutrient values at least zero, each
    total is the sum over the items of the per-100g value times
    [grams / 100.0], accumulated from zero in the order of the items and
    rounded to two decimals, and each total is at least zero. *)
Theorem totals_are_rounded_sums (its : list CalculateMealItem) :
  Forall valid_item its -> Forall float64_item its -> Forall finite_item its ->
  calc_totals its = spec_totals its /\ nonneg_totals (calc_totals its).
Proof.
  intros Hv Hw Hf. split; [apply calc_totals_spec|].
  rewrite calc_totals_spec. unfold nonneg_totals, spec_totals, spec_total; cbn.
  assert (H : Forall (fun it => valid_item it /\ float64_item it /\ finite_item it) its).
  { rewrite !Forall_forall in *. auto. }
  repeat split; apply round2_ge0, sum_ge0; try reflexivity;
    (eapply Forall_impl; [exact H|]);
    intros it ((? & ? & ? & ? & ?) & (? & ? & ? & ? & ?) & (? & ? & ? & ? & ?)); auto.
Qed.

Lemma totals_are_rounded_sums_witness :
  calc_totals [rice] = spec_totals [rice] /\ nonneg_totals (calc_totals [rice]).
Proof.
  apply (totals_are_rounded_sums [rice]); repeat constructor.
Defined.

(** *** One item of a hundred grams *)

Lemma hundredth_of_hundred : fdiv hundred hundred = one.
Proof. reflexivity. Qed.

Lemma fmul_one (x : float) : is_float64 x -> fmul x one = x.
Proof.
  destruct x as [[]|[]| |s m e]; try reflexivity.
  intros [Hc He]%float64_bounded.
  unfold fmul, one, SFmul. rewrite xorb_false_r.
  rewrite Pos2Z.inj_mul. change (Zpos 4503599627370496) with (2 ^ 52).
  change (e + -52) with (e - 52).
  rewrite binary_round_aux_pow2 by (assumption || lia).
  apply Z.leb_le in He. rewrite He. reflexivity.
Qed.

Lemma fadd_zero_l (x : float) :
  fadd zero x = match x with S754_zero true => zero | _ => x end.
Proof. destruct x as [[]|[]| |s m e]; reflexivity. Qed.

Lemma feqb_refl (x : float) : x <> S754_nan -> feqb x x = true.
Proof.
  destruct x as [s|[]| |[] m e]; try reflexivity; try congruence; intros _;
    unfold feqb, SFeqb, SFcompare; rewrite Z.compare_refl, Pos.compare_cont_refl;
    reflexivity.
Qed.

Lemma round2_not_nan (x : float) : x <> S754_nan -> round2 x <> S754_nan.
Proof.
  destruct x as [s|s| |s m e]; try (intros; assumption || discriminate).
  intros _. apply (rounded_not_nan s), of_cents_rounded.
Qed.

Lemma hundred_grams_total (c : float) :
  is_float64 c -> ge0 c = true ->
  same_rounded (round2 (fadd zero (fmul c (fdiv hundred hundred)))) c.
Proof.
  intros Hc Hge. rewrite hundredth_of_hundred, fmul_one, fadd_zero_l by assumption.
  assert (Hnan : c <> S754_nan) by (intros ->; discriminate).
  destruct c as [[]|s| |s m e]; split; try reflexivity; try congruence;
    intros; apply feqb_refl, round2_not_nan, Hnan.
Qed.

(** C6.  The totals of a single valid item of [100.0] grams are its four
    per-100g values rounded to two decimals: equal to them as floats
    compare, and the very same floats unless a value is the negative
    zero, which comes out as [0.0]. *)
Theorem single_item_of_100g (it : CalculateMealItem) :
  float64_item it -> valid_item it -> grams it = hundred ->
  same_rounded (calories (calc_totals [it])) (calories_per_100g it)
  /\ same_rounded (protein (calc_totals [it])) (protein_per_100g it)
  /\ same_rounded (carbs (calc_totals [it])) (carbs_per_100g it)
  /\ same_rounded (fat (calc_totals [it])) (fat_per_100g it).
Proof.
  intros (_ & Hc & Hp & Hb & Hf) (_ & Hc' & Hp' & Hb' & Hf') Hg.
  unfold calc_totals, calc_sums, round_totals; cbn [fold_left accumulate].
  unfold accumulate; cbn [calories protein carbs fat zero_totals]. rewrite Hg.
  repeat split; apply hundred_grams_total; assumption.
Qed.

Lemma single_item_of_100g_witness :
  let it := {| name := "Rice"; grams := hundred;
               calories_per_100g := of_pos 130; protein_per_100g := ratio 27 10;
               carbs_per_100g := of_pos 28; fat_per_100g := ratio 3 10 |} in
  same_rounded (calories (calc_totals [it])) (calories_per_100g it)
  /\ same_rounded (protein (calc_totals [it])) (protein_per_100g it)
  /\ same_rounded (carbs (calc_totals [it])) (carbs_per_100g it)
  /\ same_rounded (fat (calc_totals [it])) (fat_per_100g it).
Proof.
  apply single_item_of_100g; repeat split.
Defined.

(** *** The order of the items *)

Lemma fadd_comm (x y : float) : fadd x y = fadd y x.
Proof.
  destruct x as [[]|[]| |sx mx ex], y as [[]|[]| |sy my ey]; try reflexivity.
  unfold fadd, SFadd. rewrite (Z.min_comm ey ex), Z.add_comm. reflexivity.
Qed.

Lemma fadd_from_zero_swap (a b : float) :
  fadd (fadd zero a) b = fadd (fadd zero b) a.
Proof.
  rewrite !fadd_zero_l.
  destruct a as [[]|[]| |sa ma ea], b as [[]|[]| |sb mb eb];
    try reflexivity; apply fadd_comm.
Qed.

Lemma calc_totals_swap (a b : CalculateMealItem) :
  calc_totals [a; b] = calc_totals [b; a].
Proof.
  unfold calc_totals, calc_sums, round_totals; cbn [fold_left].
  unfold accumulate; cbn [calories protein carbs fat zero_totals].
  f_equal; f_equal; apply fadd_from_zero_swap.
Qed.

(** The accumulation starts from zero, so the first two items of a list
    of any length may change places. *)
Lemma first_two_any_order (a b : CalculateMealItem) (rest : list CalculateMealItem) :
  calc_totals (a :: b :: rest) = calc_totals (b :: a :: rest).
Proof.
  unfold calc_totals, calc_sums. cbn [fold_left]. do 2 f_equal.
  unfold accumulate; cbn [calories protein carbs fat zero_totals].
  f_equal; apply fadd_from_zero_swap.
Qed.

(** C5 (as stated).  Three valid items whose calories total 11.17 in one
    order and 11.18 in the reverse order. *)
Lemma order_changes_totals :
  Forall valid_item [oil; jam; nut]
  /\ Permutation [oil; jam; nut] [nut; jam; oil]
  /\ calories (calc_totals [oil; jam; nut]) = ratio 1117 100
  /\ calories (calc_totals [nut; jam; oil]) = ratio 1118 100
  /\ calc_totals [oil; jam; nut] <> calc_totals [nut; jam; oil].
Proof.
  split; [repeat constructor|]. split.
  - apply (Permutation_rev [oil; jam; nut]).
  - split; [reflexivity|]. split; [reflexivity|].
    intros H. apply (f_equal calories) in H. vm_compute in H. discriminate.
Qed.

(** C5 (amended).  A list of at most two items and any permutation of it
    aggregate to identical totals: the addition of floats commutes.  (It
    does not associate, so the totals of three items depend on their
    order.) *)
Theorem two_items_any_order (its its' : list CalculateMealItem) :
  Permutation its its' -> (length its <= 2)%nat ->
  calc_totals its = calc_totals its'.
Proof.
  intros Hp Hlen.
  destruct its as [|a [|b [|c its]]]; cbn in Hlen; [| | |lia].
  - apply Permutation_nil in Hp as ->. reflexivity.
  - apply Permutation_length_1_inv in Hp as ->. reflexivity.
  - apply Permutation_length_2_inv in Hp as [->| ->];
      [reflexivity | apply calc_totals_swap].
Qed.

Lemma two_items_any_order_witness :
  calc_totals [oil; jam] = calc_totals [jam; oil].
Proof.
  apply two_items_any_order; [apply perm_swap | cbn; lia].
Defined.


(** *** Doubling the quantities *)

Lemma rne_div_bounds (a d : Z) :
  0 < d ->
  d * (2 * rne_div a d - 1) <= 2 * a <= d * (2 * rne_div a d + 1).
Proof.
  intros Hd. unfold rne_div.
  pose proof (Z.div_mod a d ltac:(lia)) as Ha.
  pose proof (Z.mod_pos_bound a d Hd) as Hr.
  destruct (Z.compare_spec (2 * (a mod d)) d) as [E|E|E].
  - destruct (Z.even (a / d)); nia.
  - nia.
  - nia.
Qed.

Lemma cents_eq (m : positive) (e : Z) :
  cents m e = if e <? 0 then rne_div (Zpos m * 100) (2 ^ (- e))
              else Zpos m * 100 * 2 ^ e.
Proof. destruct e; reflexivity. Qed.

Lemma cents_nonneg (m : positive) (e : Z) : 0 <= cents m e.
Proof.
  rewrite cents_eq. destruct (Z.ltb_spec e 0).
  - assert (Hd : 0 < 2 ^ (- e)) by (apply Z.pow_pos_nonneg; lia).
    pose proof (rne_div_bounds (Zpos m * 100) (2 ^ (- e)) Hd). nia.
  - assert (0 <= 2 ^ e) by (apply Z.pow_nonneg; lia). nia.
Qed.

Lemma cents_double (m : positive) (e : Z) :
  Z.abs (cents m (e + 1) - 2 * cents m e) <= 1.
Proof.
  rewrite !cents_eq.
  destruct (Z.ltb_spec e 0) as [He|He]; destruct (Z.ltb_spec (e + 1) 0) as [He'|He'];
    try lia.
  - replace (- e) with (Z.succ (- (e + 1))) by lia.
    rewrite Z.pow_succ_r by lia.
    set (d := 2 ^ (- (e + 1))).
    assert (Hd : 0 < d) by (apply Z.pow_pos_nonneg; lia).
    pose proof (rne_div_bounds (Zpos m * 100) d Hd).
    pose proof (rne_div_bounds (Zpos m * 100) (2 * d) ltac:(lia)).
    nia.
  - assert (e = -1) as -> by lia.
    change (2 ^ (- -1)) with 2. change (-1 + 1) with 0.
    pose proof (rne_div_bounds (Zpos m * 100) 2 ltac:(lia)).
    rewrite Z.pow_0_r. lia.
  - rewrite Z.pow_add_r by lia. change (2 ^ 1) with 2. lia.
Qed.

Lemma fmul_two (x : float) (k : Z) :
  - 1074 <= k -> normal_from k x -> fmul two x = scale2 x.
Proof.
  destruct x as [s|s| |[] m e]; try contradiction.
  intros Hk (Hd & Hlo & Hhi).
  unfold fmul, two, SFmul, scale2. cbn [xorb].
  rewrite Pos2Z.inj_mul, Z.mul_comm. change (Zpos 4503599627370496) with (2 ^ 52).
  replace (-51 + e) with (e + 1 - 52) by lia.
  apply binary_round_aux_pow2; [lia|].
  rewrite Hd. range.
Qed.

Lemma scale2_normal (x : float) (k : Z) :
  normal_from k x -> is_finite (scale2 x) = true ->
  exists m e, x = S754_finite false m e /\ scale2 x = S754_finite false m (e + 1)
              /\ Zpos (digits2_pos m) = prec /\ k <= e /\ e + 1 <= emax - prec.
Proof.
  destruct x as [s|s| |[] m e]; try contradiction.
  intros (Hd & Hlo & Hhi). cbn [scale2].
  destruct (Z.leb_spec (e + 1) (emax - prec)); [|discriminate].
  intros _. exists m, e. auto.
Qed.

(** [grams / 100.0] follows the doubling of the quantity. *)
Lemma fdiv_hundred_scale2 (g : float) (k : Z) :
  - 1067 <= k -> normal_from k g ->
  normal_from (k - 7) (fdiv g hundred)
  /\ (is_finite (fdiv (scale2 g) hundred) = true ->
      fdiv (scale2 g) hundred = scale2 (fdiv g hundred)).
Proof.
  intros Hk Hg.
  destruct g as [s|s| |[] m e]; try contradiction.
  destruct Hg as (Hd & Hlo & Hhi).
  destruct (SFdiv_normal prec emax false false m 7036874417766400 prec_pos Hd eq_refl)
    as (m' & d & Hm' & Hdd & Hall).
  assert (E0 : fdiv (S754_finite false m e) hundred = S754_finite false m' (e + 46 + d)).
  { unfold fdiv, hundred. rewrite Hall.
    - replace (e - -46 + d) with (e + 46 + d) by lia. cbn [xorb].
      destruct (Z.leb_spec (e + 46 + d) (emax - prec)); [reflexivity|].
      range.
    - range. }
  split.
  - rewrite E0. cbn [normal_from]. range.
  - cbn [scale2]. destruct (Z.leb_spec (e + 1) (emax - prec)); [|discriminate].
    intros _. rewrite E0. cbn [scale2].
    unfold fdiv, hundred. rewrite Hall.
    + replace (e + 1 - -46 + d) with (e + 46 + d + 1) by lia. cbn [xorb].
      reflexivity.
    + range.
Qed.

(** The contribution of a nutrient follows the doubling of the factor. *)
Lemma fmul_scale2 (c f : float) (kc kf : Z) :
  - 1074 <= kc + kf + 52 ->
  zero_or_normal kc c -> normal_from kf f ->
  is_finite (fmul c (scale2 f)) = true ->
  fmul c (scale2 f) = scale2 (fmul c f)
  /\ zero_or_normal (-1074) (fmul c f).
Proof.
  intros Hk Hc Hf.
  destruct f as [s|s| |[] mf ef]; try contradiction.
  destruct Hf as (Hdf & Hlof & Hhif).
  destruct Hc as [(s & ->)|Hc].
  - cbn [scale2]. destruct (Z.leb_spec (ef + 1) (emax - prec)); [|discriminate].
    intros _. split; [reflexivity|]. left. eexists. reflexivity.
  - destruct c as [s|s| |[] mc ec]; try contradiction.
    destruct Hc as (Hdc & Hloc & Hhic).
    destruct (SFmul_normal prec emax false false mc mf prec_pos Hdc Hdf)
      as (m' & d & Hm' & Hdd & Hall).
    assert (R0 : SpecFloat.emin prec emax <= ec + ef + prec - 1).
    { range. }
    assert (R1 : SpecFloat.emin prec emax <= ec + (ef + 1) + prec - 1).
    { range. }
    pose proof (Hall ec ef R0) as E0.
    pose proof (Hall ec (ef + 1) R1) as E1.
    cbn [xorb] in E0, E1.
    fold (fmul (S754_finite false mc ec) (S754_finite false mf ef)) in E0.
    fold (fmul (S754_finite false mc ec) (S754_finite false mf (ef + 1))) in E1.
    cbn [scale2]. destruct (Z.leb_spec (ef + 1) (emax - prec)); [|discriminate].
    rewrite E1, E0.
    replace (ec + (ef + 1) + d) with (ec + ef + d + 1) by lia.
    destruct (Z.leb_spec (ec + ef + d + 1) (emax - prec)); [|discriminate].
    intros _. destruct (Z.leb_spec (ec + ef + d) (emax - prec)); [|lia].
    cbn [scale2]. destruct (Z.leb_spec (ec + ef + d + 1) (emax - prec)); [|lia].
    split; [reflexivity|]. right. cbn [normal_from].
    range.
Qed.

(** The running sum follows the doubling of both its operands. *)
Lemma fadd_scale2 (a p : float) :
  a = zero \/ normal_from (-1074) a -> zero_or_normal (-1074) p ->
  is_finite (fadd (scale2 a) (scale2 p)) = true ->
  fadd (scale2 a) (scale2 p) = scale2 (fadd a p)
  /\ (fadd a p = zero \/ normal_from (-1074) (fadd a p)).
Proof.
  intros [->|Ha] [(s & ->)|Hp].
  - intros _. destruct s; split; auto.
  - destruct p as [s|s| |[] mp ep]; try contradiction.
    intros _. split; [|right; exact Hp].
    unfold fadd, zero. cbn [SFadd scale2].
    destruct (ep + 1 <=? emax - prec); reflexivity.
  - destruct a as [s'|s'| |[] ma ea]; try contradiction.
    intros _. split; [|right; exact Ha].
    unfold fadd. cbn [SFadd scale2].
    destruct (ea + 1 <=? emax - prec); reflexivity.
  - destruct a as [s'|s'| |[] ma ea]; try contradiction.
    destruct p as [s|s| |[] mp ep]; try contradiction.
    destruct Ha as (Hda & Hloa & Hhia). destruct Hp as (Hdp & Hlop & Hhip).
    destruct (SFadd_normal prec emax ma mp ea ep prec_pos Hda)
      as (m' & d & Hm' & Hd & Hall).
    assert (R0 : SpecFloat.emin prec emax <= Z.min ea ep + 0).
    { range. }
    assert (R1 : SpecFloat.emin prec emax <= Z.min ea ep + 1).
    { range. }
    pose proof (Hall 0 R0) as E0. pose proof (Hall 1 R1) as E1.
    rewrite !Z.add_0_r in E0.
    fold (fadd (S754_finite false ma ea) (S754_finite false mp ep)) in E0.
    fold (fadd (S754_finite false ma (ea + 1)) (S754_finite false mp (ep + 1))) in E1.
    cbn [scale2].
    destruct (Z.leb_spec (ea + 1) (emax - prec));
      [|destruct (ep + 1 <=? emax - prec); discriminate].
    destruct (Z.leb_spec (ep + 1) (emax - prec)); [|discriminate].
    rewrite E1, E0.
    replace (Z.min ea ep + 1 + d) with (Z.min ea ep + d + 1) by lia.
    destruct (Z.leb_spec (Z.min ea ep + d + 1) (emax - prec)); [|discriminate].
    intros _. destruct (Z.leb_spec (Z.min ea ep + d) (emax - prec)); [|lia].
    cbn [scale2]. destruct (Z.leb_spec (Z.min ea ep + d + 1) (emax - prec)); [|lia].
    split; [reflexivity|]. right. cbn [normal_from]. range.
Qed.

Lemma fadd_finite_inv (x y : float) :
  is_finite (fadd x y) = true -> is_finite x = true /\ is_finite y = true.
Proof.
  destruct x as [[]|[]| |sx mx ex], y as [[]|[]| |sy my ey];
    cbn; auto; discriminate.
Qed.

Lemma fmul_finite_inv (x y : float) :
  is_finite (fmul x y) = true -> is_finite x = true /\ is_finite y = true.
Proof.
  destruct x as [[]|[]| |sx mx ex], y as [[]|[]| |sy my ey];
    cbn; auto; discriminate.
Qed.

Lemma fold_fadd_finite_inv (l : list float) (x : float) :
  is_finite (fold_left fadd l x) = true -> is_finite x = true.
Proof.
  revert x. induction l as [|y l IH]; intros x; [auto|].
  cbn [fold_left]. intros H. apply IH, fadd_finite_inv in H. tauto.
Qed.

Lemma round2_finite_inv (x : float) :
  is_finite (round2 x) = true -> is_finite x = true.
Proof. destruct x; auto. Qed.

(** The accumulated sum of one nutrient over the doubled items is the
    sum over the items with its exponent raised by one. *)
Lemma sum_scale2 (per_100g : CalculateMealItem -> float)
    (its : list CalculateMealItem) (acc : float) :
  (forall it, per_100g (double_grams it) = per_100g it) ->
  acc = zero \/ normal_from (-1074) acc ->
  Forall (fun it => normal_from (-552) (grams it)
                    /\ zero_or_normal (-552) (per_100g it)) its ->
  let term it := fmul (per_100g it) (fdiv (grams it) hundred) in
  is_finite (fold_left fadd (map term (map double_grams its)) (scale2 acc)) = true ->
  fold_left fadd (map term (map double_grams its)) (scale2 acc)
  = scale2 (fold_left fadd (map term its) acc)
  /\ (fold_left fadd (map term its) acc = zero
      \/ normal_from (-1074) (fold_left fadd (map term its) acc)).
Proof.
  intros Hper Hacc Hits term. revert acc Hacc.
  induction Hits as [|it its (Hg & Hc) _ IH]; intros acc Hacc Hfin.
  - split; [reflexivity|exact Hacc].
  - cbn [map fold_left] in *.
    assert (Et : term (double_grams it)
                 = fmul (per_100g it) (fdiv (scale2 (grams it)) hundred)).
    { unfold term. rewrite Hper. cbn [double_grams grams].
      rewrite (fmul_two (grams it) (-552)) by (assumption || lia). reflexivity. }
    rewrite Et in *.
    pose proof (fold_fadd_finite_inv _ _ Hfin) as Hfin1.
    apply fadd_finite_inv in Hfin1 as [_ Hfinp].
    pose proof (fmul_finite_inv _ _ Hfinp) as [_ Hfinf].
    destruct (fdiv_hundred_scale2 (grams it) (-552) ltac:(lia) Hg) as [Hf Ef].
    specialize (Ef Hfinf). rewrite Ef in *.
    destruct (fmul_scale2 (per_100g it) (fdiv (grams it) hundred) (-552) (-552 - 7)
                ltac:(lia) Hc Hf Hfinp) as [Ep Hp].
    rewrite Ep in *.
    pose proof (fold_fadd_finite_inv _ _ Hfin) as Hfin1.
    destruct (fadd_scale2 acc (term it) Hacc Hp Hfin1) as [Ea Ha].
    fold (term it) in Hfin |- *. rewrite Ea in *.
    apply IH; assumption.
Qed.

Lemma round2_scale2 (t : float) :
  t = zero \/ normal_from (-1074) t -> is_finite (scale2 t) = true ->
  doubled_within_a_cent (round2 t) (round2 (scale2 t)).
Proof.
  intros [->|Ht] Hfin.
  - exists 0, 0. repeat split; lia.
  - destruct (scale2_normal t _ Ht Hfin) as (m & e & -> & -> & _).
    exists (cents m e), (cents m (e + 1)). split; [apply cents_nonneg|].
    split; [reflexivity|]. split; [reflexivity|]. apply cents_double.
Qed.

Lemma total_scale2 (per_100g : CalculateMealItem -> float)
    (its : list CalculateMealItem) :
  (forall it, per_100g (double_grams it) = per_100g it) ->
  Forall (fun it => normal_from (-552) (grams it)
                    /\ zero_or_normal (-552) (per_100g it)) its ->
  is_finite (spec_total per_100g (map double_grams its)) = true ->
  doubled_within_a_cent (spec_total per_100g its)
    (spec_total per_100g (map double_grams its)).
Proof.
  intros Hper Hits Hfin. unfold spec_total in *.
  apply round2_finite_inv in Hfin.
  destruct (sum_scale2 per_100g its zero Hper (or_introl eq_refl) Hits Hfin) as [E H].
  change (scale2 zero) with zero in E. rewrite E in *.
  apply round2_scale2; assumption.
Qed.

(** C7 (as stated).  The largest float is a valid quantity; its double
    is an infinity, and the totals of water, zero at first, are NaN once
    the quantity is doubled: not twice zero within any tolerance. *)
Lemma doubling_overflows :
  valid_item sea /\ float64_item sea /\ finite_item sea
  /\ valid_item (double_grams sea)
  /\ calories (calc_totals [sea]) = zero
  /\ calories (calc_totals (map double_grams [sea])) = S754_nan
  /\ ~ doubled_within_a_cent (calories (calc_totals [sea]))
         (calories (calc_totals (map double_grams [sea]))).
Proof.
  do 6 (split; [repeat split|]).
  intros (n & n' & _ & _ & H & _).
  apply (rounded_not_nan false (of_cents false n')); [apply of_cents_rounded|].
  symmetry. exact H.
Qed.

(** C7 (amended).  On items whose quantities are at least [2 ^ -500] and
    whose nutrient values are zero or at least [2 ^ -500], as long as
    the totals of the doubled list are finite, doubling every quantity
    doubles every total to within the rounding: each total of the
    doubled list is the float nearest to [n'] hundredths where the total
    of the list is the float nearest to [n] hundredths and [n'] is
    [2 * n] give or take one. *)
Theorem doubled_grams_double_totals (its : list CalculateMealItem) :
  Forall moderate_item its ->
  finite_totals (calc_totals (map double_grams its)) ->
  doubled_totals_within_a_cent (calc_totals its) (calc_totals (map double_grams its)).
Proof.
  intros Hits. rewrite !calc_totals_spec.
  intros (Hc & Hp & Hb & Hf).
  unfold doubled_totals_within_a_cent, spec_totals in *.
  cbn [calories protein carbs fat] in *.
  repeat split; apply total_scale2; try assumption; try reflexivity;
    (eapply Forall_impl; [exact Hits|]);
    intros it (? & ? & ? & ? & ?); auto.
Qed.

Lemma doubled_grams_double_totals_witness :
  doubled_totals_within_a_cent (calc_totals [rice]) (calc_totals (map double_grams [rice])).
Proof.
  apply (doubled_grams_double_totals [rice]).
  - repeat constructor; vm_compute; intros H; discriminate H.
  - repeat split.
Defined.

(** ** What validation lets through *)

Lemma field_Some (ok : float -> bool) (v : option float) (x : float) :
  field ok v = Some x <-> v = Some x /\ ok x = true.
Proof.
  unfold field. destruct v as [y|]; [|split; [discriminate|intros [? _]; discriminate]].
  destruct (ok y) eqn:E; split.
  - intros [= ->]. auto.
  - intros [[= ->] _]. reflexivity.
  - discriminate.
  - intros [[= ->] H]. congruence.
Qed.

Lemma validate_item_Some (r : RawItem) (it : CalculateMealItem) :
  validate_item r = Some it <-> r = raw_of it /\ valid_item it.
Proof.
  unfold validate_item, valid_item, raw_of. destruct r as [n g c p b f]; cbn. split.
  - destruct n as [n|]; cbn; [|discriminate].
    destruct (field gt0 g) as [g'|] eqn:Eg; cbn; [|discriminate].
    destruct (field ge0 c) as [c'|] eqn:Ec; cbn; [|discriminate].
    destruct (field ge0 p) as [p'|] eqn:Ep; cbn; [|discriminate].
    destruct (field ge0 b) as [b'|] eqn:Eb; cbn; [|discriminate].
    destruct (field ge0 f) as [f'|] eqn:Ef; cbn; [|discriminate].
    intros [= <-]. cbn.
    apply field_Some in Eg as [-> ?], Ec as [-> ?], Ep as [-> ?],
          Eb as [-> ?], Ef as [-> ?].
    auto 10.
  - intros [[= -> -> -> -> -> ->] (Hg & Hc & Hp & Hb & Hf)].
    cbn. unfold field. rewrite Hg, Hc, Hp, Hb, Hf. cbn.
    destruct it; reflexivity.
Qed.

Lemma mapM_validate_sound (l : list RawItem) (its : list CalculateMealItem) :
  mapM validate_item l = Some its -> l = map raw_of its /\ Forall valid_item its.
Proof.
  revert its. induction l as [|r l IH]; intros its; cbn.
  - intros [= <-]. split; [reflexivity|constructor].
  - destruct (validate_item r) as [it|] eqn:Er; cbn; [|discriminate].
    destruct (mapM validate_item l) as [its'|] eqn:El; cbn; [|discriminate].
    intros [= <-]. apply validate_item_Some in Er as [-> Hit].
    destruct (IH its' eq_refl) as [-> Hits'].
    split; [reflexivity|constructor; assumption].
Qed.

Lemma mapM_validate_complete (its : list CalculateMealItem) :
  Forall valid_item its -> mapM validate_item (map raw_of its) = Some its.
Proof.
  induction 1 as [|it its Hit _ IH]; [reflexivity|].
  cbn [map]. cbn. cbn in IH. rewrite IH.
  assert (E : validate_item (raw_of it) = Some it) by (apply validate_item_Some; auto).
  unfold raw_of in E. cbn in E |- *. rewrite E. reflexivity.
Qed.

Lemma validate_payload_sound (body : RawMealPayload) (payload : CalculateMealPayload) :
  validate_payload body = Some payload ->
  raw_items body = Some (map raw_of (items payload))
  /\ raw_payload_name body = payload_name payload
  /\ Forall valid_item (items payload).
Proof.
  destruct body as [l n], payload as [its n'].
  cbn [raw_items raw_payload_name items payload_name].
  unfold validate_payload; cbn.
  destruct l as [l|]; cbn; [|discriminate].
  destruct (mapM validate_item l) as [its'|] eqn:El; cbn; [|discriminate].
  intros [= <- <-]. apply mapM_validate_sound in El as [-> HF]. auto.
Qed.

Lemma validate_payload_complete (body : RawMealPayload) (payload : CalculateMealPayload) :
  raw_items body = Some (map raw_of (items payload)) ->
  raw_payload_name body = payload_name payload ->
  Forall valid_item (items payload) ->
  validate_payload body = Some payload.
Proof.
  destruct body as [l n], payload as [its n'].
  cbn [raw_items raw_payload_name items payload_name].
  intros -> -> HF. unfold validate_payload; cbn.
  pose proof (mapM_validate_complete its HF) as E. cbn in E. rewrite E. reflexivity.
Qed.

(** Validation of a meal body succeeds exactly on the bodies that hold
    the fields of valid line items, and yields those items, with their
    values and in their order, and the name as submitted. *)
Theorem validate_payload_Some (body : RawMealPayload) (payload : CalculateMealPayload) :
  validate_payload body = Some payload
  <-> raw_items body = Some (map raw_of (items payload))
      /\ raw_payload_name body = payload_name payload
      /\ Forall valid_item (items payload).
Proof.
  split.
  - apply validate_payload_sound.
  - intros (H1 & H2 & H3). apply validate_payload_complete; assumption.
Qed.

(** ** Which requests write, and what *)

Lemma run_post_meals_save (body : RawMealPayload) (st : Store) :
  (rejected (post_meals_save body) /\ writes (post_meals_save body) st = []
   /\ snd (run (post_meals_save body) st) = st)
  \/ exists payload it its,
       validate_payload body = Some payload /\ items payload = it :: its
       /\ writes (post_meals_save body) st
          = [("meal"%string, meal_doc payload (calc_totals (items payload)))]
       /\ run (post_meals_save body) st
          = (inr {| save_id := pretty (counter st);
                    save_totals := calc_totals (items payload) |},
             snd (create_document "meal"
                    (meal_doc payload (calc_totals (items payload))) st)).
Proof.
  unfold post_meals_save. destruct (validate_payload body) as [payload|] eqn:Ev.
  - unfold save_meal. destruct (items payload) as [|it its] eqn:Ei.
    + left. repeat split. eexists. reflexivity.
    + right. exists payload, it, its. rewrite Ei.
      repeat split; first [assumption|reflexivity].
  - left. repeat split. eexists. reflexivity.
Qed.

Lemma run_post_foods (body : RawFood) (st : Store) :
  (rejected (post_foods body) /\ writes (post_foods body) st = []
   /\ snd (run (post_foods body) st) = st)
  \/ exists payload,
       validate_food body = Some payload
       /\ writes (post_foods body) st = [("food"%string, food_doc payload)]
       /\ run (post_foods body) st
          = (inr (pretty (counter st)),
             snd (create_document "food" (food_doc payload) st)).
Proof.
  unfold post_foods. destruct (validate_food body) as [payload|] eqn:Ev.
  - right. exists payload. repeat split.
  - left. repeat split. eexists. reflexivity.
Qed.

Lemma run_post_meals_calculate (body : RawMealPayload) (st : Store) :
  writes (post_meals_calculate body) st = []
  /\ snd (run (post_meals_calculate body) st) = st.
Proof.
  unfold post_meals_calculate. destruct (validate_payload body) as [payload|].
  - unfold calculate_meal. destruct (items payload); split; reflexivity.
  - split; reflexivity.
Qed.

(** The calculation and the two listings never call [create_document]
    and leave the store as it is, whatever the request; a save hands the
    store at most one document, on the collection [meal], and the
    creation of a food at most one, on the collection [food]; a rejected
    request writes nothing. *)
Theorem only_save_and_create_write (py_str : value -> string) (st : Store) :
  (forall body, writes (post_meals_calculate body) st = []
                /\ snd (run (post_meals_calculate body) st) = st)
  /\ (forall query limit, writes (list_foods py_str query limit) st = []
                          /\ snd (run (list_foods py_str query limit) st) = st)
  /\ (forall limit, writes (list_meals py_str limit) st = []
                    /\ snd (run (list_meals py_str limit) st) = st)
  /\ (forall body,
        (rejected (post_meals_save body) /\ writes (post_meals_save body) st = []
         /\ snd (run (post_meals_save body) st) = st)
        \/ (~ rejected (post_meals_save body)
            /\ exists doc, writes (post_meals_save body) st = [("meal"%string, doc)]))
  /\ (forall body,
        (rejected (post_foods body) /\ writes (post_foods body) st = []
         /\ snd (run (post_foods body) st) = st)
        \/ (~ rejected (post_foods body)
            /\ exists doc, writes (post_foods body) st = [("food"%string, doc)])).
Proof.
  split; [intros body; apply run_post_meals_calculate|].
  split; [intros query limit; split; reflexivity|].
  split; [intros limit; split; reflexivity|].
  split.
  - intros body. destruct (run_post_meals_save body st)
      as [H|(payload & it & its & Hv & Hi & Hw & _)]; [left; exact H|].
    right. split; [|eauto].
    intros (e & He). rewrite He in Hw. discriminate Hw.
  - intros body. destruct (run_post_foods body st) as [H|(payload & Hv & Hw & _)];
      [left; exact H|].
    right. split; [|eauto].
    intros (e & He). rewrite He in Hw. discriminate Hw.
Qed.

Lemma run_on_working {A : Type} (p : prog A) (st : Store) :
  run_on working_gateway p st = (outcome_of (fst (run p st)), snd (run p st)).
Proof.
  revert st. induction p as [a|e|c doc k IH|c f l k IH]; intros st; cbn.
  - reflexivity.
  - reflexivity.
  - apply IH.
  - apply IH.
Qed.

Lemma run_on_post_meals_save (gw : Gateway) (body : RawMealPayload) (st : Store)
    (payload : CalculateMealPayload) :
  validate_payload body = Some payload -> items payload <> [] ->
  post_meals_save body
  = CreateDocument "meal" (meal_doc payload (calc_totals (items payload)))
      (fun meal_id => Ret {| save_id := meal_id;
                             save_totals := calc_totals (items payload) |})
  /\ run_on gw (post_meals_save body) st
     = match gw_create gw "meal" (meal_doc payload (calc_totals (items payload))) st with
       | inr (meal_id, st') =>
           (Answered {| save_id := meal_id;
                        save_totals := calc_totals (items payload) |}, st')
       | inl e => (StoreError e, st)
       end.
Proof.
  intros Hv Hne. unfold post_meals_save. rewrite Hv. unfold save_meal.
  destruct (items payload) as [|it its] eqn:Ei; [contradiction|].
  split; [reflexivity|]. cbn.
  destruct (gw_create gw _ _ st) as [e|[oid st']]; reflexivity.
Qed.

(** A save goes as the calculation does.  On the same body it raises,
    before any call of the store, exactly the errors the calculation
    raises.  Where the calculation returns totals, the save is one call
    of [create_document] on the collection [meal] and then the answer
    of whatever identifier the store gives with those very totals: on a
    gateway that may fail, it answers them when the call succeeds and
    ends in the store's error, with nothing answered and the store as
    it was, when the call fails.  And whenever a save answers, the
    calculation returns the totals it answers.  The calculation itself
    never calls the gateway. *)
Theorem save_agrees_with_calculate (body : RawMealPayload) :
  (forall e, post_meals_calculate body = Raise e <-> post_meals_save body = Raise e)
  /\ (forall resp, post_meals_calculate body = Ret resp ->
        exists doc,
          post_meals_save body
          = CreateDocument "meal" doc
              (fun meal_id => Ret {| save_id := meal_id;
                                     save_totals := calc_totals_of resp |})
          /\ forall gw st,
               run_on gw (post_meals_save body) st
               = match gw_create gw "meal" doc st with
                 | inr (meal_id, st') =>
                     (Answered {| save_id := meal_id;
                                  save_totals := calc_totals_of resp |}, st')
                 | inl e => (StoreError e, st)
                 end)
  /\ (forall gw st resp st',
        run_on gw (post_meals_save body) st = (Answered resp, st') ->
        post_meals_calculate body
        = Ret {| calc_name := raw_payload_name body;
                 calc_totals_of := save_totals resp |})
  /\ (forall gw st,
        snd (run_on gw (post_meals_calculate body) st) = st
        /\ forall e, fst (run_on gw (post_meals_calculate body) st) <> StoreError e).
Proof.
  destruct (validate_payload body) as [payload|] eqn:Ev.
  - pose proof (validate_payload_sound body payload Ev) as (_ & Hn & _).
    destruct (items payload) as [|it its] eqn:Ei.
    + assert (Hc : post_meals_calculate body = Raise no_items).
      { unfold post_meals_calculate, calculate_meal. rewrite Ev, Ei. reflexivity. }
      assert (Hs : post_meals_save body = Raise no_items).
      { unfold post_meals_save, save_meal. rewrite Ev, Ei. reflexivity. }
      rewrite Hc, Hs. split; [intros e; split; intros [= <-]; reflexivity|].
      split; [discriminate|].
      split; [discriminate|]. intros gw st. split; [reflexivity|discriminate].
    + assert (Hne : items payload <> []) by (rewrite Ei; discriminate).
      assert (Hc : post_meals_calculate body
                   = Ret {| calc_name := raw_payload_name body;
                            calc_totals_of := calc_totals (items payload) |}).
      { unfold post_meals_calculate, calculate_meal. rewrite Ev, Ei, Hn. reflexivity. }
      rewrite Hc.
      split.
      { intros e. split; [discriminate|].
        destruct (run_on_post_meals_save working_gateway body empty_store payload Ev Hne)
          as [-> _]. discriminate. }
      split.
      { intros resp [= <-]. cbn [calc_totals_of].
        exists (meal_doc payload (calc_totals (items payload))). split.
        - apply (run_on_post_meals_save working_gateway body empty_store payload Ev Hne).
        - intros gw st. apply (run_on_post_meals_save gw body st payload Ev Hne). }
      split; [|intros gw st; split; [reflexivity|discriminate]].
      intros gw st resp st' Hrun.
      destruct (run_on_post_meals_save gw body st payload Ev Hne) as [_ E].
      rewrite E in Hrun.
      destruct (gw_create gw _ _ st) as [e|[oid st2]]; [discriminate|].
      injection Hrun as <- _. reflexivity.
  - assert (Hc : post_meals_calculate body = Raise RequestValidationError).
    { unfold post_meals_calculate. rewrite Ev. reflexivity. }
    assert (Hs : post_meals_save body = Raise RequestValidationError).
    { unfold post_meals_save. rewrite Ev. reflexivity. }
    rewrite Hc, Hs. split; [intros e; split; intros [= <-]; reflexivity|].
    split; [discriminate|].
    split; [discriminate|]. intros gw st. split; [reflexivity|discriminate].
Qed.

(** ** What the store holds *)

Lemma name_or_default_nonempty (n : option string) (d : string) :
  d <> ""%string -> name_or_default n d <> ""%string.
Proof.
  intros Hd. unfold name_or_default. destruct n as [s|]; [|exact Hd].
  destruct (decide (s = ""%string)); assumption.
Qed.

Lemma food_doc_lookup (p : CreateFoodPayload) :
  let doc := food_doc p in
  doc !! "name"%string = Some (VStr (food_name p))
  /\ doc !! "calories_per_100g"%string = Some (VFloat (food_calories_per_100g p))
  /\ doc !! "protein_per_100g"%string = Some (VFloat (food_protein_per_100g p))
  /\ doc !! "carbs_per_100g"%string = Some (VFloat (food_carbs_per_100g p))
  /\ doc !! "fat_per_100g"%string = Some (VFloat (food_fat_per_100g p)).
Proof. unfold food_doc. repeat split; simplify_map_eq; reflexivity. Qed.

Lemma validate_food_Some (body : RawFood) (p : CreateFoodPayload) :
  validate_food body = Some p ->
  raw_food_name body = Some (food_name p)
  /\ raw_food_calories_per_100g body = Some (food_calories_per_100g p)
  /\ raw_food_protein_per_100g body = Some (food_protein_per_100g p)
  /\ raw_food_carbs_per_100g body = Some (food_carbs_per_100g p)
  /\ raw_food_fat_per_100g body = Some (food_fat_per_100g p)
  /\ ge0 (food_calories_per_100g p) = true /\ ge0 (food_protein_per_100g p) = true
  /\ ge0 (food_carbs_per_100g p) = true /\ ge0 (food_fat_per_100g p) = true.
Proof.
  unfold validate_food. destruct body as [n c q b f]; cbn.
  destruct n as [n|]; cbn; [|discriminate].
  destruct (field ge0 c) as [c'|] eqn:Ec; cbn; [|discriminate].
  destruct (field ge0 q) as [q'|] eqn:Eq; cbn; [|discriminate].
  destruct (field ge0 b) as [b'|] eqn:Eb; cbn; [|discriminate].
  destruct (field ge0 f) as [f'|] eqn:Ef; cbn; [|discriminate].
  intros [= <-]. cbn.
  apply field_Some in Ec as [-> ?], Eq as [-> ?], Eb as [-> ?], Ef as [-> ?].
  auto 10.
Qed.

Lemma stored_meal_doc (payload : CalculateMealPayload) (oid : string) :
  items payload <> [] -> Forall valid_item (items payload) ->
  stored_meal (<[ "_id"%string := VObjectId oid ]>
                 (meal_doc payload (calc_totals (items payload)))).
Proof.
  intros Hne Hv.
  destruct (meal_doc_lookup payload (calc_totals (items payload)))
    as (Hn & Hi & Hc & Hp & Hb & Hf).
  exists (name_or_default (payload_name payload) "Meal"), (items payload).
  rewrite !lookup_insert_ne by discriminate. rewrite lookup_insert_eq.
  repeat split; try assumption; eauto.
  apply name_or_default_nonempty. discriminate.
Qed.

Lemma stored_food_doc (body : RawFood) (p : CreateFoodPayload) (oid : string) :
  validate_food body = Some p ->
  stored_food (<[ "_id"%string := VObjectId oid ]> (food_doc p)).
Proof.
  intros (_ & _ & _ & _ & _ & Hc & Hp & Hb & Hf)%validate_food_Some.
  destruct (food_doc_lookup p) as (Ln & Lc & Lp & Lb & Lf).
  exists (food_name p), (food_calories_per_100g p), (food_protein_per_100g p),
    (food_carbs_per_100g p), (food_fat_per_100g p).
  rewrite !lookup_insert_ne by discriminate. rewrite lookup_insert_eq.
  repeat split; try assumption; eauto.
Qed.

Lemma serve_keeps (py_str : value -> string) (r : request) (st : Store) :
  store_holds st -> store_holds (serve py_str r st).
Proof.
  intros (Hm & Hf & Ho). destruct r as [body|query limit|body|body|limit];
    cbn [serve]; try (split; [|split]; assumption).
  - destruct (run_post_foods body st) as [(_ & _ & ->)|(p & Hv & _ & ->)];
      [split; [|split]; assumption|].
    cbn [snd]. split; [|split].
    + rewrite collection_of_create_ne by discriminate. exact Hm.
    + rewrite collection_of_create_eq. apply Forall_app. split; [exact Hf|].
      repeat constructor. eapply stored_food_doc, Hv.
    + intros c H1 H2. rewrite collection_of_create_ne by congruence. auto.
  - destruct (run_post_meals_calculate body st) as [_ ->].
    split; [|split]; assumption.
  - destruct (run_post_meals_save body st)
      as [(_ & _ & ->)|(p & it & its & Hv & Hi & _ & ->)];
      [split; [|split]; assumption|].
    cbn [snd]. apply validate_payload_sound in Hv as (_ & _ & Hvalid).
    split; [|split].
    + rewrite collection_of_create_eq. apply Forall_app. split; [exact Hm|].
      repeat constructor. apply stored_meal_doc; [rewrite Hi; discriminate|assumption].
    + rewrite collection_of_create_ne by discriminate. exact Hf.
    + intros c H1 H2. rewrite collection_of_create_ne by congruence. auto.
Qed.

Lemma empty_store_holds : store_holds empty_store.
Proof.
  unfold store_holds, collection_of, empty_store; cbn. split; [|split].
  - rewrite lookup_empty. constructor.
  - rewrite lookup_empty. constructor.
  - intros c _ _. rewrite lookup_empty. reflexivity.
Qed.

Lemma serve_all_keeps (py_str : value -> string) (rs : list request) (st : Store) :
  store_holds st -> store_holds (serve_all py_str rs st).
Proof.
  unfold serve_all. revert st.
  induction rs as [|r rs IH]; intros st H; [exact H|].
  cbn [fold_left]. apply IH. apply (serve_keeps py_str r st), H.
Qed.

(** Whatever requests are served from the empty store on, every document
    of the collection [meal] has a name that is not empty, at least one
    line item, valid items, the totals of those items and an identifier;
    every document of the collection [food] has a name, four nutrient
    values that are at least zero and an identifier; and no other
    collection holds anything. *)
Theorem served_store_holds (py_str : value -> string) (rs : list request) :
  let st := serve_all py_str rs empty_store in
  Forall stored_meal (collection_of st "meal")
  /\ Forall stored_food (collection_of st "food")
  /\ forall c : string, c <> "meal"%string -> c <> "food"%string ->
       collection_of st c = [].
Proof.
  exact (serve_all_keeps py_str rs empty_store empty_store_holds).
Qed.

(** ** The stored documents and the collection schemas *)

Lemma required_float (float_of_str : string -> option float) (ok : float -> bool)
    (x : float) :
  ok x = true -> required (as_float float_of_str) ok (Some (VFloat x)) = Some x.
Proof. intros H. unfold required; cbn. rewrite H. reflexivity. Qed.

Lemma Food_validate_fields (float_of_str : string -> option float) (d : document)
    (n : string) (c p b f : float) :
  d !! "name"%string = Some (VStr n) ->
  d !! "calories_per_100g"%string = Some (VFloat c) -> ge0 c = true ->
  d !! "protein_per_100g"%string = Some (VFloat p) -> ge0 p = true ->
  d !! "carbs_per_100g"%string = Some (VFloat b) -> ge0 b = true ->
  d !! "fat_per_100g"%string = Some (VFloat f) -> ge0 f = true ->
  Food_validate float_of_str d
  = Some {| Food_name := n; Food_calories_per_100g := c;
            Food_protein_per_100g := p; Food_carbs_per_100g := b;
            Food_fat_per_100g := f |}.
Proof.
  intros Ln Lc Hc Lp Hp Lb Hb Lf Hf. unfold Food_validate.
  rewrite Ln, Lc, Lp, Lb, Lf.
  rewrite !required_float by assumption. reflexivity.
Qed.

(** The [Food] that [create_food] builds from a validated payload
    (line 100) is always built: the constraints of [schemas.Food] are
    those [CreateFoodPayload] has checked, so the construction raises no
    validation error, and the model holds the payload's values. *)
Theorem create_food_builds_Food (float_of_str : string -> option float)
    (body : RawFood) (p : CreateFoodPayload) :
  validate_food body = Some p ->
  Food_validate float_of_str (food_doc p) = Some (Food_of p)
  /\ raw_food_name body = Some (Food_name (Food_of p))
  /\ raw_food_calories_per_100g body = Some (Food_calories_per_100g (Food_of p))
  /\ raw_food_protein_per_100g body = Some (Food_protein_per_100g (Food_of p))
  /\ raw_food_carbs_per_100g body = Some (Food_carbs_per_100g (Food_of p))
  /\ raw_food_fat_per_100g body = Some (Food_fat_per_100g (Food_of p)).
Proof.
  intros (Hn & Rc & Rp & Rb & Rf & Hc & Hp & Hb & Hf)%validate_food_Some.
  destruct (food_doc_lookup p) as (Ln & Lc & Lp & Lb & Lf).
  split; [|cbn; auto].
  apply Food_validate_fields; assumption.
Qed.

Lemma create_food_builds_Food_witness :
  let body := {| raw_food_name := Some "Rice"%string;
                 raw_food_calories_per_100g := Some (of_pos 130);
                 raw_food_protein_per_100g := Some (ratio 27 10);
                 raw_food_carbs_per_100g := Some (of_pos 28);
                 raw_food_fat_per_100g := Some (ratio 3 10) |} in
  let p := {| food_name := "Rice"; food_calories_per_100g := of_pos 130;
              food_protein_per_100g := ratio 27 10;
              food_carbs_per_100g := of_pos 28;
              food_fat_per_100g := ratio 3 10 |} in
  Food_validate (fun _ => None) (food_doc p) = Some (Food_of p)
  /\ raw_food_name body = Some (Food_name (Food_of p))
  /\ raw_food_calories_per_100g body = Some (Food_calories_per_100g (Food_of p))
  /\ raw_food_protein_per_100g body = Some (Food_protein_per_100g (Food_of p))
  /\ raw_food_carbs_per_100g body = Some (Food_carbs_per_100g (Food_of p))
  /\ raw_food_fat_per_100g body = Some (Food_fat_per_100g (Food_of p)).
Proof.
  intros body p. apply (create_food_builds_Food (fun _ => None) body p).
  reflexivity.
Defined.

(** An accepted creation of a food answers with the identifier under
    which exactly one document is appended to the collection [food]:
    the submitted name and nutrient values under the fields' names, and
    that identifier under [_id].  Every other collection is as it
    was. *)
Theorem create_food_persists (body : RawFood) (p : CreateFoodPayload) (st : Store) :
  validate_food body = Some p ->
  exists (food_id : string) (st' : Store) (doc : document),
    run (post_foods body) st = (inr food_id, st')
    /\ collection_of st' "food" = collection_of st "food" ++ [doc]
    /\ doc !! "_id"%string = Some (VObjectId food_id)
    /\ VStr <$> raw_food_name body = doc !! "name"%string
    /\ VFloat <$> raw_food_calories_per_100g body = doc !! "calories_per_100g"%string
    /\ VFloat <$> raw_food_protein_per_100g body = doc !! "protein_per_100g"%string
    /\ VFloat <$> raw_food_carbs_per_100g body = doc !! "carbs_per_100g"%string
    /\ VFloat <$> raw_food_fat_per_100g body = doc !! "fat_per_100g"%string
    /\ (forall c : string, c <> "food"%string ->
          collection_of st' c = collection_of st c).
Proof.
  intros Hv.
  destruct (run_post_foods body st) as [([e He] & _)|(p' & Hv' & _ & Hrun)].
  { unfold post_foods in He. rewrite Hv in He. discriminate. }
  assert (p' = p) as -> by congruence.
  apply validate_food_Some in Hv as (Hn & Rc & Rp & Rb & Rf & _).
  destruct (food_doc_lookup p) as (Ln & Lc & Lp & Lb & Lf).
  exists (pretty (counter st)), (snd (create_document "food" (food_doc p) st)),
    (<[ "_id"%string := VObjectId (pretty (counter st)) ]> (food_doc p)).
  split; [exact Hrun|]. split; [apply collection_of_create_eq|].
  rewrite lookup_insert_eq. rewrite !lookup_insert_ne by discriminate.
  rewrite Hn, Rc, Rp, Rb, Rf, Ln, Lc, Lp, Lb, Lf. cbn.
  repeat split. intros c Hc. apply collection_of_create_ne. congruence.
Qed.

Lemma create_food_persists_witness :
  let body := {| raw_food_name := Some "Rice"%string;
                 raw_food_calories_per_100g := Some (of_pos 130);
                 raw_food_protein_per_100g := Some (ratio 27 10);
                 raw_food_carbs_per_100g := Some (of_pos 28);
                 raw_food_fat_per_100g := Some (ratio 3 10) |} in
  exists (food_id : string) (st' : Store) (doc : document),
    run (post_foods body) empty_store = (inr food_id, st')
    /\ collection_of st' "food" = collection_of empty_store "food" ++ [doc]
    /\ doc !! "_id"%string = Some (VObjectId food_id)
    /\ VStr <$> raw_food_name body = doc !! "name"%string
    /\ VFloat <$> raw_food_calories_per_100g body = doc !! "calories_per_100g"%string
    /\ VFloat <$> raw_food_protein_per_100g body = doc !! "protein_per_100g"%string
    /\ VFloat <$> raw_food_carbs_per_100g body = doc !! "carbs_per_100g"%string
    /\ VFloat <$> raw_food_fat_per_100g body = doc !! "fat_per_100g"%string
    /\ (forall c : string, c <> "food"%string ->
          collection_of st' c = collection_of empty_store c).
Proof.
  intros body.
  apply (create_food_persists body
           {| food_name := "Rice"; food_calories_per_100g := of_pos 130;
              food_protein_per_100g := ratio 27 10;
              food_carbs_per_100g := of_pos 28;
              food_fat_per_100g := ratio 3 10 |} empty_store).
  reflexivity.
Defined.

Lemma stored_food_validates (float_of_str : string -> option float) (d : document) :
  stored_food d -> exists food, Food_validate float_of_str d = Some food
                                /\ food_in food d.
Proof.
  intros (n & c & p & b & f & Ln & Lc & Hc & Lp & Hp & Lb & Hb & Lf & Hf & _).
  eexists. split.
  - apply (Food_validate_fields float_of_str d n c p b f); assumption.
  - unfold food_in; cbn. auto.
Qed.

(** Whatever requests are served from the empty store on, every document
    of the collection [food] conforms to [schemas.Food]: read back from
    the store, with its identifier, it validates, to the model of the
    values it holds. *)
Theorem served_foods_conform (float_of_str : string -> option float)
    (py_str : value -> string) (rs : list request) :
  Forall (fun d => exists food, Food_validate float_of_str d = Some food
                                /\ food_in food d)
    (collection_of (serve_all py_str rs empty_store) "food").
Proof.
  destruct (serve_all_keeps py_str rs empty_store empty_store_holds) as (_ & Hf & _).
  eapply Forall_impl; [exact Hf|].
  intros d. apply stored_food_validates.
Qed.

Lemma MealItem_validate_model_dump (float_of_str : string -> option float)
    (it : CalculateMealItem) :
  MealItem_validate float_of_str (model_dump it) = None.
Proof. reflexivity. Qed.

Lemma stored_meal_fails (float_of_str : string -> option float) (d : document) :
  stored_meal d -> Meal_validate float_of_str d = None.
Proof.
  intros (n & its & Ln & _ & Li & Hne & _).
  unfold Meal_validate. rewrite Ln, Li. cbn.
  destruct its as [|it its]; [contradiction|]. reflexivity.
Qed.

(** No line item as the payload dumps it is a [schemas.MealItem], which
    requires [quantity_g], a field the dump does not have (it has
    [grams]).  So whatever requests are served from the empty store on,
    no document of the collection [meal] validates as a
    [schemas.Meal]. *)
Theorem saved_meals_fail_Meal_schema (float_of_str : string -> option float)
    (py_str : value -> string) (rs : list request) :
  (forall it, MealItem_validate float_of_str (model_dump it) = None)
  /\ Forall (fun d => Meal_validate float_of_str d = None)
       (collection_of (serve_all py_str rs empty_store) "meal").
Proof.
  split; [apply MealItem_validate_model_dump|].
  destruct (serve_all_keeps py_str rs empty_store empty_store_holds) as (Hm & _).
  eapply Forall_impl; [exact Hm|].
  intros d. apply stored_meal_fails.
Qed.

(** ** The connection report *)

Lemma probe_keeps_backend (db : option Database) (r : TestResponse) :
  resp_backend (probe db r) = resp_backend r.
Proof.
  destruct db as [[n l]|]; [|reflexivity].
  destruct n, l; reflexivity.
Qed.

Lemma truthy_Some (v : option string) :
  truthy v = true <-> exists s, v = Some s /\ s <> ""%string.
Proof.
  unfold truthy. destruct v as [s|].
  - destruct (decide (s = ""%string)) as [->|Hs]; split.
    + discriminate.
    + intros (s & [= <-] & H). contradiction.
    + eauto.
    + reflexivity.
  - split; [discriminate|intros (s & [=] & _)].
Qed.

(** The fields [database_url] and [database_name] of the report say
    only whether the two environment variables are set to a string that
    is not empty: they are the same whatever the database handle is, so
    neither ["Configured"] nor the name of the database is ever
    reported, and neither field is [None]; and the backend is always
    reported as running. *)
Theorem test_database_reports_environment (db : option Database)
    (getenv : string -> option string) :
  let r := test_database db getenv in
  (forall db', resp_database_url (test_database db' getenv) = resp_database_url r
               /\ resp_database_name (test_database db' getenv) = resp_database_name r)
  /\ (resp_database_url r = VStr "✅ Set"
      <-> exists s, getenv "DATABASE_URL"%string = Some s /\ s <> ""%string)
  /\ (resp_database_url r = VStr "❌ Not Set"
      <-> ~ exists s, getenv "DATABASE_URL"%string = Some s /\ s <> ""%string)
  /\ (resp_database_name r = VStr "✅ Set"
      <-> exists s, getenv "DATABASE_NAME"%string = Some s /\ s <> ""%string)
  /\ (resp_database_name r = VStr "❌ Not Set"
      <-> ~ exists s, getenv "DATABASE_NAME"%string = Some s /\ s <> ""%string)
  /\ resp_backend r = "✅ Running"%string.
Proof.
  cbv zeta. unfold test_database; cbn.
  split; [intros db'; split; reflexivity|].
  rewrite probe_keeps_backend. unfold set_or_not.
  rewrite <- !truthy_Some.
  destruct (truthy (getenv "DATABASE_URL"%string)),
           (truthy (getenv "DATABASE_NAME"%string));
    repeat split; try reflexivity; try discriminate; try congruence;
    intros H; try (exfalso; apply H; reflexivity).
Qed.

Lemma take_chars_prefix (n : nat) (s : string) :
  String.prefix (take_chars n s) s = true.
Proof.
  revert n. induction s as [|a s IH]; intros n; [reflexivity|].
  cbn [take_chars]. destruct (is_continuation a).
  - cbn. destruct (Ascii.ascii_dec a a); [apply IH|contradiction].
  - destruct n as [|n]; [reflexivity|].
    cbn. destruct (Ascii.ascii_dec a a); [apply IH|contradiction].
Qed.

Lemma take_chars_characters (n : nat) (s : string) :
  characters (take_chars n s) = Nat.min n (characters s).
Proof.
  revert n. induction s as [|a s IH]; intros n; [cbn; lia|].
  cbn [take_chars characters]. destruct (is_continuation a) eqn:E.
  - cbn [characters]. rewrite E. apply IH.
  - destruct n as [|n]; [reflexivity|].
    cbn [characters]. rewrite E, IH. reflexivity.
Qed.

Lemma take_chars_all (n : nat) (s : string) :
  (characters s <= n)%nat -> take_chars n s = s.
Proof.
  revert n. induction s as [|a s IH]; intros n Hn; [reflexivity|].
  cbn [take_chars characters] in *. destruct (is_continuation a).
  - f_equal. apply IH, Hn.
  - destruct n as [|n]; [lia|]. f_equal. apply IH. lia.
Qed.

(** [str(e)[:50]] counts characters, not bytes: forty letters of two
    bytes each are kept whole, and of sixty letters of one byte the
    first fifty are kept. *)
Example first_50_counts_characters :
  let e_acute := String (Ascii.ascii_of_N 195) (String (Ascii.ascii_of_N 169) "") in
  let forty := String.concat "" (repeat e_acute 40) in
  let sixty := String.concat "" (repeat "a"%string 60) in
  String.length forty = 80%nat /\ first_50 forty = forty
  /\ first_50 sixty = String.concat "" (repeat "a"%string 50).
Proof. repeat split. Qed.

(** The field [database] of the report holds one of four texts, and so
    never the two the function writes first, ["Not Available"] and
    ["Available"]: a handle that is [None] is reported as "Available
    but not initialized".  The text of an error is reported by its
    first fifty characters: a prefix of the text, of fifty characters
    when the text has more and the whole text otherwise. *)
Theorem test_database_report (db : option Database)
    (getenv : string -> option string) :
  let r := test_database db getenv in
  database_report (resp_database r)
  /\ resp_database r <> "❌ Not Available"%string
  /\ resp_database r <> "✅ Available"%string
  /\ (db = None <-> resp_database r = "⚠️  Available but not initialized"%string)
  /\ (forall d e, db = Some d -> db_name d = AttributeRaises e ->
        resp_database r = ("❌ Error: " +:+ first_50 e)%string)
  /\ (forall d e, db = Some d -> (forall e', db_name d <> AttributeRaises e') ->
        list_collection_names d = inl e ->
        resp_database r = ("⚠️  Connected but Error: " +:+ first_50 e)%string)
  /\ (forall e, String.prefix (first_50 e) e = true
                /\ characters (first_50 e) = Nat.min 50 (characters e)
                /\ ((characters e <= 50)%nat -> first_50 e = e)).
Proof.
  cbv zeta. unfold test_database; cbn.
  assert (Hcut : forall e, String.prefix (first_50 e) e = true
                           /\ characters (first_50 e) = Nat.min 50 (characters e)
                           /\ ((characters e <= 50)%nat -> first_50 e = e)).
  { intros e. unfold first_50. split; [apply take_chars_prefix|].
    split; [apply take_chars_characters|apply take_chars_all]. }
  destruct db as [[n l]|]; cbn.
  - destruct n as [|v|e], l as [e'|cs]; cbn;
      (split; [constructor|]);
      (split; [discriminate|]); (split; [discriminate|]);
      (split; [split; [discriminate|cbn; discriminate]|]);
      (split; [intros d e0 [= <-]; cbn; try discriminate;
               intros [= <-]; reflexivity|]);
      (split; [intros d e0 [= <-] Hn; cbn in *; try discriminate;
               try (exfalso; eapply Hn; reflexivity);
               intros [= <-]; reflexivity|]);
      exact Hcut.
  - split; [constructor|]. split; [discriminate|]. split; [discriminate|].
    split; [split; reflexivity|]. split; [discriminate|]. split; [discriminate|].
    exact Hcut.
Qed.

(** The report lists at most ten collections, the first ten the handle
    names, and lists any only when it reports the database as
    connected and working; it does that exactly when there is a handle
    whose name could be read and whose collections could be listed; and
    it reports the connection status ["Connected"] exactly when there
    is a handle whose name could be read, whether or not the listing
    failed. *)
Theorem test_database_collections (db : option Database)
    (getenv : string -> option string) :
  let r := test_database db getenv in
  (length (resp_collections r) <= 10)%nat
  /\ (resp_collections r <> [] ->
      resp_database r = "✅ Connected & Working"%string)
  /\ (resp_database r = "✅ Connected & Working"%string
      <-> exists d cs, db = Some d /\ (forall e, db_name d <> AttributeRaises e)
                       /\ list_collection_names d = inr cs
                       /\ resp_collections r = take 10 cs)
  /\ (resp_connection_status r = "Connected"%string
      <-> exists d, db = Some d /\ forall e, db_name d <> AttributeRaises e)
  /\ (resp_connection_status r = "Connected"%string
      \/ resp_connection_status r = "Not Connected"%string).
Proof.
  cbv zeta. unfold test_database; cbn.
  destruct db as [[n l]|]; cbn.
  - assert (Hread : (exists e, n = AttributeRaises e)
                    \/ forall e, n <> AttributeRaises e).
    { destruct n; [right; discriminate|right; discriminate|left; eauto]. }
    destruct Hread as [[e ->]|Hn].
    + cbn. split; [lia|]. split; [intros H; contradiction|].
      split; [split; [discriminate|]|].
      { intros (d & cs & [= <-] & Hn & _). exfalso. eapply Hn. reflexivity. }
      split; [split; [discriminate|]|auto].
      intros (d & [= <-] & Hn). exfalso. eapply Hn. reflexivity.
    + assert (E : probe (Some {| db_name := n; list_collection_names := l |})
                    initial_response
                  = probe_collections {| db_name := n; list_collection_names := l |}
                      (set_connection_status "Connected"
                         (set_database_name
                            match n with
                            | Attribute v => v
                            | _ => VStr "✅ Connected"
                            end
                            (set_database_url (VStr "✅ Configured")
                               (set_database "✅ Available" initial_response))))).
      { destruct n as [|v|e]; try reflexivity. exfalso. eapply Hn. reflexivity. }
      cbn in E. rewrite E. clear E. unfold probe_collections; cbn.
      destruct l as [e'|cs]; cbn.
      * split; [lia|]. split; [intros H; contradiction|].
        split; [split; [discriminate|]|].
        { intros (d & cs & [= <-] & _ & [=] & _). }
        split; [|auto]. split; [intros _|reflexivity].
        eexists. split; [reflexivity|exact Hn].
      * split; [rewrite length_take; lia|]. split; [reflexivity|].
        split; [split; [intros _|reflexivity]|].
        { eexists. eexists. repeat split. exact Hn. }
        split; [|auto]. split; [intros _|reflexivity].
        eexists. split; [reflexivity|exact Hn].
  - split; [cbn; lia|]. split; [intros H; contradiction|].
    split; [split; [discriminate|intros (d & cs & [=] & _)]|].
    split; [split; [discriminate|intros (d & [=] & _)]|].
    auto.
Qed.


(** ** What is written is listed *)

Lemma filter_all {A : Type} (f : A -> bool) (l : list A) :
  (forall x, f x = true) -> List.filter f l = l.
Proof.
  intros H. induction l as [|x l IH]; [reflexivity|].
  cbn. rewrite H, IH. reflexivity.
Qed.

Lemma run_list_meals (py_str : value -> string) (limit : Z) (st : Store) :
  Z.of_nat (length (collection_of st "meal")) <= limit ->
  run (list_meals py_str limit) st
  = (inr (map (stringify_id py_str) (collection_of st "meal")), st).
Proof.
  intros Hl. cbn. unfold get_documents.
  rewrite filter_all by reflexivity.
  rewrite take_ge by lia. reflexivity.
Qed.

Lemma stringify_id_lookup (py_str : value -> string) (d : document) (v : value) :
  d !! "_id"%string = Some v ->
  stringify_id py_str d !! "_id"%string = Some (VStr (py_str v))
  /\ forall key : string, key <> "_id"%string -> stringify_id py_str d !! key = d !! key.
Proof.
  intros Hv. unfold stringify_id. rewrite Hv, lookup_insert_eq. split; [reflexivity|].
  intros key Hk. apply lookup_insert_ne. congruence.
Qed.

(** A meal that was saved is listed: after a save that answered, a
    listing of the meals whose limit is not below the number of stored
    meals returns as many documents as are stored, the saved one among
    them, with the answered identifier as the string of the stored one,
    the answered totals, the submitted items and the name, or ["Meal"]
    for none. *)
Theorem saved_meal_is_listed (py_str : value -> string) (body : RawMealPayload)
    (st st' : Store) (resp : SaveResponse) (limit : Z) :
  run (post_meals_save body) st = (inr resp, st') ->
  Z.of_nat (length (collection_of st' "meal")) <= limit ->
  exists (docs : list document) (d : document) (payload : CalculateMealPayload),
    run (list_meals py_str limit) st' = (inr docs, st')
    /\ length docs = S (length (collection_of st "meal"))
    /\ In d docs
    /\ validate_payload body = Some payload
    /\ d !! "_id"%string = Some (VStr (py_str (VObjectId (save_id resp))))
    /\ d !! "name"%string = Some (VStr (name_or_default (payload_name payload) "Meal"))
    /\ d !! "items"%string = Some (VList (map model_dump (items payload)))
    /\ d !! "total_calories"%string = Some (VFloat (calories (save_totals resp)))
    /\ d !! "total_protein"%string = Some (VFloat (protein (save_totals resp)))
    /\ d !! "total_carbs"%string = Some (VFloat (carbs (save_totals resp)))
    /\ d !! "total_fat"%string = Some (VFloat (fat (save_totals resp))).
Proof.
  intros Hrun Hl.
  destruct (run_post_meals_save body st)
    as [([e He] & _)|(payload & it & its & Hv & Hi & _ & Hrun')].
  { rewrite He in Hrun. discriminate. }
  rewrite Hrun' in Hrun.
  assert (Hresp : resp = {| save_id := pretty (counter st);
                            save_totals := calc_totals (items payload) |})
    by congruence.
  assert (Hst : st' = snd (create_document "meal"
                             (meal_doc payload (calc_totals (items payload))) st))
    by congruence.
  clear Hrun Hrun'. subst resp st'.
  rewrite run_list_meals by exact Hl.
  rewrite collection_of_create_eq, map_app. cbn [map].
  set (doc := meal_doc payload (calc_totals (items payload))).
  set (oid := pretty (counter st)).
  destruct (stringify_id_lookup py_str (<[ "_id"%string := VObjectId oid ]> doc)
              (VObjectId oid) ltac:(apply lookup_insert_eq)) as [Hid Hkeep].
  destruct (meal_doc_lookup payload (calc_totals (items payload)))
    as (Ln & Li & Lc & Lp & Lb & Lf).
  eexists. eexists. exists payload.
  split; [reflexivity|].
  split; [rewrite length_app, length_map; cbn; lia|].
  split; [apply in_or_app; right; left; reflexivity|].
  split; [exact Hv|]. split; [exact Hid|].
  rewrite !Hkeep by discriminate. rewrite !lookup_insert_ne by discriminate.
  cbn [save_totals]. auto 10.
Qed.

Lemma saved_meal_is_listed_witness :
  let body := {| raw_items := Some [raw_of rice]; raw_payload_name := None |} in
  let payload := {| items := [rice]; payload_name := None |} in
  let resp := {| save_id := pretty (counter empty_store);
                 save_totals := calc_totals [rice] |} in
  let st' := snd (create_document "meal" (meal_doc payload (calc_totals [rice]))
                    empty_store) in
  exists (docs : list document) (d : document) (payload : CalculateMealPayload),
    run (list_meals (fun _ => "0"%string) 50) st' = (inr docs, st')
    /\ length docs = S (length (collection_of empty_store "meal"))
    /\ In d docs
    /\ validate_payload body = Some payload
    /\ d !! "_id"%string = Some (VStr "0")
    /\ d !! "name"%string = Some (VStr (name_or_default (payload_name payload) "Meal"))
    /\ d !! "items"%string = Some (VList (map model_dump (items payload)))
    /\ d !! "total_calories"%string = Some (VFloat (calories (save_totals resp)))
    /\ d !! "total_protein"%string = Some (VFloat (protein (save_totals resp)))
    /\ d !! "total_carbs"%string = Some (VFloat (carbs (save_totals resp)))
    /\ d !! "total_fat"%string = Some (VFloat (fat (save_totals resp))).
Proof.
  intros body payload resp st'.
  apply (saved_meal_is_listed (fun _ => "0"%string) body empty_store st' resp 50).
  - reflexivity.
  - vm_compute. discriminate.
Defined.

Lemma run_list_foods (py_str : value -> string) (query : option string) (limit : Z)
    (st : Store) :
  query = None \/ query = Some ""%string ->
  Z.of_nat (length (collection_of st "food")) <= limit ->
  run (list_foods py_str query limit) st
  = (inr (map (stringify_id py_str) (collection_of st "food")), st).
Proof.
  intros Hq Hl.
  assert (E : list_foods py_str query limit
              = GetDocuments "food" ∅ limit
                  (fun docs => Ret (map (stringify_id py_str) docs))).
  { destruct Hq as [->| ->]; reflexivity. }
  rewrite E. cbn. unfold get_documents.
  rewrite filter_all by reflexivity.
  rewrite take_ge by lia. reflexivity.
Qed.

(** A food that was created is listed: after a creation that answered,
    a listing of the foods without a query, or with an empty one, whose
    limit is not below the number of stored foods returns as many
    documents as are stored, the created one among them, with the
    answered identifier as the string of the stored one and the
    submitted name and nutrient values. *)
Theorem created_food_is_listed (py_str : value -> string) (body : RawFood)
    (st st' : Store) (food_id : string) (query : option string) (limit : Z) :
  run (post_foods body) st = (inr food_id, st') ->
  query = None \/ query = Some ""%string ->
  Z.of_nat (length (collection_of st' "food")) <= limit ->
  exists (docs : list document) (d : document),
    run (list_foods py_str query limit) st' = (inr docs, st')
    /\ length docs = S (length (collection_of st "food"))
    /\ In d docs
    /\ d !! "_id"%string = Some (VStr (py_str (VObjectId food_id)))
    /\ VStr <$> raw_food_name body = d !! "name"%string
    /\ VFloat <$> raw_food_calories_per_100g body = d !! "calories_per_100g"%string
    /\ VFloat <$> raw_food_protein_per_100g body = d !! "protein_per_100g"%string
    /\ VFloat <$> raw_food_carbs_per_100g body = d !! "carbs_per_100g"%string
    /\ VFloat <$> raw_food_fat_per_100g body = d !! "fat_per_100g"%string.
Proof.
  intros Hrun Hq Hl.
  destruct (run_post_foods body st) as [([e He] & _)|(p & Hv & _ & Hrun')].
  { rewrite He in Hrun. discriminate. }
  rewrite Hrun' in Hrun.
  assert (Hid' : food_id = pretty (counter st)) by congruence.
  assert (Hst : st' = snd (create_document "food" (food_doc p) st)) by congruence.
  clear Hrun Hrun'. subst food_id st'.
  rewrite run_list_foods by assumption.
  rewrite collection_of_create_eq, map_app. cbn [map].
  apply validate_food_Some in Hv as (Hn & Rc & Rp & Rb & Rf & _).
  destruct (food_doc_lookup p) as (Ln & Lc & Lp & Lb & Lf).
  set (oid := pretty (counter st)) in *.
  destruct (stringify_id_lookup py_str (<[ "_id"%string := VObjectId oid ]> (food_doc p))
              (VObjectId oid) ltac:(apply lookup_insert_eq)) as [Hid Hkeep].
  eexists. eexists.
  split; [reflexivity|].
  split; [rewrite length_app, length_map; cbn; lia|].
  split; [apply in_or_app; right; left; reflexivity|].
  split; [exact Hid|].
  rewrite !Hkeep by discriminate.
  rewrite !lookup_insert_ne by discriminate.
  rewrite Hn, Rc, Rp, Rb, Rf, Ln, Lc, Lp, Lb, Lf. cbn. auto 10.
Qed.

Lemma created_food_is_listed_witness :
  let body := {| raw_food_name := Some "Rice"%string;
                 raw_food_calories_per_100g := Some (of_pos 130);
                 raw_food_protein_per_100g := Some (ratio 27 10);
                 raw_food_carbs_per_100g := Some (of_pos 28);
                 raw_food_fat_per_100g := Some (ratio 3 10) |} in
  let st' := snd (run (post_foods body) empty_store) in
  exists (docs : list document) (d : document),
    run (list_foods (fun _ => "0"%string) None 50) st' = (inr docs, st')
    /\ length docs = S (length (collection_of empty_store "food"))
    /\ In d docs
    /\ d !! "_id"%string = Some (VStr "0")
    /\ VStr <$> raw_food_name body = d !! "name"%string
    /\ VFloat <$> raw_food_calories_per_100g body = d !! "calories_per_100g"%string
    /\ VFloat <$> raw_food_protein_per_100g body = d !! "protein_per_100g"%string
    /\ VFloat <$> raw_food_carbs_per_100g body = d !! "carbs_per_100g"%string
    /\ VFloat <$> raw_food_fat_per_100g body = d !! "fat_per_100g"%string.
Proof.
  intros body st'.
  apply (created_food_is_listed (fun _ => "0"%string) body empty_store st'
           (pretty (counter empty_store)) None 50).
  - reflexivity.
  - left. reflexivity.
  - vm_compute. discriminate.
Defined.


(** ** How a request fails *)

Lemma run_on_post_meals_calculate (gw : Gateway) (body : RawMealPayload) (st : Store) :
  run_on gw (post_meals_calculate body) st
  = (match validate_payload body with
     | None => Raised RequestValidationError
     | Some payload =>
         match items payload with
         | [] => Raised no_items
         | _ :: _ => Answered {| calc_name := payload_name payload;
                                 calc_totals_of := calc_totals (items payload) |}
         end
     end, st).
Proof.
  unfold post_meals_calculate. destruct (validate_payload body) as [payload|];
    [|reflexivity].
  unfold calculate_meal. destruct (items payload); reflexivity.
Qed.

Lemma run_on_post_meals_save_cases (gw : Gateway) (body : RawMealPayload) (st : Store) :
  run_on gw (post_meals_save body) st
  = match validate_payload body with
    | None => (Raised RequestValidationError, st)
    | Some payload =>
        match items payload with
        | [] => (Raised no_items, st)
        | _ :: _ =>
            match gw_create gw "meal"
                    (meal_doc payload (calc_totals (items payload))) st with
            | inr (meal_id, st') =>
                (Answered {| save_id := meal_id;
                             save_totals := calc_totals (items payload) |}, st')
            | inl e => (StoreError e, st)
            end
        end
    end.
Proof.
  unfold post_meals_save. destruct (validate_payload body) as [payload|];
    [|reflexivity].
  unfold save_meal. destruct (items payload) as [|it its]; [reflexivity|].
  cbn. destruct (gw_create gw _ _ st) as [e|[oid st']]; reflexivity.
Qed.

Lemma run_on_post_foods (gw : Gateway) (food : RawFood) (st : Store) :
  run_on gw (post_foods food) st
  = match validate_food food with
    | None => (Raised RequestValidationError, st)
    | Some p =>
        match gw_create gw "food" (food_doc p) st with
        | inr (food_id, st') => (Answered food_id, st')
        | inl e => (StoreError e, st)
        end
    end.
Proof.
  unfold post_foods. destruct (validate_food food) as [p|]; [|reflexivity].
  cbn. destruct (gw_create gw _ _ st) as [e|[oid st']]; reflexivity.
Qed.

Lemma validate_payload_cases (body : RawMealPayload) :
  let faulty :=
    raw_items body = None
    \/ exists l r, raw_items body = Some l /\ In r l /\ item_fault r in
  match validate_payload body with
  | None => faulty /\ raw_items body <> Some []
  | Some payload => ~ faulty /\ (items payload = [] <-> raw_items body = Some [])
  end.
Proof.
  cbv zeta. pose proof (validate_payload_None body) as HN.
  destruct (validate_payload body) as [payload|] eqn:Ev.
  - split; [|apply validate_payload_Some_nil, Ev].
    intros H. apply HN in H. discriminate.
  - split; [apply HN; reflexivity|].
    intros H. unfold validate_payload in Ev. rewrite H in Ev. discriminate.
Qed.

(** How a request fails, as far as validation, the handler and the
    gateway go, on a gateway that may fail.  The two meal endpoints
    raise the validation error exactly when the body has no item list
    or an item that is at fault, the error 400 ["No items provided"]
    exactly when the item list is empty, and nothing else of their own.
    The calculation never ends in an error of the store.  A save ends
    in one exactly when the body is valid and not empty and the one
    call of [create_document] fails, and the error is that of the call.
    The creation of a food raises the validation error exactly when the
    body is at fault, and ends in an error of the store exactly when
    the body is valid and the call of [create_document] fails.  The two
    listings raise nothing of their own. *)
Theorem failures_are_validation_no_items_or_store (gw : Gateway) (st : Store)
    (body : RawMealPayload) :
  let faulty :=
    raw_items body = None
    \/ exists l r, raw_items body = Some l /\ In r l /\ item_fault r in
  let client_error (e : http_error) :=
    (e = RequestValidationError /\ faulty)
    \/ (e = no_items /\ raw_items body = Some []) in
  ((forall e, fst (run_on gw (post_meals_calculate body) st) = Raised e
              <-> client_error e)
   /\ (forall e, fst (run_on gw (post_meals_calculate body) st) <> StoreError e))
  /\ ((forall e, fst (run_on gw (post_meals_save body) st) = Raised e
                 <-> client_error e)
      /\ (forall e, fst (run_on gw (post_meals_save body) st) = StoreError e
                    <-> exists payload,
                          validate_payload body = Some payload
                          /\ items payload <> []
                          /\ gw_create gw "meal"
                               (meal_doc payload (calc_totals (items payload))) st
                             = inl e))
  /\ (forall food,
        (forall e, fst (run_on gw (post_foods food) st) = Raised e
                   <-> e = RequestValidationError /\ food_fault food)
        /\ (forall e, fst (run_on gw (post_foods food) st) = StoreError e
                      <-> exists p, validate_food food = Some p
                                    /\ gw_create gw "food" (food_doc p) st = inl e))
  /\ (forall py_str query limit e,
        fst (run_on gw (list_foods py_str query limit) st) <> Raised e
        /\ fst (run_on gw (list_meals py_str limit) st) <> Raised e).
Proof.
  cbv zeta. pose proof (validate_payload_cases body) as Hcases. cbv zeta in Hcases.
  split; [|split; [|split]].
  - rewrite run_on_post_meals_calculate. cbn [fst].
    destruct (validate_payload body) as [payload|].
    + destruct Hcases as [Hok Hnil]. destruct (items payload) as [|it its].
      * split; [|discriminate]. intros e. split.
        -- intros [= <-]. right. split; [reflexivity|]. apply Hnil. reflexivity.
        -- intros [[_ H]|[-> _]]; [contradiction|reflexivity].
      * split; [|discriminate]. intros e. split; [discriminate|].
        intros [[_ H]|[_ H]]; [contradiction|]. apply Hnil in H. discriminate.
    + destruct Hcases as [Hf Hne]. split; [|discriminate]. intros e. split.
      * intros [= <-]. left. auto.
      * intros [[-> _]|[_ H]]; [reflexivity|contradiction].
  - rewrite run_on_post_meals_save_cases.
    destruct (validate_payload body) as [payload|] eqn:Ev.
    + destruct Hcases as [Hok Hnil]. destruct (items payload) as [|it its] eqn:Ei.
      * cbn [fst]. split.
        -- intros e. split.
           ++ intros [= <-]. right. split; [reflexivity|]. apply Hnil. reflexivity.
           ++ intros [[_ H]|[-> _]]; [contradiction|reflexivity].
        -- intros e. split; [discriminate|].
           intros (p & [= <-] & Hne & _). rewrite Ei in Hne. contradiction.
      * split.
        -- intros e. split.
           ++ destruct (gw_create gw _ _ st) as [e'|[oid st']]; discriminate.
           ++ intros [[_ H]|[_ H]]; [contradiction|]. apply Hnil in H. discriminate.
        -- intros e. split.
           ++ intros H. exists payload. split; [reflexivity|].
              split; [rewrite Ei; discriminate|]. rewrite Ei.
              destruct (gw_create gw _ _ st) as [e'|[oid st']]; [|discriminate].
              cbn in H. congruence.
           ++ intros (p & [= <-] & _ & Hg). rewrite Ei in Hg. rewrite Hg. reflexivity.
    + destruct Hcases as [Hf Hne]. cbn [fst]. split.
      * intros e. split.
        -- intros [= <-]. left. auto.
        -- intros [[-> _]|[_ H]]; [reflexivity|contradiction].
      * intros e. split; [discriminate|]. intros (p & [=] & _).
  - intros food. rewrite run_on_post_foods.
    pose proof (validate_food_None food) as HN.
    destruct (validate_food food) as [p|] eqn:Ev.
    + split.
      * intros e. split.
        -- destruct (gw_create gw _ _ st) as [e'|[oid st']]; discriminate.
        -- intros [_ H]. apply HN in H. discriminate.
      * intros e. split.
        -- intros H. exists p. split; [reflexivity|].
           destruct (gw_create gw _ _ st) as [e'|[oid st']]; [|discriminate].
           cbn in H. congruence.
        -- intros (p' & [= <-] & Hg). rewrite Hg. reflexivity.
    + cbn [fst]. split.
      * intros e. split.
        -- intros [= <-]. split; [reflexivity|]. apply HN. reflexivity.
        -- intros [-> _]. reflexivity.
      * intros e. split; [discriminate|]. intros (p & [=] & _).
  - intros py_str query limit e. split.
    + unfold list_foods. cbn [run_on].
      destruct (gw_get gw _ _ _ st); discriminate.
    + unfold list_meals. cbn [run_on].
      destruct (gw_get gw _ _ _ st); discriminate.
Qed.

(** ** Items without a nutrient *)

Lemma feqb_zero (x : float) : feqb x zero = true -> exists s, x = S754_zero s.
Proof. destruct x as [s|[]| |[] m e]; try discriminate. eauto. Qed.

Lemma factor_rounded (g : float) :
  gt0 g = true -> rounded prec emax false (fdiv g hundred).
Proof.
  intros [(m & e & ->)| ->]%gt0_cases.
  - apply (SFdiv_finite_rounded prec emax false false).
  - constructor.
Qed.

Lemma term_running (c g : float) :
  ge0 c = true -> gt0 g = true ->
  ge0 (fmul c (fdiv g hundred)) = true \/ fmul c (fdiv g hundred) = S754_nan.
Proof.
  intros Hc Hg. pose proof (factor_rounded g Hg) as Hf.
  apply ge0_cases in Hc as [(s & ->)|[(m & e & ->)| ->]].
  - destruct Hf as [| |m' e' He']; cbn; auto; left; destruct s; reflexivity.
  - destruct Hf as [| |m' e' He']; cbn [fmul SFmul xorb]; auto.
    left. apply rounded_ge0. apply (SFmul_finite_rounded prec emax false false).
  - destruct Hf as [| |m' e' He']; cbn; auto.
Qed.

Lemma fadd_running (acc t : float) :
  running_sum acc -> ge0 t = true \/ t = S754_nan -> running_sum (fadd acc t).
Proof.
  unfold running_sum. intros Hacc Ht.
  assert (Hs : (exists s, t = S754_zero s) \/ (exists m e, t = S754_finite false m e)
               \/ t = S754_infinity false \/ t = S754_nan).
  { destruct Ht as [Ht| ->]; [|auto]. apply ge0_cases in Ht. tauto. }
  clear Ht.
  destruct Hacc as [->|[(m & e & ->)|[->| ->]]].
  - rewrite fadd_zero_l.
    destruct Hs as [(s & ->)|[(m & e & ->)|[->| ->]]]; eauto.
    destruct s; auto.
  - destruct Hs as [(s & ->)|[(m' & e' & ->)|[->| ->]]];
      [cbn; eauto| |cbn; auto|cbn; auto].
    assert (R : rounded prec emax false
                  (fadd (S754_finite false m e) (S754_finite false m' e'))).
    { unfold fadd, SFadd. cbn [cond_Zopp Z.add binary_normalize].
      apply binary_round_rounded. }
    revert R. generalize (fadd (S754_finite false m e) (S754_finite false m' e')).
    intros r R. destruct R; eauto.
  - destruct Hs as [(s & ->)|[(m' & e' & ->)|[->| ->]]]; cbn; auto.
  - destruct Hs as [(s & ->)|[(m' & e' & ->)|[->| ->]]]; cbn; auto.
Qed.

Lemma sum_running (per_100g : CalculateMealItem -> float)
    (its : list CalculateMealItem) (acc : float) :
  running_sum acc ->
  Forall (fun it => ge0 (per_100g it) = true /\ gt0 (grams it) = true) its ->
  running_sum
    (fold_left fadd (map (fun it => fmul (per_100g it) (fdiv (grams it) hundred)) its)
       acc).
Proof.
  intros Hacc Hits. revert acc Hacc.
  induction Hits as [|it its [Hc Hg] _ IH]; intros acc Hacc; [exact Hacc|].
  cbn [map fold_left]. apply IH, fadd_running; [exact Hacc|].
  apply term_running; assumption.
Qed.

Lemma fadd_running_zero (acc : float) (s : bool) :
  running_sum acc -> fadd acc (S754_zero s) = acc.
Proof.
  intros [->|[(m & e & ->)|[->| ->]]]; try reflexivity.
  destruct s; reflexivity.
Qed.

Lemma zero_term (s : bool) (g : float) :
  is_float64 g -> is_finite g = true -> gt0 g = true ->
  fmul (S754_zero s) (fdiv g hundred) = S754_zero s.
Proof.
  intros Hg Hf Hp.
  destruct (factor_finite g Hg Hf Hp) as [->|(m & e & ->)]; cbn;
    destruct s; reflexivity.
Qed.

Lemma spec_total_without (per_100g : CalculateMealItem -> float)
    (l1 l2 : list CalculateMealItem) (it : CalculateMealItem) :
  Forall (fun it => ge0 (per_100g it) = true /\ gt0 (grams it) = true) l1 ->
  is_float64 (grams it) -> is_finite (grams it) = true -> gt0 (grams it) = true ->
  feqb (per_100g it) zero = true ->
  spec_total per_100g (l1 ++ it :: l2) = spec_total per_100g (l1 ++ l2).
Proof.
  intros H1 Hg Hf Hp [s Hz]%feqb_zero. unfold spec_total. f_equal.
  rewrite !map_app, !fold_left_app. cbn [map fold_left]. f_equal.
  rewrite Hz, zero_term by assumption.
  apply fadd_running_zero, sum_running; [left; reflexivity|exact H1].
Qed.

(** An item with a finite quantity adds nothing to the total of a
    nutrient it has none of: the totals of a meal with such an item,
    wherever it stands after valid items, are the totals of the meal
    without it, in every nutrient the item holds a zero for.  So an item
    of water changes no total. *)
Theorem zero_nutrient_adds_nothing (l1 l2 : list CalculateMealItem)
    (it : CalculateMealItem) :
  Forall valid_item l1 -> valid_item it ->
  is_float64 (grams it) -> is_finite (grams it) = true ->
  (feqb (calories_per_100g it) zero = true ->
   calories (calc_totals (l1 ++ it :: l2)) = calories (calc_totals (l1 ++ l2)))
  /\ (feqb (protein_per_100g it) zero = true ->
      protein (calc_totals (l1 ++ it :: l2)) = protein (calc_totals (l1 ++ l2)))
  /\ (feqb (carbs_per_100g it) zero = true ->
      carbs (calc_totals (l1 ++ it :: l2)) = carbs (calc_totals (l1 ++ l2)))
  /\ (feqb (fat_per_100g it) zero = true ->
      fat (calc_totals (l1 ++ it :: l2)) = fat (calc_totals (l1 ++ l2))).
Proof.
  intros H1 (Hp & _) Hg Hf. rewrite !calc_totals_spec. cbn.
  repeat split; intros Hz; apply spec_total_without; try assumption;
    (eapply Forall_impl; [exact H1|]); intros x (? & ? & ? & ? & ?); auto.
Qed.

Lemma zero_nutrient_adds_nothing_witness :
  calc_totals ([rice] ++ water :: [oil]) = calc_totals ([rice] ++ [oil]).
Proof.
  assert (H : Forall valid_item [rice] /\ valid_item water
              /\ is_float64 (grams water) /\ is_finite (grams water) = true).
  { repeat split; try reflexivity. repeat constructor. }
  destruct H as (H1 & Hw & Hg & Hf).
  destruct (zero_nutrient_adds_nothing [rice] [oil] water H1 Hw Hg Hf)
    as (Hc & Hp & Hb & Ha).
  specialize (Hc eq_refl). specialize (Hp eq_refl).
  specialize (Hb eq_refl). specialize (Ha eq_refl).
  destruct (calc_totals ([rice] ++ water :: [oil])), (calc_totals ([rice] ++ [oil])).
  cbn in *. congruence.
Defined.


(** ** Magnitudes

    Rounding raises the magnitude of a number by one binary digit at
    most, so a product, a quotient or a sum of numbers of bounded
    magnitude is finite as long as the bounds stay within the range of
    the format. *)

Section Magnitude.

Variables prec emax : Z.

Abbreviation fexp := (SpecFloat.fexp prec emax).
Abbreviation emin := (SpecFloat.emin prec emax).

Lemma binary_round_aux_mag (s : bool) (m e : Z) (l : location)
    (s' : bool) (m' : positive) (e' : Z) :
  0 < prec -> 0 <= m ->
  binary_round_aux prec emax s m e l = S754_finite s' m' e' ->
  Zpos (digits2_pos m') + e' <= Z.max (Zdigits2 m + e) emin + 1.
Proof.
  intros prec_pos Hm. rewrite binary_round_aux_eq. cbv zeta.
  set (r1 := shr_fexp prec emax m e l).
  set (m1 := round_nearest_even _ _).
  destruct (shr_fexp_m_e prec emax m e l Hm) as [Hr1m Hr1e]. fold r1 in Hr1m, Hr1e.
  set (n := Z.max (fexp (Zdigits2 m + e) - e) 0) in *.
  assert (Hpow : 0 < 2 ^ n) by (apply Z.pow_pos_nonneg; lia).
  assert (H1 : 0 <= shr_m (fst r1)) by (rewrite Hr1m; apply Z.div_pos; lia).
  pose proof (Zdigits2_nonneg m) as Hdm.
  assert (He1 : snd r1 <= Z.max (Zdigits2 m + e) emin).
  { rewrite Hr1e. unfold n, SpecFloat.fexp. lia. }
  assert (Hd1 : Zdigits2 (shr_m (fst r1)) + snd r1 <= Z.max (Zdigits2 m + e) (snd r1)).
  { rewrite Hr1m, Hr1e.
    destruct (Z.eq_dec m 0) as [->|Hm0].
    { rewrite Z.div_0_l by lia. cbn. lia. }
    destruct (Z_lt_le_dec n (Zdigits2 m)) as [Hlt|Hge].
    - rewrite Zdigits2_div_pow2 by lia. lia.
    - rewrite Z.div_small; [cbn; lia|].
      pose proof (Zdigits2_bounds m ltac:(lia)) as [_ Hhi].
      assert (2 ^ Zdigits2 m <= 2 ^ n).
      { apply Z.pow_le_mono_r; [lia|]. lia. }
      lia. }
  assert (Hm1 : 0 <= m1 /\ Zdigits2 m1 <= Zdigits2 (shr_m (fst r1)) + 1).
  { pose proof (round_nearest_even_bounds (shr_m (fst r1)) (loc_of_shr_record (fst r1))) as Hb.
    fold m1 in Hb. split; [lia|].
    etransitivity; [|apply Zdigits2_succ, H1].
    apply Zdigits2_mono. lia. }
  destruct Hm1 as [Hm1 Hdm1].
  destruct (shr_fexp_m_e prec emax m1 (snd r1) loc_Exact Hm1) as [Hr2m Hr2e].
  set (r2 := shr_fexp prec emax m1 (snd r1) loc_Exact) in *.
  set (n2 := Z.max (fexp (Zdigits2 m1 + snd r1) - snd r1) 0) in *.
  destruct (shr_m (fst r2)) as [|p|p] eqn:E2; try discriminate.
  destruct (snd r2 <=? emax - prec); [|discriminate].
  intros [= <- <- <-].
  assert (Hm1p : 0 < m1).
  { destruct (Z.eq_dec m1 0) as [E|]; [|lia].
    rewrite E, Z.div_0_l in Hr2m; [discriminate|].
    apply Z.pow_nonzero; lia. }
  assert (Hn2 : n2 < Zdigits2 m1).
  { destruct (Z_lt_le_dec n2 (Zdigits2 m1)) as [|Hge]; [assumption|exfalso].
    pose proof (Zdigits2_bounds m1 Hm1p) as [_ Hhi].
    assert (2 ^ Zdigits2 m1 <= 2 ^ n2) by (apply Z.pow_le_mono_r; lia).
    rewrite Z.div_small in Hr2m by lia. discriminate. }
  pose proof (Zdigits2_div_pow2 m1 n2 Hm1p ltac:(lia) Hn2) as Hd2.
  rewrite <- Hr2m in Hd2. cbn [Zdigits2] in Hd2.
  rewrite Hr2e. lia.
Qed.

Lemma binary_round_aux_below (s : bool) (m e : Z) (l : location) (k : Z) :
  0 < prec -> prec < emax ->
  0 <= m -> e <= emax - prec -> Zdigits2 m + e <= k -> emin <= k -> k < emax ->
  match binary_round_aux prec emax s m e l with
  | S754_zero s' => s' = s
  | S754_finite s' m' e' => s' = s /\ Zpos (digits2_pos m') + e' <= k + 1
  | _ => False
  end.
Proof.
  intros prec_pos prec_lt_emax Hm He Hk Hmin Hmax.
  pose proof (binary_round_aux_rounded prec emax s m e l Hm) as R.
  pose proof (binary_round_aux_finite prec emax s m e l prec_pos prec_lt_emax Hm He
                ltac:(lia)) as F.
  pose proof (binary_round_aux_mag s m e l) as M.
  destruct (binary_round_aux prec emax s m e l) as [s'|s'| |s' m' e'];
    inversion R; subst; try reflexivity; try contradiction.
  split; [reflexivity|].
  specialize (M _ _ _ prec_pos Hm eq_refl). lia.
Qed.

Lemma SFmul_below (sx sy : bool) (mx my : positive) (ex ey k : Z) :
  0 < prec -> prec < emax ->
  Zpos (digits2_pos mx) + ex + (Zpos (digits2_pos my) + ey) <= k ->
  emin <= k -> k <= emax - prec ->
  match SFmul prec emax (S754_finite sx mx ex) (S754_finite sy my ey) with
  | S754_zero s' => s' = xorb sx sy
  | S754_finite s' m' e' => s' = xorb sx sy /\ Zpos (digits2_pos m') + e' <= k + 1
  | _ => False
  end.
Proof.
  intros prec_pos prec_lt_emax Hk Hmin Hmax. unfold SFmul.
  pose proof (Zdigits2_bounds (Zpos mx) ltac:(lia)) as [Hxl Hxh].
  pose proof (Zdigits2_bounds (Zpos my) ltac:(lia)) as [Hyl Hyh].
  cbn [Zdigits2] in Hxl, Hxh, Hyl, Hyh.
  set (dx := Zpos (digits2_pos mx)) in *. set (dy := Zpos (digits2_pos my)) in *.
  assert (Hdx : 0 < dx) by (unfold dx; lia).
  assert (Hdy : 0 < dy) by (unfold dy; lia).
  assert (Hd : Zdigits2 (Zpos (mx * my)) <= dx + dy).
  { apply Zdigits2_le; [lia|lia|]. rewrite Pos2Z.inj_mul, Z.pow_add_r by lia. nia. }
  apply binary_round_aux_below; try assumption; lia.
Qed.

Lemma SFdiv_below (sx sy : bool) (mx my : positive) (ex ey k : Z) :
  0 < prec -> prec < emax ->
  Zpos (digits2_pos mx) + ex - (Zpos (digits2_pos my) + ey) + 1 <= k ->
  emin <= k -> k < emax ->
  match SFdiv prec emax (S754_finite sx mx ex) (S754_finite sy my ey) with
  | S754_zero s' => s' = xorb sx sy
  | S754_finite s' m' e' => s' = xorb sx sy /\ Zpos (digits2_pos m') + e' <= k + 1
  | _ => False
  end.
Proof.
  intros prec_pos prec_lt_emax Hk Hmin Hmax. unfold SFdiv.
  pose proof (SFdiv_core_binary_eq prec emax mx my ex ey) as E. cbv zeta in E. rewrite E.
  set (d1 := Zpos (digits2_pos mx)) in *. set (d2 := Zpos (digits2_pos my)) in *.
  set (e0 := Z.min (fexp (d1 + ex - (d2 + ey))) (ex - ey)).
  set (M := Zpos mx * 2 ^ (ex - ey - e0)).
  assert (Hs : 0 <= ex - ey - e0) by (unfold e0; lia).
  assert (Hpow : 0 < 2 ^ (ex - ey - e0)) by (apply Z.pow_pos_nonneg; lia).
  assert (HM : 0 < M) by (unfold M; apply Z.mul_pos_pos; lia).
  pose proof (Zdigits2_bounds (Zpos mx) ltac:(lia)) as [_ Hx].
  pose proof (Zdigits2_bounds (Zpos my) ltac:(lia)) as [Hy _].
  cbn [Zdigits2] in Hx, Hy. fold d1 in Hx. fold d2 in Hy.
  assert (Hd : Zdigits2 (M / Zpos my) <= Z.max 0 (d1 + (ex - ey - e0) - d2 + 1)).
  { apply div_digits_upper; try lia.
    unfold M. rewrite Z.pow_add_r by lia.
    apply Z.mul_lt_mono_pos_r; lia. }
  assert (He0 : e0 <= fexp (d1 + ex - (d2 + ey))) by (unfold e0; lia).
  apply binary_round_aux_below; try assumption.
  - apply Z.div_pos; lia.
  - unfold SpecFloat.fexp, SpecFloat.emin in *. lia.
  - unfold SpecFloat.fexp, SpecFloat.emin in *. lia.
Qed.

Lemma shifted_lt_pow2 (m d a b : Z) :
  0 <= d -> 0 <= a -> 0 <= b -> 0 <= m < 2 ^ d -> m * 2 ^ a < 2 ^ (d + a + b).
Proof.
  intros Hd Ha Hb Hm. rewrite !Z.pow_add_r by lia.
  assert (HA : 0 < 2 ^ a) by (apply Z.pow_pos_nonneg; lia).
  assert (HB : 0 < 2 ^ b) by (apply Z.pow_pos_nonneg; lia).
  assert (H1 : m * 2 ^ a < 2 ^ d * 2 ^ a) by (apply Z.mul_lt_mono_pos_r; lia).
  assert (H2 : 2 ^ d * 2 ^ a * 1 <= 2 ^ d * 2 ^ a * 2 ^ b).
  { apply Z.mul_le_mono_nonneg_l; lia. }
  lia.
Qed.

Lemma shl_align_spec (m : positive) (e e' : Z) :
  Zpos (fst (shl_align m e e')) = Zpos m * 2 ^ (e - Z.min e e')
  /\ snd (shl_align m e e') = Z.min e e'.
Proof.
  unfold shl_align. destruct (e' - e) as [|p|p] eqn:E; cbn [fst snd].
  - replace (e - Z.min e e') with 0 by lia. split; lia.
  - replace (e - Z.min e e') with 0 by lia. split; lia.
  - replace (e - Z.min e e') with (Zpos p) by lia. split; [|lia].
    change (Pos.iter xO m p) with (shift_pos p m).
    rewrite shift_pos_correct, Zpower_pos_nat, Zpower_nat_Z, positive_nat_Z. lia.
Qed.

Lemma binary_round_below (s : bool) (m : positive) (e k : Z) :
  0 < prec -> prec < emax ->
  Zpos (digits2_pos m) + e <= k -> emin <= k -> k < emax ->
  match binary_round prec emax s m e with
  | S754_zero s' => s' = s
  | S754_finite s' m' e' => s' = s /\ Zpos (digits2_pos m') + e' <= k + 1
  | _ => False
  end.
Proof.
  intros prec_pos prec_lt_emax Hk Hmin Hmax. unfold binary_round.
  destruct (shl_align_spec m e (fexp (Zpos (digits2_pos m) + e))) as [Hm He].
  destruct (shl_align m e (fexp (Zpos (digits2_pos m) + e))) as [mz ez].
  cbn [fst snd] in Hm, He.
  assert (Hd : Zdigits2 (Zpos mz) + ez = Zpos (digits2_pos m) + e).
  { rewrite Hm, Zdigits2_mul_pow2 by lia. cbn [Zdigits2]. lia. }
  apply binary_round_aux_below; try assumption; try lia.
  rewrite He. unfold SpecFloat.fexp, SpecFloat.emin in *. lia.
Qed.

Lemma SFadd_below (mx my : positive) (ex ey k : Z) :
  0 < prec -> prec < emax ->
  Zpos (digits2_pos mx) + ex <= k -> Zpos (digits2_pos my) + ey <= k ->
  emin <= k + 1 -> k + 1 < emax ->
  match SFadd prec emax (S754_finite false mx ex) (S754_finite false my ey) with
  | S754_zero s' => s' = false
  | S754_finite s' m' e' => s' = false /\ Zpos (digits2_pos m') + e' <= k + 2
  | _ => False
  end.
Proof.
  intros prec_pos prec_lt_emax Hx Hy Hmin Hmax. unfold SFadd.
  cbn [cond_Zopp]. set (ez := Z.min ex ey).
  destruct (shl_align_spec mx ex ez) as [Hmx _].
  destruct (shl_align_spec my ey ez) as [Hmy _].
  replace (Z.min ex ez) with ez in Hmx by lia.
  replace (Z.min ey ez) with ez in Hmy by lia.
  set (ax := fst (shl_align mx ex ez)) in *. set (ay := fst (shl_align my ey ez)) in *.
  change (Zpos ax + Zpos ay) with (Zpos (ax + ay)). cbn [binary_normalize].
  replace (k + 2) with (k + 1 + 1) by lia.
  apply binary_round_below; try assumption.
  pose proof (Zdigits2_bounds (Zpos mx) ltac:(lia)) as [_ Hxh].
  pose proof (Zdigits2_bounds (Zpos my) ltac:(lia)) as [_ Hyh].
  cbn [Zdigits2] in Hxh, Hyh.
  set (dx := Zpos (digits2_pos mx)) in *. set (dy := Zpos (digits2_pos my)) in *.
  assert (Hdx : 0 < dx) by (unfold dx; lia).
  assert (Hdy : 0 < dy) by (unfold dy; lia).
  assert (Hd : Zdigits2 (Zpos (ax + ay)) <= k + 1 - ez).
  { apply Zdigits2_le; [lia|lia|].
    rewrite Pos2Z.inj_add, Hmx, Hmy.
    assert (Zpos mx * 2 ^ (ex - ez) < 2 ^ (k - ez)).
    { replace (k - ez) with (dx + (ex - ez) + (k - dx - ex)) by lia.
      apply shifted_lt_pow2; lia. }
    assert (Zpos my * 2 ^ (ey - ez) < 2 ^ (k - ez)).
    { replace (k - ez) with (dy + (ey - ez) + (k - dy - ey)) by lia.
      apply shifted_lt_pow2; lia. }
    replace (k + 1 - ez) with (Z.succ (k - ez)) by lia.
    rewrite Z.pow_succ_r by lia. lia. }
  cbn [Zdigits2] in Hd. lia.
Qed.

End Magnitude.


(** ** Totals that stay finite *)

Lemma below_le (k k' : Z) (x : float) : k <= k' -> below k x -> below k' x.
Proof. intros Hk. destruct x as [s|s| |s m e]; cbn; auto. lia. Qed.

Lemma below_finite (k : Z) (x : float) : below k x -> is_finite x = true.
Proof. destruct x; cbn; auto. Qed.

Lemma factor_below (k : Z) (g : float) :
  0 <= k -> k < 1024 -> below k g -> gt0 g = true ->
  below k (fdiv g hundred) /\ ge0 (fdiv g hundred) = true.
Proof.
  intros Hk Hk' Hg [(m & e & ->)| ->]%gt0_cases; [|contradiction].
  cbn [below] in Hg. unfold fdiv, hundred.
  pose proof (SFdiv_below prec emax false false m 7036874417766400 e (-46) (k - 1)
                prec_pos prec_lt_emax) as H.
  change (Zpos (digits2_pos 7036874417766400)) with 53 in H.
  specialize (H ltac:(lia) ltac:(range) ltac:(range)).
  destruct (SFdiv prec emax (S754_finite false m e)
              (S754_finite false 7036874417766400 (-46))) as [s|s| |s m' e'];
    try contradiction.
  - subst s. split; [exact I|reflexivity].
  - destruct H as [-> H]. cbn [below xorb]. split; [lia|reflexivity].
Qed.

Lemma term_below (k : Z) (c f : float) :
  0 <= k -> 2 * k <= 971 ->
  below k c -> ge0 c = true -> below k f -> ge0 f = true ->
  below (2 * k + 1) (fmul c f) /\ ge0 (fmul c f) = true.
Proof.
  intros Hk Hk' Bc Hc Bf Hf.
  apply ge0_cases in Hc as [(s & ->)|[(m & e & ->)| ->]]; [| |contradiction];
    apply ge0_cases in Hf as [(s' & ->)|[(m' & e' & ->)| ->]]; try contradiction;
    try (cbn; split; [exact I|destruct s; reflexivity]);
    try (cbn; split; [exact I|destruct s'; reflexivity]);
    try (cbn; split; [exact I|destruct s, s'; reflexivity]).
  cbn [below] in Bc, Bf. unfold fmul.
  pose proof (SFmul_below prec emax false false m m' e e' (2 * k)
                prec_pos prec_lt_emax ltac:(lia) ltac:(range) ltac:(range)) as H.
  destruct (SFmul prec emax (S754_finite false m e) (S754_finite false m' e'))
    as [s|s| |s m2 e2]; try contradiction.
  - subst s. split; [exact I|reflexivity].
  - destruct H as [-> H]. cbn [below xorb]. split; [lia|reflexivity].
Qed.

Lemma fadd_below (k : Z) (a t : float) :
  0 <= k -> k + 1 < 1024 ->
  below k a -> ge0 a = true -> below k t -> ge0 t = true ->
  below (k + 2) (fadd a t) /\ ge0 (fadd a t) = true.
Proof.
  intros Hk Hk' Ba Ha Bt Ht.
  apply ge0_cases in Ha as [(s & ->)|[(m & e & ->)| ->]]; [| |contradiction];
    apply ge0_cases in Ht as [(s' & ->)|[(m' & e' & ->)| ->]]; try contradiction.
  - destruct s, s'; cbn; (split; [exact I|reflexivity]).
  - cbn in *. split; [lia|reflexivity].
  - cbn in *. split; [lia|reflexivity].
  - cbn [below] in Ba, Bt. unfold fadd.
    pose proof (SFadd_below prec emax m m' e e' k prec_pos prec_lt_emax Ba Bt
                  ltac:(range) ltac:(range)) as H.
    destruct (SFadd prec emax (S754_finite false m e) (S754_finite false m' e'))
      as [s|s| |s m2 e2]; try contradiction.
    + subst s. split; [exact I|reflexivity].
    + destruct H as [-> H]. cbn [below]. split; [lia|reflexivity].
Qed.

Lemma sum_below (per_100g : CalculateMealItem -> float) (k : Z)
    (its : list CalculateMealItem) (K : Z) (acc : float) :
  0 <= k -> 2 * k <= 971 -> 2 * k + 1 <= K ->
  K + 2 * Z.of_nat (length its) < 1024 ->
  Forall (fun it => below k (per_100g it) /\ ge0 (per_100g it) = true
                    /\ below k (grams it) /\ gt0 (grams it) = true) its ->
  below K acc -> ge0 acc = true ->
  let total :=
    fold_left fadd (map (fun it => fmul (per_100g it) (fdiv (grams it) hundred)) its)
      acc in
  below (K + 2 * Z.of_nat (length its)) total /\ ge0 total = true.
Proof.
  intros Hk Hk' HK Hn Hits. revert K acc HK Hn.
  induction Hits as [|it its (Bc & Hc & Bg & Hg) _ IH]; intros K acc HK Hn Bacc Hacc.
  - cbn. rewrite Z.add_0_r. auto.
  - cbn [map fold_left]. cbn [length] in Hn |- *. rewrite Nat2Z.inj_succ in Hn |- *.
    destruct (factor_below k (grams it) Hk ltac:(lia) Bg Hg) as [Bf Hf].
    destruct (term_below k _ _ Hk Hk' Bc Hc Bf Hf) as [Bt Ht].
    destruct (fadd_below K acc _ ltac:(lia) ltac:(lia) Bacc Hacc
                (below_le _ K _ HK Bt) Ht) as [Ba' Ha'].
    replace (K + 2 * Z.succ (Z.of_nat (length its)))
      with (K + 2 + 2 * Z.of_nat (length its)) by lia.
    apply IH; try assumption; lia.
Qed.

Lemma cents_lt_pow2 (m : positive) (e k : Z) :
  0 <= k -> Zpos (digits2_pos m) + e <= k -> cents m e < 2 ^ (k + 8).
Proof.
  intros Hk Hm.
  pose proof (Zdigits2_bounds (Zpos m) ltac:(lia)) as [_ Hh]. cbn [Zdigits2] in Hh.
  set (d := Zpos (digits2_pos m)) in *.
  assert (Hd : 0 < d) by (unfold d; lia).
  assert (H100 : Zpos m * 100 < 2 ^ (d + 7)).
  { rewrite Z.pow_add_r by lia. change (2 ^ 7) with 128.
    assert (0 < 2 ^ d) by (apply Z.pow_pos_nonneg; lia). nia. }
  assert (Hlt : 2 ^ (k + 7) < 2 ^ (k + 8)) by (apply Z.pow_lt_mono_r; lia).
  rewrite cents_eq. destruct (Z.ltb_spec e 0) as [He|He].
  - set (D := 2 ^ (- e)).
    assert (HD : 0 < D) by (apply Z.pow_pos_nonneg; lia).
    pose proof (rne_div_bounds (Zpos m * 100) D HD) as [Hq _].
    assert (HP : 2 ^ (d + 7) <= 2 ^ (k + 7) * D).
    { unfold D. rewrite <- Z.pow_add_r by lia. apply Z.pow_le_mono_r; lia. }
    assert (0 < 2 ^ (k + 7)) by (apply Z.pow_pos_nonneg; lia).
    assert (rne_div (Zpos m * 100) D <= 2 ^ (k + 7)); [|lia].
    nia.
  - assert (Zpos m * 100 * 2 ^ e < 2 ^ (d + 7 + e + (k - d - e))).
    { apply shifted_lt_pow2; lia. }
    replace (d + 7 + e + (k - d - e)) with (k + 7) in H by lia. lia.
Qed.

Lemma round2_below (k : Z) (x : float) :
  0 <= k -> k <= 1021 -> below k x -> running_sum x ->
  is_finite (round2 x) = true /\ whole_cents (round2 x).
Proof.
  intros Hk Hk' Bx [->|[(m & e & ->)|[->| ->]]]; try contradiction.
  { split; [reflexivity|]. exists 0. split; [lia|reflexivity]. }
  cbn [below] in Bx. cbn [round2].
  pose proof (cents_nonneg m e) as H0. pose proof (cents_lt_pow2 m e k Hk Bx) as Hlt.
  split; [|exists (cents m e); split; [exact H0|reflexivity]].
  destruct (cents m e) as [|p|p]; [reflexivity| |lia].
  cbn [of_cents]. unfold fdiv.
  assert (Hp : Zpos (digits2_pos p) <= k + 8).
  { apply (Zdigits2_le (Zpos p)); lia. }
  pose proof (SFdiv_below prec emax false false p 100 0 0 (k + 2)
                prec_pos prec_lt_emax) as H.
  change (Zpos (digits2_pos 100)) with 7 in H.
  specialize (H ltac:(lia) ltac:(range) ltac:(range)).
  destruct (SFdiv prec emax (S754_finite false p 0) (S754_finite false 100 0));
    try contradiction; reflexivity.
Qed.

Lemma spec_total_finite (per_100g : CalculateMealItem -> float) (k : Z)
    (its : list CalculateMealItem) :
  0 <= k -> k <= 485 -> k + Z.of_nat (length its) <= 509 ->
  Forall (fun it => below k (per_100g it) /\ ge0 (per_100g it) = true
                    /\ below k (grams it) /\ gt0 (grams it) = true) its ->
  is_finite (spec_total per_100g its) = true /\ whole_cents (spec_total per_100g its).
Proof.
  intros Hk Hk' Hn Hits. unfold spec_total.
  destruct (sum_below per_100g k its (2 * k + 1) zero Hk ltac:(lia) ltac:(lia)
              ltac:(lia) Hits I eq_refl) as [B _].
  assert (R : running_sum
                (fold_left fadd
                   (map (fun it => fmul (per_100g it) (fdiv (grams it) hundred)) its)
                   zero)).
  { apply sum_running; [left; reflexivity|].
    eapply Forall_impl; [exact Hits|]. intros it (_ & ? & _ & ?). auto. }
  eapply round2_below; [| |exact B|exact R]; lia.
Qed.

(** The totals of a meal of moderate numbers are finite: when every
    number of every item is below [2 ^ k], for a [k] of at most 485,
    and [k] and the number of items add up to at most 509 (109 items of
    numbers below [2 ^ 400], or 445 items of numbers below [2 ^ 64]),
    no step of the aggregation overflows, and each of the four totals
    is a finite number, neither an infinity nor NaN: the float nearest
    to a whole number of hundredths that is not negative. *)
Theorem moderate_meal_totals_finite (k : Z) (its : list CalculateMealItem) :
  0 <= k -> k <= 485 -> k + Z.of_nat (length its) <= 509 ->
  Forall valid_item its -> Forall (item_below k) its ->
  finite_totals (calc_totals its) /\ whole_cents_totals (calc_totals its).
Proof.
  intros Hk Hk' Hn Hv Hb. rewrite calc_totals_spec.
  assert (H : Forall (fun it => valid_item it /\ item_below k it) its).
  { apply Forall_and; split; assumption. }
  assert (T : forall per_100g,
             (forall it, valid_item it /\ item_below k it ->
                         below k (per_100g it) /\ ge0 (per_100g it) = true) ->
             is_finite (spec_total per_100g its) = true
             /\ whole_cents (spec_total per_100g its)).
  { intros per_100g Hper. apply (spec_total_finite _ k); try assumption.
    eapply Forall_impl; [exact H|].
    intros it Hit. destruct (Hper it Hit) as [? ?].
    destruct Hit as ((? & _) & (? & _)). auto. }
  destruct (T calories_per_100g) as [Fc Wc].
  { intros it ((_ & ? & _) & (_ & ? & _)). auto. }
  destruct (T protein_per_100g) as [Fp Wp].
  { intros it ((_ & _ & ? & _) & (_ & _ & ? & _)). auto. }
  destruct (T carbs_per_100g) as [Fb Wb].
  { intros it ((_ & _ & _ & ? & _) & (_ & _ & _ & ? & _)). auto. }
  destruct (T fat_per_100g) as [Ff Wf].
  { intros it ((_ & _ & _ & _ & ?) & (_ & _ & _ & _ & ?)). auto. }
  unfold finite_totals, whole_cents_totals, spec_totals; cbn. auto 10.
Qed.

Lemma moderate_meal_totals_finite_witness :
  finite_totals (calc_totals [rice; water; oil])
  /\ whole_cents_totals (calc_totals [rice; water; oil]).
Proof.
  apply (moderate_meal_totals_finite 10 [rice; water; oil]); try (cbn; lia).
  - repeat constructor.
  - repeat constructor; vm_compute; discriminate.
Defined.
